(** * Gyaanchand voice assistant: turn pipeline, router, cache and chunker

    A shallow embedding of the server side of the repository:
    - [backend/ttsStreamSentences.js]  (module [Tts]):      sanitizer, chunker, synthesis streamer;
    - [backend/intelligentRouter.js]   (module [Router]):   response cache, intent classifier, routeRequest;
    - [backend/server-enhanced.js]     (module [Enhanced]): the per-connection Deepgram handler and turn pipeline;
    - [backend/server-enhanced.js]     (module [Sessions]): the session store, the upload route, the voice change;
    - [backend/ttsStreamSentences.js]  (module [Voices]):   the voice table and the request of a synthesis call;
    - [backend/server.js]              (module [Legacy]):   the older handler of the same name;
    - [backend/voiceStyle.js]          (module [VoiceStyle]): the smoothing of a reply, with what server.js strips from it.

    JavaScript strings are sequences of UTF-16 code units.  They are modelled
    by Rocq's [string], one [ascii] per code unit, which covers exactly the
    strings whose code units are all below 256 (ASCII and Latin-1); [length]
    is then the JavaScript [.length].  Glyphs outside that range that the
    source mentions in a character class or pattern cannot occur in such a
    string, and the corresponding replacement is the identity on the model. *)

From Stdlib Require Import String Ascii List Bool Arith NArith ZArith QArith Lia DecimalString.
Import ListNotations.

Local Close Scope Q_scope.
Local Open Scope string_scope.
Local Open Scope nat_scope.
Local Open Scope list_scope.

Infix "+++" := String.append (right associativity, at level 60).

(** ** JavaScript string primitives *)

Module Js.

Definition code (c : ascii) : nat := nat_of_ascii c.

(** [\s], which for code units below 256 is TAB, LF, VT, FF, CR, SP, NBSP;
    the same set is what [trim] strips. *)
Definition isSpace (c : ascii) : bool :=
  let n := code c in
  ((9 <=? n) && (n <=? 13)) || (n =? 32) || (n =? 160).

(** [\w] is ASCII only. *)
Definition isUpper (c : ascii) : bool := let n := code c in (65 <=? n) && (n <=? 90).
Definition isLower (c : ascii) : bool := let n := code c in (97 <=? n) && (n <=? 122).
Definition isDigit (c : ascii) : bool := let n := code c in (48 <=? n) && (n <=? 57).
Definition isLetter (c : ascii) : bool := isUpper c || isLower c.
Definition isWord (c : ascii) : bool := isLetter c || isDigit c || (code c =? 95).

(** [/[\u0000-\u001F\u007F]/] *)
Definition isControl (c : ascii) : bool := let n := code c in (n <=? 31) || (n =? 127).

(** The line terminators that [.] refuses (LF and CR below 256). *)
Definition isLineTerminator (c : ascii) : bool := let n := code c in (n =? 10) || (n =? 13).

(** [String.prototype.toLowerCase] on one code unit below 256. *)
Definition lowerChar (c : ascii) : ascii :=
  let n := code c in
  if ((65 <=? n) && (n <=? 90)) || ((192 <=? n) && (n <=? 222) && negb (n =? 215))
  then ascii_of_nat (n + 32) else c.

(** Case folding of an ignore-case pattern made of ASCII letters: without the
    [u] flag a non-ASCII code unit never folds onto an ASCII one. *)
Definition foldChar (c : ascii) : ascii :=
  if isUpper c then ascii_of_nat (code c + 32) else c.

Fixpoint smap (f : ascii -> ascii) (s : string) : string :=
  match s with
  | EmptyString => EmptyString
  | String c r => String (f c) (smap f r)
  end.

Fixpoint sfilter (keep : ascii -> bool) (s : string) : string :=
  match s with
  | EmptyString => EmptyString
  | String c r => if keep c then String c (sfilter keep r) else sfilter keep r
  end.

Fixpoint sforall (p : ascii -> bool) (s : string) : bool :=
  match s with
  | EmptyString => true
  | String c r => p c && sforall p r
  end.

Definition toLowerCase : string -> string := smap lowerChar.

(** JavaScript truthiness of a string. *)
Definition truthy (s : string) : bool :=
  match s with EmptyString => false | _ => true end.

Fixpoint trimStart (s : string) : string :=
  match s with
  | String c r => if isSpace c then trimStart r else s
  | EmptyString => EmptyString
  end.

Fixpoint trimEnd (s : string) : string :=
  match s with
  | EmptyString => EmptyString
  | String c r =>
      match trimEnd r with
      | EmptyString => if isSpace c then EmptyString else String c EmptyString
      | r' => String c r'
      end
  end.

Definition trim (s : string) : string := trimEnd (trimStart s).

(** [s.substring(0, n)] *)
Definition take (n : nat) (s : string) : string := substring 0 n s.

(** Does [s] start with [p], comparing through [f]? *)
Fixpoint startsWithBy (f : ascii -> ascii) (p s : string) : bool :=
  match p, s with
  | EmptyString, _ => true
  | String a p', String c s' => Ascii.eqb a (f c) && startsWithBy f p' s'
  | String _ _, EmptyString => false
  end.

Definition startsWith : string -> string -> bool := startsWithBy (fun c => c).

(** [s.includes(p)] *)
Fixpoint includes (p s : string) : bool :=
  startsWith p s ||
  match s with
  | EmptyString => false
  | String _ r => includes p r
  end.

Fixpoint drop (n : nat) (s : string) : string :=
  match n, s with
  | S k, String _ r => drop k r
  | _, _ => s
  end.

(** [xs.join(sep)] *)
Fixpoint join (sep : string) (xs : list string) : string :=
  match xs with
  | [] => EmptyString
  | [x] => x
  | x :: rest => x +++ sep +++ join sep rest
  end.

(** [xs.slice(-n)] *)
Definition lastN {A} (n : nat) (xs : list A) : list A :=
  skipn (List.length xs - n) xs.

(** The number of leading code units of [s] satisfying [p] (a greedy [p+] or [p*]). *)
Fixpoint span (p : ascii -> bool) (s : string) : nat :=
  match s with
  | String c r => if p c then S (span p r) else 0
  | EmptyString => 0
  end.

(** [RegExp.prototype[Symbol.split]] for a pattern that never matches the
    empty string.  [matchAt prev s] is the length of the match that starts
    at the head of [s] (with [prev] the code unit before it, for a
    lookbehind), if there is one.  The result's head is the piece under
    construction; [skip] counts the code units of the current match still to
    be dropped. *)
Definition consHead (c : ascii) (ps : list string) : list string :=
  match ps with
  | p :: rest => String c p :: rest
  | [] => [String c EmptyString]
  end.

Fixpoint splitGo (matchAt : option ascii -> string -> option nat)
         (skip : nat) (prev : option ascii) (s : string) : list string :=
  match s with
  | EmptyString => [EmptyString]
  | String c r =>
      match skip with
      | S k => splitGo matchAt k (Some c) r
      | O =>
          match matchAt prev s with
          | Some (S k) => EmptyString :: splitGo matchAt k (Some c) r
          | _ => consHead c (splitGo matchAt O (Some c) r)
          end
      end
  end.

Definition splitRegex (matchAt : option ascii -> string -> option nat) (s : string) : list string :=
  splitGo matchAt 0 None s.

(** [s.split(c)] for a one-character separator. *)
Definition splitChar (sep : ascii) : string -> list string :=
  splitRegex (fun _ s => match s with
                         | String c _ => if Ascii.eqb c sep then Some 1 else None
                         | EmptyString => None
                         end).

End Js.

(** ** The client sink and abort controllers *)

Module Ws.

(** What the server hands to [clientWs.send]: the JSON messages by their
    [type], and a binary audio frame. *)
Inductive ClientMsg : Type :=
| Status (status : string)
| Transcript (text : string) (isFinal : bool)
| Reply (text : string)
| StopAudio
| TtsEnd
| ErrorMsg (message : string)
| MemoryUpdate (userName : option string) (history : list (string * string))
| Audio (data : string).

End Ws.

Module Abort.

(** The [AbortController] objects allocated so far, by allocation index; the
    entry is the [aborted] flag of the controller's signal.  A variable or an
    option bag holding a controller or its signal holds the index. *)
Definition Controllers : Type := list bool.

Definition create (cs : Controllers) : nat * Controllers := (List.length cs, cs ++ [false]).

Fixpoint abort (id : nat) (cs : Controllers) : Controllers :=
  match cs, id with
  | [], _ => []
  | _ :: rest, O => true :: rest
  | b :: rest, S k => b :: abort k rest
  end.

Definition aborted (cs : Controllers) (id : nat) : bool := nth id cs false.

(** [signal?.aborted] *)
Definition signalAborted (cs : Controllers) (signal : option nat) : bool :=
  match signal with
  | Some id => aborted cs id
  | None => false
  end.

End Abort.

(** ** backend/ttsStreamSentences.js *)

Module Tts.
Import Js.

Definition dquote : ascii := "034"%char.

(** [text.replace(/["«»„]/g, '"')]: the low-9 quote U+201E lies outside the modelled range. *)
Definition normalizeQuotes : string -> string :=
  smap (fun c => if Ascii.eqb c dquote || (code c =? 171) || (code c =? 187) then dquote else c).

(** [text.replace(/['']/g, "'")] *)
Definition normalizeApostrophes : string -> string :=
  smap (fun c => if Ascii.eqb c "'"%char then "'"%char else c).

(** [text.replace(/\*\*/g, '')]: matches are taken left to right and do not overlap. *)
Fixpoint removeBold (s : string) : string :=
  match s with
  | String a (String b r' as r) =>
      if Ascii.eqb a "*"%char && Ascii.eqb b "*"%char
      then removeBold r'
      else String a (removeBold r)
  | _ => s
  end.

(** [text.replace(/`/g, '')] *)
Definition removeBackticks : string -> string :=
  sfilter (fun c => negb (Ascii.eqb c "`"%char)).

(** [text.replace(/^Gyaanchand:\s*/i, '')] *)
Definition stripSelfPrefix (s : string) : string :=
  if startsWithBy foldChar "gyaanchand:" s
  then let rest := drop 11 s in drop (span isSpace rest) rest
  else s.

(** [text.replace(/\s+/g, " ")]; [inRun] says that the previous code unit was
    whitespace, already replaced. *)
Fixpoint collapseGo (inRun : bool) (s : string) : string :=
  match s with
  | EmptyString => EmptyString
  | String c r =>
      if isSpace c
      then if inRun then collapseGo true r else String " "%char (collapseGo true r)
      else String c (collapseGo false r)
  end.

Definition collapseSpaces : string -> string := collapseGo false.

(** [text.replace(/[\u0000-\u001F\u007F]/g, ...)] with the empty string *)
Definition removeControl : string -> string := sfilter (fun c => negb (isControl c)).

Definition sanitizeForTTS (text : string) : string :=
  if negb (truthy text) then EmptyString else
  let text := normalizeQuotes text in
  let text := normalizeApostrophes text in
  (* text.replace(/…/g, "..."): U+2026 lies outside the modelled range *)
  let text := removeBold text in
  let text := removeBackticks text in
  let text := stripSelfPrefix text in
  let text := trim (collapseSpaces text) in
  let text := removeControl text in
  text.

(** [/(?<=[.!?])\s+/] at the head of [s], [prev] being the code unit before. *)
Definition isSentenceEnd (c : ascii) : bool :=
  Ascii.eqb c "."%char || Ascii.eqb c "!"%char || Ascii.eqb c "?"%char.

Definition sentenceAt (prev : option ascii) (s : string) : option nat :=
  match prev with
  | Some p => if isSentenceEnd p && (0 <? span isSpace s) then Some (span isSpace s) else None
  | None => None
  end.

(** [\s+and\s+] and [\s+but\s+]: a greedy whitespace run, the word, a greedy
    whitespace run.  Giving back whitespace never helps, since the word
    starts with a letter. *)
Definition spacedWordAt (word : string) (s : string) : option nat :=
  let n := span isSpace s in
  let rest := drop n s in
  let m := span isSpace (drop (String.length word) rest) in
  if (0 <? n) && startsWith word rest && (0 <? m)
  then Some (n + String.length word + m) else None.

(** [/,\s+|;\s+|\s+and\s+|\s+but\s+/] at the head of [s]. *)
Definition secondaryAt (_ : option ascii) (s : string) : option nat :=
  match s with
  | EmptyString => None
  | String c r =>
      if Ascii.eqb c ","%char || Ascii.eqb c ";"%char
      then if 0 <? span isSpace r then Some (S (span isSpace r)) else None
      else match spacedWordAt "and" s with
           | Some k => Some k
           | None => spacedWordAt "but" s
           end
  end.

Definition limit : nat := 150.

(** [if (current) chunks.push(current)] *)
Definition pushIf (chunks : list string) (current : string) : list string :=
  if truthy current then chunks ++ [current] else chunks.

(** The body of [for (const p of parts)]. *)
Definition partStep (st : list string * string) (p : string) : list string * string :=
  let '(chunks, current) := st in
  if String.length (trim (current +++ " " +++ p)) <=? limit
  then (chunks, if truthy current then current +++ " " +++ p else p)
  else (pushIf chunks current, p).

(** The body of [for (const s of sentences)].  In the long-sentence branch
    [current] is pushed and then left as it is for the loop over the parts. *)
Definition sentenceStep (st : list string * string) (s : string) : list string * string :=
  let '(chunks, current) := st in
  let candidate := if truthy current then current +++ " " +++ s else s in
  if String.length candidate <=? limit then (chunks, candidate)
  else
    let chunks := pushIf chunks current in
    if String.length s <=? limit then (chunks, s)
    else fold_left partStep (splitRegex secondaryAt s) (chunks, current).

Definition sentencesOf (text : string) : list string :=
  filter truthy (splitRegex sentenceAt text).

Definition splitIntoChunks (text : string) : list string :=
  let text := sanitizeForTTS text in
  if negb (truthy text) then [] else
  let '(chunks, current) := fold_left sentenceStep (sentencesOf text) ([], EmptyString) in
  pushIf chunks current.

(** *** murfStreamSentences

    The function suspends at [await generateChunkTTS(...)] and at the 100 ms
    gap between chunks.  Each segment below runs from one suspension to the
    next; it reads the abort flag from [cs] and the socket state from [ready]
    ([ws.readyState === 1]) as they are when it runs, and yields the messages
    it sends.  [Finished armed] is the function's return, [armed] telling
    whether the 150 ms timer that sends [tts_end] was set. *)

Inductive Generation : Type :=
| Generated (audio : string)
| Canceled                      (* axios.isCancel(err) *)
| Failed (message : string).

Record Stream : Type :=
  { chunks : list string; index : nat; sent : nat; signal : option nat; voiceId : string }.

Inductive Pending : Type :=
| AwaitGenerate (st : Stream)
| AwaitGap (st : Stream).

Inductive Step : Type :=
| Suspend (p : Pending)
| Finished (armed : bool).

Definition defaultVoice : string := "en-US-terrell".

(** [if (ws.readyState === 1 && !interrupted) setTimeout(...)] *)
Definition afterLoop (interrupted ready : bool) : Step := Finished (ready && negb interrupted).

(** The loop test and the first abort check of an iteration. *)
Definition loopHead (cs : Abort.Controllers) (ready : bool) (st : Stream) : Step :=
  if index st <? List.length (chunks st) then
    if Abort.signalAborted cs (signal st) then afterLoop true ready
    else Suspend (AwaitGenerate st)
  else afterLoop false ready.

Definition nextChunk (st : Stream) : Stream :=
  {| chunks := chunks st; index := S (index st); sent := sent st;
     signal := signal st; voiceId := voiceId st |}.

Definition countSent (st : Stream) : Stream :=
  {| chunks := chunks st; index := index st; sent := S (sent st);
     signal := signal st; voiceId := voiceId st |}.

Definition murfStreamSentences (text : string) (signal : option nat) (voiceId : string)
           (cs : Abort.Controllers) (ready : bool) : list Ws.ClientMsg * Step :=
  if negb (truthy text) || negb (truthy (trim text)) then ([], Finished false) else
  let text := sanitizeForTTS text in
  let chunks := splitIntoChunks text in
  if List.length chunks =? 0 then ([], Finished false) else
  ([], loopHead cs ready
         {| chunks := chunks; index := 0; sent := 0; signal := signal;
            voiceId := if truthy voiceId then voiceId else defaultVoice |}).

(** From the settling of [generateChunkTTS] to the next suspension. *)
Definition resumeGenerate (st : Stream) (g : Generation)
           (cs : Abort.Controllers) (ready : bool) : list Ws.ClientMsg * Step :=
  match g with
  | Generated audio =>
      if Abort.signalAborted cs (signal st) then ([], afterLoop true ready)
      else if ready then
        let st := countSent st in
        if index st <? List.length (chunks st) - 1
        then ([Ws.Audio audio], Suspend (AwaitGap st))
        else ([Ws.Audio audio], loopHead cs ready (nextChunk st))
      else ([], afterLoop false ready)
  | Canceled => ([], afterLoop true ready)
  | Failed _ => ([], loopHead cs ready (nextChunk st))
  end.

(** After the 100 ms gap. *)
Definition resumeGap (st : Stream) (cs : Abort.Controllers) (ready : bool)
  : list Ws.ClientMsg * Step :=
  ([], loopHead cs ready (nextChunk st)).

End Tts.

(** ** MD5 (RFC 1321), as [crypto.createHash('md5').update(s).digest('hex')] *)

Module Md5.
Local Open Scope N_scope.

Definition mask : N := 0xFFFFFFFF.
Definition add32 (x y : N) : N := N.land (x + y) mask.
Definition not32 (x : N) : N := N.lxor x mask.
Definition rotl32 (x : N) (k : N) : N :=
  N.land (N.lor (N.shiftl x k) (N.shiftr x (32 - k))) mask.

Definition K : list N :=
  [ 0xd76aa478; 0xe8c7b756; 0x242070db; 0xc1bdceee; 0xf57c0faf; 0x4787c62a; 0xa8304613; 0xfd469501;
    0x698098d8; 0x8b44f7af; 0xffff5bb1; 0x895cd7be; 0x6b901122; 0xfd987193; 0xa679438e; 0x49b40821;
    0xf61e2562; 0xc040b340; 0x265e5a51; 0xe9b6c7aa; 0xd62f105d; 0x02441453; 0xd8a1e681; 0xe7d3fbc8;
    0x21e1cde6; 0xc33707d6; 0xf4d50d87; 0x455a14ed; 0xa9e3e905; 0xfcefa3f8; 0x676f02d9; 0x8d2a4c8a;
    0xfffa3942; 0x8771f681; 0x6d9d6122; 0xfde5380c; 0xa4beea44; 0x4bdecfa9; 0xf6bb4b60; 0xbebfbc70;
    0x289b7ec6; 0xeaa127fa; 0xd4ef3085; 0x04881d05; 0xd9d4d039; 0xe6db99e5; 0x1fa27cf8; 0xc4ac5665;
    0xf4292244; 0x432aff97; 0xab9423a7; 0xfc93a039; 0x655b59c3; 0x8f0ccc92; 0xffeff47d; 0x85845dd1;
    0x6fa87e4f; 0xfe2ce6e0; 0xa3014314; 0x4e0811a1; 0xf7537e82; 0xbd3af235; 0x2ad7d2bb; 0xeb86d391 ].

Definition shifts : list N :=
  [ 7; 12; 17; 22; 7; 12; 17; 22; 7; 12; 17; 22; 7; 12; 17; 22;
    5; 9; 14; 20; 5; 9; 14; 20; 5; 9; 14; 20; 5; 9; 14; 20;
    4; 11; 16; 23; 4; 11; 16; 23; 4; 11; 16; 23; 4; 11; 16; 23;
    6; 10; 15; 21; 6; 10; 15; 21; 6; 10; 15; 21; 6; 10; 15; 21 ].

(** The UTF-8 bytes of a string of code units below 256. *)
Fixpoint utf8 (s : string) : list N :=
  match s with
  | EmptyString => []
  | String c r =>
      let n := N_of_ascii c in
      if n <? 128 then n :: utf8 r
      else N.lor 0xC0 (N.shiftr n 6) :: N.lor 0x80 (N.land n 0x3F) :: utf8 r
  end.

Fixpoint leBytes (count : nat) (x : N) : list N :=
  match count with
  | O => []
  | S k => N.land x 0xFF :: leBytes k (N.shiftr x 8)
  end.

Definition pad (msg : list N) : list N :=
  let len := List.length msg in
  let zeros := ((64 + 55 - len mod 64) mod 64)%nat in
  msg ++ [0x80] ++ List.repeat 0 zeros ++ leBytes 8 (8 * N.of_nat len).

Fixpoint leWord (bs : list N) : N :=
  match bs with
  | [] => 0
  | b :: r => b + 256 * leWord r
  end.

(** The sixteen little-endian words of a 64-byte block. *)
Fixpoint wordsOf (count : nat) (bs : list N) : list N :=
  match count with
  | O => []
  | S k => leWord (firstn 4 bs) :: wordsOf k (skipn 4 bs)
  end.

Definition round (M : list N) (st : N * N * N * N) (i : nat) : N * N * N * N :=
  let '(a, b, c, d) := st in
  let '(f, g) :=
    if (i <? 16)%nat then (N.lor (N.land b c) (N.land (not32 b) d), i)
    else if (i <? 32)%nat then (N.lor (N.land d b) (N.land (not32 d) c), ((5 * i + 1) mod 16)%nat)
    else if (i <? 48)%nat then (N.lxor b (N.lxor c d), ((3 * i + 5) mod 16)%nat)
    else (N.lxor c (N.lor b (not32 d)), ((7 * i) mod 16)%nat) in
  let f := add32 (add32 (add32 f a) (nth i K 0)) (nth g M 0) in
  (d, add32 b (rotl32 f (nth i shifts 0)), b, c).

Definition block (st : N * N * N * N) (bs : list N) : N * N * N * N :=
  let '(a0, b0, c0, d0) := st in
  let '(a, b, c, d) := fold_left (round (wordsOf 16 bs)) (seq 0 64) st in
  (add32 a0 a, add32 b0 b, add32 c0 c, add32 d0 d).

Fixpoint blocks (count : nat) (st : N * N * N * N) (bs : list N) : N * N * N * N :=
  match count with
  | O => st
  | S k => blocks k (block st (firstn 64 bs)) (skipn 64 bs)
  end.

Definition hexDigit (n : N) : ascii :=
  if n <? 10 then ascii_of_N (48 + n) else ascii_of_N (87 + n).

Fixpoint hexBytes (bs : list N) : string :=
  match bs with
  | [] => EmptyString
  | b :: r => String (hexDigit (N.shiftr b 4)) (String (hexDigit (N.land b 0xF)) (hexBytes r))
  end.

Definition digestHex (s : string) : string :=
  let bs := pad (utf8 s) in
  let '(a, b, c, d) :=
    blocks (List.length bs / 64) (0x67452301, 0xefcdab89, 0x98badcfe, 0x10325476) bs in
  hexBytes (leBytes 4 a ++ leBytes 4 b ++ leBytes 4 c ++ leBytes 4 d).

End Md5.

(** ** Regular expressions for [RegExp.prototype.test]

    [test] only asks whether some match exists, so the language of the
    pattern decides it; Brzozowski derivatives compute that. *)

Module Re.
Import Js.

Inductive re : Type :=
| Void
| Eps
| Chr (p : ascii -> bool)
| Cat (a b : re)
| Alt (a b : re)
| Star (a : re).

Fixpoint nullable (r : re) : bool :=
  match r with
  | Void => false
  | Eps => true
  | Chr _ => false
  | Cat a b => nullable a && nullable b
  | Alt a b => nullable a || nullable b
  | Star _ => true
  end.

Definition cat (a b : re) : re :=
  match a, b with
  | Void, _ => Void
  | _, Void => Void
  | Eps, _ => b
  | _, Eps => a
  | _, _ => Cat a b
  end.

Definition alt (a b : re) : re :=
  match a, b with
  | Void, _ => b
  | _, Void => a
  | _, _ => Alt a b
  end.

Fixpoint deriv (c : ascii) (r : re) : re :=
  match r with
  | Void => Void
  | Eps => Void
  | Chr p => if p c then Eps else Void
  | Cat a b => alt (cat (deriv c a) b) (if nullable a then deriv c b else Void)
  | Alt a b => alt (deriv c a) (deriv c b)
  | Star a => cat (deriv c a) (Star a)
  end.

Definition isVoid (r : re) : bool := match r with Void => true | _ => false end.

(** Does some prefix of [s] match [r]?  (A pattern anchored with [^].) *)
Fixpoint testAtStart (r : re) (s : string) : bool :=
  nullable r ||
  match s with
  | EmptyString => false
  | String c rest => let d := deriv c r in if isVoid d then false else testAtStart d rest
  end.

(** Does some substring of [s] match [r]?  ([r.test(s)] without anchors.) *)
Fixpoint test (r : re) (s : string) : bool :=
  testAtStart r s ||
  match s with
  | EmptyString => false
  | String _ rest => test r rest
  end.

(** A literal under the [i] flag; the pattern is given in lower case. *)
Fixpoint liti (p : string) : re :=
  match p with
  | EmptyString => Eps
  | String a rest => Cat (Chr (fun c => Ascii.eqb (foldChar c) a)) (liti rest)
  end.

Definition opt (r : re) : re := Alt r Eps.
Definition plus (r : re) : re := Cat r (Star r).
Definition ws1 : re := plus (Chr isSpace).                                (* \s+ *)
Definition dots : re := Star (Chr (fun c => negb (isLineTerminator c))).  (* .* *)

Fixpoint seqs (rs : list re) : re :=
  match rs with
  | [] => Eps
  | [r] => r
  | r :: rest => Cat r (seqs rest)
  end.

Fixpoint alts (rs : list re) : re :=
  match rs with
  | [] => Void
  | [r] => r
  | r :: rest => Alt r (alts rest)
  end.

End Re.

(** ** backend/intelligentRouter.js *)

Module Router.
Import Js Re.

Definition nl : string := String "010"%char EmptyString.
Definition q : string := String "034"%char EmptyString.

(** *** The response cache: a JavaScript [Map], in insertion order *)

Record Entry : Type := { response : string; timestamp : Z }.

Definition Cache : Type := list (string * Entry).

Definition CACHE_TTL : Z := 5 * 60 * 1000.
Definition MAX_CACHE_SIZE : nat := 100.

Fixpoint mapGet (key : string) (m : Cache) : option Entry :=
  match m with
  | [] => None
  | (k, v) :: rest => if String.eqb k key then Some v else mapGet key rest
  end.

(** [Map.prototype.set]: an existing key keeps its place. *)
Fixpoint mapSet (key : string) (v : Entry) (m : Cache) : Cache :=
  match m with
  | [] => [(key, v)]
  | (k, v0) :: rest => if String.eqb k key then (k, v) :: rest else (k, v0) :: mapSet key v rest
  end.

Fixpoint mapDelete (key : string) (m : Cache) : Cache :=
  match m with
  | [] => []
  | (k, v) :: rest => if String.eqb k key then rest else (k, v) :: mapDelete key rest
  end.

Definition mapSize (m : Cache) : nat := List.length m.

(** [responseCache.keys().next().value] *)
Definition mapFirstKey (m : Cache) : option string :=
  match m with
  | [] => None
  | (k, _) :: _ => Some k
  end.

Definition getCacheKey (text memoryContext : string) (hasDocument : bool) : string :=
  let normalized := sfilter (fun c => isWord c || isSpace c) (trim (toLowerCase text)) in
  let hash := Md5.digestHex (normalized +++ (if hasDocument then "doc" else "no-doc")) in
  take 16 hash.

(** Returns the cached response, or [None] for JavaScript's [null]. *)
Definition getCachedResponse (now : Z) (key : string) (cache : Cache) : option string * Cache :=
  match mapGet key cache with
  | Some cached =>
      if (now - timestamp cached <? CACHE_TTL)%Z then (Some (response cached), cache)
      else (None, mapDelete key cache)
  | None => (None, cache)
  end.

Definition setCachedResponse (now : Z) (key response : string) (cache : Cache) : Cache :=
  let cache :=
    if MAX_CACHE_SIZE <=? mapSize cache then
      let firstKey := mapFirstKey cache in
      mapDelete key cache
    else cache in
  mapSet key {| response := response; timestamp := now |} cache.

(** The periodic sweep installed with [setInterval]. *)
Definition cleanup (now : Z) (cache : Cache) : Cache :=
  filter (fun kv => negb (CACHE_TTL <? now - timestamp (snd kv))%Z) cache.

(** *** Intent classification *)

Inductive IntentType : Type := email | calendar | document | greeting | general.
Inductive Complexity : Type := simple | medium | complex.
Record Intent : Type := { type : IntentType; complexity : Complexity }.

Definition reEmail : re :=
  alts [ seqs [liti "send"; ws1; opt (seqs [liti "a"; opt (liti "n"); ws1]); liti "email"];
         seqs [liti "email"; ws1; liti "to"];
         seqs [liti "compose"; ws1; liti "email"];
         seqs [liti "mail"; ws1; opt (Alt (liti "my") (liti "the"))] ].

Definition reCalendar : re :=
  alts [ liti "schedule"; liti "calendar"; liti "meeting"; liti "appointment"; liti "event";
         seqs [liti "book"; ws1; opt (seqs [liti "a"; ws1]); liti "date"];
         seqs [liti "set"; ws1; opt (seqs [liti "a"; ws1]); liti "reminder"] ].

Definition reDocument : re :=
  alts [ liti "analyze"; liti "summarize"; liti "extract";
         seqs [liti "tell"; dots; liti "about"; dots; liti "document"];
         seqs [liti "what"; dots; liti "document"];
         seqs [liti "document"; dots; liti "about"];
         liti "pdf";
         seqs [liti "explain"; dots; liti "pdf"] ].

Definition reGreeting : re :=
  alts [ liti "hi"; liti "hey"; liti "hello"; liti "what's up"; liti "how are you";
         liti "good morning"; liti "good evening"; liti "who are you";
         liti "what is your name"; liti "my name is" ].

Definition reNotSimple : re :=
  alts [ liti "explain"; liti "compare"; liti "analyze"; liti "why"; liti "how does"; liti "detail" ].

Definition reDetailed : re :=
  alts [ seqs [liti "explain"; dots; liti "detail"]; liti "compare"; liti "analyze";
         seqs [liti "what"; dots; liti "difference"];
         seqs [liti "step"; dots; liti "step"];
         liti "detailed"; liti "comprehensive"; liti "thorough" ].

Definition reDescribe : re :=
  alts [ liti "tell me about"; liti "describe"; liti "what is"; liti "how does" ].

Definition reCode : re :=
  alts [ liti "code"; liti "program"; liti "algorithm"; liti "implement" ].

Definition reDocWords : re := alts [ liti "document"; liti "pdf"; liti "file" ].

Definition classifyIntent (text : string) : Intent :=
  if test reEmail text then {| type := email; complexity := complex |}
  else if test reCalendar text then {| type := calendar; complexity := complex |}
  else if test reDocument text then {| type := document; complexity := complex |}
  else if testAtStart reGreeting text then {| type := greeting; complexity := simple |}
  else if (String.length text <? 50) && negb (test reNotSimple text)
       then {| type := general; complexity := simple |}
  else if (100 <? String.length text) || test reDetailed text || test reDescribe text || test reCode text
       then {| type := general; complexity := complex |}
  else {| type := general; complexity := medium |}.

(** *** Prompts *)

Definition basePrompt : string :=
  "You are Gyaanchand, a sophisticated voice assistant created by Umer Zingu.

IDENTITY & TECHNOLOGY:
- Your name is Gyaanchand
- Created by Umer Zingu
- Voice: Murf AI - " +++ q +++
  "The Fastest, Most Efficient Text-to-Speech API for Building Voice Agents" +++ q +++
  "
- Hearing: Deepgram - Best-in-class speech recognition
- Intelligence: Google Gemini and Groq's Llama 3.3 70B models

RESPONSE LENGTH RULES (CRITICAL):
- Greetings/simple: 20-40 words (2-3 sentences)
- Medium queries: 60-100 words (4-6 sentences)
- Complex explanations: 120-180 words (8-12 sentences)
- Document analysis: 80-120 words (5-8 sentences with key facts)
- Technical topics: 150-200 words (10-14 sentences with structure)

VOICE-OPTIMIZED SPEAKING STYLE:
✅ Clear structure with smooth transitions
✅ Natural, conversational tone
✅ Use " +++ q +++
  "Here's the thing" +++ q +++
  ", " +++ q +++
  "Let me explain" +++ q +++
  ", " +++ q +++
  "So basically" +++ q +++
  "
✅ Short sentences (8-15 words) for easy listening
✅ Reference memory naturally: " +++ q +++
  "You mentioned..." +++ q +++
  ", " +++ q +++
  "Like we discussed..." +++ q +++
  "
❌ Never: " +++ q +++
  "As an AI..." +++ q +++
  ", robotic phrases

STRUCTURED RESPONSES:
For complex topics, use this format:
1. Brief intro (1 sentence)
2. Main explanation (3-5 sentences)
3. Key points or examples (2-4 sentences)
4. Brief summary or conclusion (1 sentence)

BE CONVERSATIONAL:
- Use contractions naturally
- Show personality while staying professional
- Remember context from conversation
- Give complete, helpful answers".

Definition isType (a b : IntentType) : bool :=
  match a, b with
  | email, email | calendar, calendar | document, document
  | greeting, greeting | general, general => true
  | _, _ => false
  end.

Definition isComplexity (a b : Complexity) : bool :=
  match a, b with
  | simple, simple | medium, medium | complex, complex => true
  | _, _ => false
  end.

Definition getSystemPrompt (intent : Intent) (hasMemory hasDocument : bool) : string :=
  if isType (type intent) greeting then
    basePrompt +++ nl +++ nl +++ "For greetings: Keep it brief (20-30 words) but warm and welcoming."
  else if isType (type intent) email || isType (type intent) calendar then
    basePrompt +++ nl +++ nl +++
    "For email/calendar requests: Confirm the action clearly and ask for any missing details."
  else if hasDocument then
    basePrompt +++ nl +++ nl +++
    "Document context provided. Extract key facts and provide structured analysis with specific details."
  else if isComplexity (complexity intent) complex then
    basePrompt +++ nl +++ nl +++
    "Complex query detected. Provide thorough, well-structured explanation with clear transitions between points."
  else basePrompt.

(** The body of [for (const line of lines)]. *)
Definition memoryLine (compact : list string) (line : string) : list string :=
  if includes "User's name:" line || includes "Topic:" line then compact ++ [line]
  else if includes "Recent" line && (List.length compact <? 3) then
    let messages := join "|" (lastN 3 (splitChar "|"%char line)) in
    compact ++ [take 200 messages]
  else compact.

Definition buildMemoryContext (memoryContext : string) : string :=
  if negb (truthy memoryContext) || (String.length memoryContext <? 10) then EmptyString else
  let lines := filter (fun l => truthy (trim l)) (splitChar "010"%char memoryContext) in
  take 250 (join nl (fold_left memoryLine lines [])).

(** *** Reasoning backends

    The three SDK calls are the environment.  A pending call is a node
    [Await] whose continuation receives the call's outcome together with the
    clock and the cache as they are when the call settles. *)

Record JsError : Type := { name : string; message : string }.

Inductive Outcome : Type :=
| Resolved (text : string)
| Rejected (e : JsError).

Inductive Request : Type :=
| GeminiFlash (text : string)
| GeminiPro (text : string)
| Groq (system user : string).

Inductive Route : Type :=
| Return (reply : string) (cache : Cache)
| Throw (e : JsError) (cache : Cache)
| Await (cache : Cache) (req : Request) (k : Outcome -> Z -> Cache -> Route).

Definition Cont : Type := Outcome -> Z -> Cache -> Route.

Definition isAbort (e : JsError) : bool := String.eqb (name e) "AbortError".

(** Each wrapper trims the text of a successful answer and rethrows a failure. *)
Definition trimmed (k : Cont) : Cont :=
  fun o => match o with
           | Resolved t => k (Resolved (trim t))
           | Rejected e => k (Rejected e)
           end.

Definition callGeminiFlash (prompt systemPrompt : string) (cache : Cache) (k : Cont) : Route :=
  Await cache (GeminiFlash (systemPrompt +++ nl +++ nl +++ prompt)) (trimmed k).

Definition callGeminiPro (prompt systemPrompt : string) (cache : Cache) (k : Cont) : Route :=
  Await cache (GeminiPro (systemPrompt +++ nl +++ nl +++ prompt)) (trimmed k).

Definition callGroq (prompt systemPrompt : string) (cache : Cache) (k : Cont) : Route :=
  Await cache (Groq systemPrompt prompt) (trimmed k).

(** *** routeRequest *)

Definition apology : string :=
  "I'm having trouble processing that right now. Could you try asking again?".

(** [response.replace(/^Gyaanchand:\s*/i, ...).trim()], the prefix replaced by the empty string *)
Definition cleanResponse (response : string) : string :=
  trim (Tts.stripSelfPrefix response).

(** The statements after the five branches: clean, cache, return. *)
Definition finish (cacheKey response : string) (now : Z) (cache : Cache) : Route :=
  let clean := cleanResponse response in
  Return clean (setCachedResponse now cacheKey clean cache).

(** The outer [catch (error)]. *)
Definition outerCatch (error : JsError) (cache : Cache) : Route :=
  if isAbort error then Throw error cache else Return apology cache.

(** [try { response = await primary(...) } catch (err) { if (err.name === 'AbortError') throw err;
    response = await callGroq(...) }], the shape shared by the five branches. *)
Definition tryPrimary (primary : string -> string -> Cache -> Cont -> Route)
           (finalPrompt systemPrompt cacheKey : string) (cache : Cache) : Route :=
  primary finalPrompt systemPrompt cache (fun o now cache =>
    match o with
    | Resolved response => finish cacheKey response now cache
    | Rejected err =>
        if isAbort err then outerCatch err cache
        else callGroq finalPrompt systemPrompt cache (fun o now cache =>
               match o with
               | Resolved response => finish cacheKey response now cache
               | Rejected error => outerCatch error cache
               end)
    end).

Definition hasContent (documentContent : option string) : bool :=
  match documentContent with
  | Some d => truthy d
  | None => false
  end.

(** [${compactMemory ? 'Context: ' + compactMemory + '\n\n' : ''}] *)
Definition contextPrefix (compactMemory : string) : string :=
  if truthy compactMemory then "Context: " +++ compactMemory +++ nl +++ nl else EmptyString.

Definition isDocumentQuery (intent : Intent) (text : string) (documentContent : option string) : bool :=
  hasContent documentContent && (isType (type intent) document || test reDocWords text).

Definition documentPrompt (compactMemory documentContent text : string) : string :=
  contextPrefix compactMemory +++ "Document content (first 3000 chars):" +++ nl +++
  take 3000 documentContent +++ nl +++ nl +++
  "Question: " +++ text +++ nl +++ nl +++
  "Provide a structured response (80-120 words, 5-8 sentences) with specific facts from the document.".

Definition userPrompt (compactMemory text instruction : string) : string :=
  contextPrefix compactMemory +++ "User: " +++ text +++ nl +++ nl +++ instruction.

Definition routeRequest (text memoryContext : string) (documentContent : option string)
           (now : Z) (cache : Cache) : Route :=
  let intent := classifyIntent text in
  let cacheKey := getCacheKey text memoryContext (hasContent documentContent) in
  let '(cachedResponse, cache) := getCachedResponse now cacheKey cache in
  let miss :=
    let compactMemory := buildMemoryContext memoryContext in
    let systemPrompt := getSystemPrompt intent (truthy compactMemory) (hasContent documentContent) in
    if isDocumentQuery intent text documentContent then
      let doc := match documentContent with Some d => d | None => EmptyString end in
      tryPrimary callGeminiPro (documentPrompt compactMemory doc text) systemPrompt cacheKey cache
    else if isType (type intent) greeting then
      tryPrimary callGeminiFlash
        (userPrompt compactMemory text "Respond warmly in 20-40 words (2-3 sentences).")
        systemPrompt cacheKey cache
    else if isComplexity (complexity intent) simple then
      tryPrimary callGeminiFlash
        (userPrompt compactMemory text "Answer clearly in 40-70 words (3-4 sentences).")
        systemPrompt cacheKey cache
    else if isComplexity (complexity intent) medium then
      tryPrimary callGeminiPro
        (userPrompt compactMemory text "Provide a helpful response in 70-110 words (5-7 sentences).")
        systemPrompt cacheKey cache
    else
      tryPrimary callGeminiPro
        (userPrompt compactMemory text
           "Provide a thorough, well-structured response in 120-180 words (8-12 sentences). Use clear transitions and organize information logically.")
        systemPrompt cacheKey cache in
  match cachedResponse with
  | Some hit => if truthy hit then Return hit cache else miss
  | None => miss
  end.

(** *** One call of [routeRequest] run to its end

    [script] lists, in order, how the backend calls of this invocation
    settle and the clock at that moment; no other code touches the cache in
    between.  The result is [None] while a call is still pending. *)

Inductive Result : Type :=
| Returned (reply : string)
| Thrown (e : JsError).

Record Run : Type := { result : option Result; cacheAfter : Cache; calls : list Request }.

Fixpoint run (r : Route) (script : list (Outcome * Z)) (log : list Request) : Run :=
  match r with
  | Return reply cache => {| result := Some (Returned reply); cacheAfter := cache; calls := log |}
  | Throw e cache => {| result := Some (Thrown e); cacheAfter := cache; calls := log |}
  | Await cache req k =>
      match script with
      | [] => {| result := None; cacheAfter := cache; calls := log ++ [req] |}
      | (o, now) :: rest => run (k o now cache) rest (log ++ [req])
      end
  end.

Definition route (text memoryContext : string) (documentContent : option string)
           (now : Z) (cache : Cache) (script : list (Outcome * Z)) : Run :=
  run (routeRequest text memoryContext documentContent now cache) script [].

End Router.

(** ** Deepgram's [Results] messages

    The fields the handlers read, with the defaults they apply: the first
    alternative's transcript (or the empty string), [is_final],
    [speech_final] and the first alternative's confidence (or 0). *)

Module Dg.

Record Recognition : Type :=
  { text : string; isFinal : bool; speechFinal : bool; confidence : Q }.

Definition qlt (x y : Q) : bool := negb (Qle_bool y x).

End Dg.

(** ** backend/actionHandler.js, as far as the turn pipeline sees it

    [handleAction] resolves with [null], at once, exactly when neither of its
    two patterns matches the lower-cased text; otherwise every path resolves
    with an object carrying a [message], some of them only after a call to
    the mail or calendar service. *)

Module Action.
Import Js Re.

Definition reMail : re := alts [ liti "send"; liti "email"; liti "mail" ].

Definition reSchedule : re :=
  alts [ liti "schedule"; liti "book"; liti "calendar"; liti "meeting"; liti "appointment";
         liti "remind"; seqs [liti "set"; dots; liti "date"] ].

Definition isActionRequest (text : string) : bool :=
  let lowerText := toLowerCase text in
  test reMail lowerText || test reSchedule lowerText.

End Action.

(** ** backend/server-enhanced.js: [openDeepgramSocket] *)

Module Enhanced.
Import Js Ws Dg.

Record Memory : Type :=
  { userName : option string; lastUserMessages : list string; lastBotMessages : list string }.

Record Document : Type := { filename : string; content : string }.

Record Session : Type := { document : option Document; voiceId : string }.

(** The callback handed to [setTimeout] closes over the transcript. *)
Record Timer : Type := { timerId : nat; transcript : string; delay : nat }.

Inductive Tail : Type := ActionTail | ReplyTail.

(** A turn suspended at one of its [await]s. *)
Inductive Task : Type :=
| AwaitAction (transcript : string)
| AwaitRoute (transcript : string) (signal : nat) (pending : Router.Route)
| AwaitSpeech (tail : Tail) (pending : Tts.Pending)
| Done.

(** The closure variables of one [openDeepgramSocket] call, the two
    process-wide maps as far as this connection reads them, the client socket
    and the turns in flight.  [transcriptTimeout] is the timer that is armed;
    [session] is the entry of [sessionData] for this connection, read through
    the reference the callback captured. *)
Record Conn : Type :=
  { isOpen : bool;
    processingAudio : bool;
    transcriptTimeout : option Timer;
    timersSet : nat;
    currentTTSController : option nat;
    controllers : Abort.Controllers;
    memory : Memory;
    session : option Session;
    responseCache : Router.Cache;
    clientReady : bool;
    sink : list ClientMsg;
    ttsEndArmed : nat;
    tasks : list Task }.

Definition initial (session : option Session) (cache : Router.Cache) : Conn :=
  {| isOpen := false; processingAudio := false; transcriptTimeout := None; timersSet := 0;
     currentTTSController := None; controllers := [];
     memory := {| userName := None; lastUserMessages := []; lastBotMessages := [] |};
     session := session; responseCache := cache; clientReady := true; sink := [];
     ttsEndArmed := 0; tasks := [] |}.

Definition setOpen (b : bool) (c : Conn) : Conn :=
  {| isOpen := b; processingAudio := processingAudio c; transcriptTimeout := transcriptTimeout c;
     timersSet := timersSet c; currentTTSController := currentTTSController c;
     controllers := controllers c; memory := memory c; session := session c;
     responseCache := responseCache c; clientReady := clientReady c; sink := sink c;
     ttsEndArmed := ttsEndArmed c; tasks := tasks c |}.

Definition setProcessing (b : bool) (c : Conn) : Conn :=
  {| isOpen := isOpen c; processingAudio := b; transcriptTimeout := transcriptTimeout c;
     timersSet := timersSet c; currentTTSController := currentTTSController c;
     controllers := controllers c; memory := memory c; session := session c;
     responseCache := responseCache c; clientReady := clientReady c; sink := sink c;
     ttsEndArmed := ttsEndArmed c; tasks := tasks c |}.

Definition setTimer (t : option Timer) (n : nat) (c : Conn) : Conn :=
  {| isOpen := isOpen c; processingAudio := processingAudio c; transcriptTimeout := t;
     timersSet := n; currentTTSController := currentTTSController c;
     controllers := controllers c; memory := memory c; session := session c;
     responseCache := responseCache c; clientReady := clientReady c; sink := sink c;
     ttsEndArmed := ttsEndArmed c; tasks := tasks c |}.

Definition setController (k : option nat) (cs : Abort.Controllers) (c : Conn) : Conn :=
  {| isOpen := isOpen c; processingAudio := processingAudio c; transcriptTimeout := transcriptTimeout c;
     timersSet := timersSet c; currentTTSController := k;
     controllers := cs; memory := memory c; session := session c;
     responseCache := responseCache c; clientReady := clientReady c; sink := sink c;
     ttsEndArmed := ttsEndArmed c; tasks := tasks c |}.

Definition setMemory (m : Memory) (c : Conn) : Conn :=
  {| isOpen := isOpen c; processingAudio := processingAudio c; transcriptTimeout := transcriptTimeout c;
     timersSet := timersSet c; currentTTSController := currentTTSController c;
     controllers := controllers c; memory := m; session := session c;
     responseCache := responseCache c; clientReady := clientReady c; sink := sink c;
     ttsEndArmed := ttsEndArmed c; tasks := tasks c |}.

Definition setCache (cache : Router.Cache) (c : Conn) : Conn :=
  {| isOpen := isOpen c; processingAudio := processingAudio c; transcriptTimeout := transcriptTimeout c;
     timersSet := timersSet c; currentTTSController := currentTTSController c;
     controllers := controllers c; memory := memory c; session := session c;
     responseCache := cache; clientReady := clientReady c; sink := sink c;
     ttsEndArmed := ttsEndArmed c; tasks := tasks c |}.

Definition setReady (b : bool) (c : Conn) : Conn :=
  {| isOpen := isOpen c; processingAudio := processingAudio c; transcriptTimeout := transcriptTimeout c;
     timersSet := timersSet c; currentTTSController := currentTTSController c;
     controllers := controllers c; memory := memory c; session := session c;
     responseCache := responseCache c; clientReady := b; sink := sink c;
     ttsEndArmed := ttsEndArmed c; tasks := tasks c |}.

(** [clientWs.send(JSON.stringify(m))] *)
Definition send (m : ClientMsg) (c : Conn) : Conn :=
  {| isOpen := isOpen c; processingAudio := processingAudio c; transcriptTimeout := transcriptTimeout c;
     timersSet := timersSet c; currentTTSController := currentTTSController c;
     controllers := controllers c; memory := memory c; session := session c;
     responseCache := responseCache c; clientReady := clientReady c; sink := sink c ++ [m];
     ttsEndArmed := ttsEndArmed c; tasks := tasks c |}.

Definition setTtsEndArmed (n : nat) (c : Conn) : Conn :=
  {| isOpen := isOpen c; processingAudio := processingAudio c; transcriptTimeout := transcriptTimeout c;
     timersSet := timersSet c; currentTTSController := currentTTSController c;
     controllers := controllers c; memory := memory c; session := session c;
     responseCache := responseCache c; clientReady := clientReady c; sink := sink c;
     ttsEndArmed := n; tasks := tasks c |}.

Definition setTasks (ts : list Task) (c : Conn) : Conn :=
  {| isOpen := isOpen c; processingAudio := processingAudio c; transcriptTimeout := transcriptTimeout c;
     timersSet := timersSet c; currentTTSController := currentTTSController c;
     controllers := controllers c; memory := memory c; session := session c;
     responseCache := responseCache c; clientReady := clientReady c; sink := sink c;
     ttsEndArmed := ttsEndArmed c; tasks := ts |}.

Definition sendAll (ms : list ClientMsg) (c : Conn) : Conn := fold_left (fun c m => send m c) ms c.

Fixpoint replaceNth {A} (i : nat) (x : A) (xs : list A) : list A :=
  match xs, i with
  | [], _ => []
  | _ :: rest, O => x :: rest
  | y :: rest, S k => y :: replaceNth k x rest
  end.

(** A turn reaches an [await]: [Some i] overwrites the slot of the turn that
    is running, [None] is a new turn. *)
Definition park (slot : option nat) (t : Task) (c : Conn) : Conn :=
  match slot with
  | Some i => setTasks (replaceNth i t (tasks c)) c
  | None => setTasks (tasks c ++ [t]) c
  end.

(** *** updateMemory *)

(** [xs.push(x); if (xs.length > 4) xs.shift();] *)
Definition pushCapped (x : string) (xs : list string) : list string :=
  let xs := xs ++ [x] in
  if 4 <? List.length xs then tl xs else xs.

Fixpoint history (users bots : list string) (i : nat) : list (string * string) :=
  match users with
  | [] => []
  | msg :: rest => (msg, nth i bots EmptyString) :: history rest bots (S i)
  end.

Definition updateMemory (userMsg botMsg : string) (c : Conn) : Conn :=
  let m := memory c in
  let users := if truthy userMsg then pushCapped userMsg (lastUserMessages m) else lastUserMessages m in
  let bots := if truthy botMsg then pushCapped botMsg (lastBotMessages m) else lastBotMessages m in
  let c := setMemory {| userName := userName m; lastUserMessages := users; lastBotMessages := bots |} c in
  send (MemoryUpdate (userName m) (history (lastN 3 users) bots 0)) c.

(** *** The interrupt block and [cancelCurrentTTS] *)

Definition cancelCurrentTTS (c : Conn) : Conn :=
  match currentTTSController c with
  | Some id => setController None (Abort.abort id (controllers c)) c
  | None => c
  end.

Definition interrupt (c : Conn) : Conn :=
  let c := cancelCurrentTTS c in
  let c := send StopAudio c in
  setProcessing false c.

(** *** The turn, segment by segment *)

Definition voiceOf (c : Conn) : string :=
  match session c with
  | Some s => if truthy (voiceId s) then voiceId s else Tts.defaultVoice
  | None => Tts.defaultVoice
  end.

(** [catch (err)] of the timer callback. *)
Definition catchBlock (slot : option nat) (err : Router.JsError) (c : Conn) : Conn :=
  let c := if Router.isAbort err then c
           else send (ErrorMsg ("Processing error: " +++ Router.message err)) c in
  let c := send (Status "Listening...") c in
  let c := setProcessing false c in
  let c := setController None (controllers c) c in
  match slot with
  | Some i => park slot Done c
  | None => c
  end.

(** What follows [await murfStreamSentences(...)]. *)
Definition afterSpeech (slot : option nat) (c : Conn) : Conn :=
  let c := setController None (controllers c) c in
  let c := send (Status "Listening...") c in
  let c := setProcessing false c in
  match slot with
  | Some i => park slot Done c
  | None => c
  end.

(** A segment of [murfStreamSentences] has run. *)
Definition speech (slot : option nat) (tail : Tail) (out : list ClientMsg * Tts.Step) (c : Conn) : Conn :=
  let c := sendAll (fst out) c in
  match snd out with
  | Tts.Suspend p => park slot (AwaitSpeech tail p) c
  | Tts.Finished armed =>
      afterSpeech slot (if armed then setTtsEndArmed (S (ttsEndArmed c)) c else c)
  end.

(** Reading [.signal] of [null]. *)
Definition nullSignal : Router.JsError :=
  {| Router.name := "TypeError";
     Router.message := "Cannot read properties of null (reading 'signal')" |}.

(** From the resolution of [routeRequest] on. *)
Definition afterRoute (slot : option nat) (transcript aiReply : string) (c : Conn) : Conn :=
  let c := updateMemory transcript aiReply c in
  let c := send (Reply aiReply) c in
  let c := send (Status "Speaking...") c in
  match currentTTSController c with
  | None => catchBlock slot nullSignal c
  | Some id =>
      speech slot ReplyTail
        (Tts.murfStreamSentences aiReply (Some id) (voiceOf c) (controllers c) (clientReady c)) c
  end.

(** A segment of [routeRequest] has run. *)
Definition routed (slot : option nat) (transcript : string) (signal : nat)
           (r : Router.Route) (c : Conn) : Conn :=
  match r with
  | Router.Return aiReply cache => afterRoute slot transcript aiReply (setCache cache c)
  | Router.Throw e cache => catchBlock slot e (setCache cache c)
  | Router.Await cache _ _ => park slot (AwaitRoute transcript signal r) (setCache cache c)
  end.

Definition buildContext (m : Memory) : string :=
  let memoryContext := EmptyString in
  let memoryContext :=
    match userName m with
    | Some n => if truthy n then memoryContext +++ "User: " +++ n +++ Router.nl else memoryContext
    | None => memoryContext
    end in
  if 0 <? List.length (lastUserMessages m) then
    let recent := join " | " (lastN 2 (lastUserMessages m)) in
    memoryContext +++ "Recent: " +++ take 150 recent +++ Router.nl
  else memoryContext.

Definition documentOf (c : Conn) : option string :=
  match session c with
  | Some s => match document s with
              | Some d => if truthy (content d) then Some (content d) else None
              | None => None
              end
  | None => None
  end.

(** The timer callback, up to its first suspension. *)
Definition timerCallback (transcript : string) (now : Z) (c : Conn) : Conn :=
  if processingAudio c then c else
  let c := setProcessing true c in
  let c := send (Status "Thinking...") c in
  let memoryContext := buildContext (memory c) in
  let documentContent := documentOf c in
  if Action.isActionRequest transcript then park None (AwaitAction transcript) c
  else
    let '(id, cs) := Abort.create (controllers c) in
    let c := setController (Some id) cs c in
    routed None transcript id
      (Router.routeRequest transcript memoryContext documentContent now (responseCache c)) c.

(** [handleAction] has resolved with an object. *)
Definition afterAction (slot : option nat) (transcript message : string) (c : Conn) : Conn :=
  let c := send (Reply message) c in
  let c := send (Status "Speaking...") c in
  let c := updateMemory transcript message c in
  let '(id, cs) := Abort.create (controllers c) in
  let c := setController (Some id) cs c in
  speech slot ActionTail
    (Tts.murfStreamSentences message (Some id) (voiceOf c) (controllers c) (clientReady c)) c.

(** *** The handler of Deepgram's messages *)

(** [/(?:my name is|i am|i'm|call me)\s+([A-Za-z]+)/i] at the head of [s]: the captured group. *)
Definition nameAfter (intro s : string) : option string :=
  if startsWithBy foldChar intro s then
    let rest := drop (String.length intro) s in
    let rest := drop (span isSpace rest) rest in
    if (0 <? span isSpace (drop (String.length intro) s)) && (0 <? span isLetter rest)
    then Some (take (span isLetter rest) rest) else None
  else None.

Definition nameAt (s : string) : option string :=
  match nameAfter "my name is" s with
  | Some n => Some n
  | None =>
      match nameAfter "i am" s with
      | Some n => Some n
      | None =>
          match nameAfter "i'm" s with
          | Some n => Some n
          | None => nameAfter "call me" s
          end
      end
  end.

(** [transcript.match(...)]: the leftmost match. *)
Fixpoint nameMatch (s : string) : option string :=
  match nameAt s with
  | Some n => Some n
  | None => match s with
            | String _ rest => nameMatch rest
            | EmptyString => None
            end
  end.

Definition detectName (transcript : string) (c : Conn) : Conn :=
  match nameMatch transcript with
  | Some n =>
      if 2 <? String.length n
      then setMemory {| userName := Some n; lastUserMessages := lastUserMessages (memory c);
                        lastBotMessages := lastBotMessages (memory c) |} c
      else c
  | None => c
  end.

Definition shouldProcess (ev : Recognition) : bool :=
  speechFinal ev || (8 <? String.length (text ev)) || includes "?" (text ev)
  || qlt (9 # 10) (confidence ev).

(** [dgWs.on("message", ...)] for a message of type [Results] with a first alternative. *)
Definition onResults (ev : Recognition) (c : Conn) : Conn :=
  if negb (isOpen c) then c else
  let transcript := text ev in
  let c := if processingAudio c && negb (isFinal ev) && (2 <? String.length transcript)
           then interrupt c else c in
  if qlt (confidence ev) (1 # 2) && (String.length transcript <? 3) then c else
  if truthy (trim transcript) then
    if negb (isFinal ev) then send (Transcript transcript false) c
    else if 1 <? String.length (trim transcript) then
      let c := setTimer None (timersSet c) c in
      let c := send (Transcript transcript true) c in
      let c := detectName transcript c in
      if shouldProcess ev && negb (processingAudio c) then
        setTimer (Some {| timerId := timersSet c; transcript := transcript;
                          delay := if speechFinal ev then 100 else 400 |})
                 (S (timersSet c)) c
      else c
    else c
  else c.

(** Did the handler call [setTimeout] for this message? *)
Definition schedules (ev : Recognition) (c : Conn) : bool :=
  timersSet c <? timersSet (onResults ev c).

(** *** Everything that can happen to the connection *)

Inductive Event : Type :=
| DgOpen
| DgClose
| Results (ev : Recognition)
| TimerFires (now : Z)
| ActionSettles (task : nat) (message : string)
| BackendSettles (task : nat) (o : Router.Outcome) (now : Z)
| GenerationSettles (task : nat) (g : Tts.Generation)
| GapElapses (task : nat)
| TtsEndFires
| ClientStopTts
| ClientGone.

Definition step (c : Conn) (e : Event) : Conn :=
  match e with
  | DgOpen => send (Status "Listening - Start speaking") (setOpen true c)
  | DgClose => setTimer None (timersSet c) (setOpen false c)
  | Results ev => onResults ev c
  | TimerFires now =>
      match transcriptTimeout c with
      | Some t => timerCallback (transcript t) now (setTimer None (timersSet c) c)
      | None => c
      end
  | ActionSettles i message =>
      match nth i (tasks c) Done with
      | AwaitAction transcript => afterAction (Some i) transcript message c
      | _ => c
      end
  | BackendSettles i o now =>
      match nth i (tasks c) Done with
      | AwaitRoute transcript signal (Router.Await _ _ k) =>
          routed (Some i) transcript signal (k o now (responseCache c)) c
      | _ => c
      end
  | GenerationSettles i g =>
      match nth i (tasks c) Done with
      | AwaitSpeech tail (Tts.AwaitGenerate st) =>
          speech (Some i) tail (Tts.resumeGenerate st g (controllers c) (clientReady c)) c
      | _ => c
      end
  | GapElapses i =>
      match nth i (tasks c) Done with
      | AwaitSpeech tail (Tts.AwaitGap st) =>
          speech (Some i) tail (Tts.resumeGap st (controllers c) (clientReady c)) c
      | _ => c
      end
  | TtsEndFires =>
      match ttsEndArmed c with
      | S n => send TtsEnd (setTtsEndArmed n c)
      | O => c
      end
  | ClientStopTts => send StopAudio (cancelCurrentTTS c)
  | ClientGone => setReady false c
  end.

Definition steps (c : Conn) (es : list Event) : Conn := fold_left step es c.

End Enhanced.

(** ** backend/server.js: the older [openDeepgramSocket]

    [./llm] is not part of the sources at hand and [./voiceStyle] draws random
    numbers, so the reply as it leaves the smoothing step is an input of the
    model. *)

Module Legacy.
Import Js Ws Dg.

Record Timer : Type := { timerId : nat; transcript : string; delay : nat }.

Inductive Task : Type :=
| AwaitReply (transcript : string)
| AwaitSpeech (pending : Tts.Pending)
| Done.

Record Conn : Type :=
  { isOpen : bool;
    processingAudio : bool;
    lastTranscript : string;
    transcriptTimeout : option Timer;
    timersSet : nat;
    currentTTSController : option nat;
    controllers : Abort.Controllers;
    clientReady : bool;
    sink : list ClientMsg;
    ttsEndArmed : nat;
    tasks : list Task }.

Definition initial : Conn :=
  {| isOpen := false; processingAudio := false; lastTranscript := EmptyString;
     transcriptTimeout := None; timersSet := 0; currentTTSController := None; controllers := [];
     clientReady := true; sink := []; ttsEndArmed := 0; tasks := [] |}.

Definition setOpen (b : bool) (c : Conn) : Conn :=
  {| isOpen := b; processingAudio := processingAudio c; lastTranscript := lastTranscript c;
     transcriptTimeout := transcriptTimeout c; timersSet := timersSet c;
     currentTTSController := currentTTSController c; controllers := controllers c;
     clientReady := clientReady c; sink := sink c; ttsEndArmed := ttsEndArmed c; tasks := tasks c |}.

Definition setProcessing (b : bool) (c : Conn) : Conn :=
  {| isOpen := isOpen c; processingAudio := b; lastTranscript := lastTranscript c;
     transcriptTimeout := transcriptTimeout c; timersSet := timersSet c;
     currentTTSController := currentTTSController c; controllers := controllers c;
     clientReady := clientReady c; sink := sink c; ttsEndArmed := ttsEndArmed c; tasks := tasks c |}.

Definition setLastTranscript (t : string) (c : Conn) : Conn :=
  {| isOpen := isOpen c; processingAudio := processingAudio c; lastTranscript := t;
     transcriptTimeout := transcriptTimeout c; timersSet := timersSet c;
     currentTTSController := currentTTSController c; controllers := controllers c;
     clientReady := clientReady c; sink := sink c; ttsEndArmed := ttsEndArmed c; tasks := tasks c |}.

Definition setTimer (t : option Timer) (n : nat) (c : Conn) : Conn :=
  {| isOpen := isOpen c; processingAudio := processingAudio c; lastTranscript := lastTranscript c;
     transcriptTimeout := t; timersSet := n;
     currentTTSController := currentTTSController c; controllers := controllers c;
     clientReady := clientReady c; sink := sink c; ttsEndArmed := ttsEndArmed c; tasks := tasks c |}.

Definition setController (k : option nat) (cs : Abort.Controllers) (c : Conn) : Conn :=
  {| isOpen := isOpen c; processingAudio := processingAudio c; lastTranscript := lastTranscript c;
     transcriptTimeout := transcriptTimeout c; timersSet := timersSet c;
     currentTTSController := k; controllers := cs;
     clientReady := clientReady c; sink := sink c; ttsEndArmed := ttsEndArmed c; tasks := tasks c |}.

Definition setReady (b : bool) (c : Conn) : Conn :=
  {| isOpen := isOpen c; processingAudio := processingAudio c; lastTranscript := lastTranscript c;
     transcriptTimeout := transcriptTimeout c; timersSet := timersSet c;
     currentTTSController := currentTTSController c; controllers := controllers c;
     clientReady := b; sink := sink c; ttsEndArmed := ttsEndArmed c; tasks := tasks c |}.

Definition send (m : ClientMsg) (c : Conn) : Conn :=
  {| isOpen := isOpen c; processingAudio := processingAudio c; lastTranscript := lastTranscript c;
     transcriptTimeout := transcriptTimeout c; timersSet := timersSet c;
     currentTTSController := currentTTSController c; controllers := controllers c;
     clientReady := clientReady c; sink := sink c ++ [m]; ttsEndArmed := ttsEndArmed c;
     tasks := tasks c |}.

Definition setTtsEndArmed (n : nat) (c : Conn) : Conn :=
  {| isOpen := isOpen c; processingAudio := processingAudio c; lastTranscript := lastTranscript c;
     transcriptTimeout := transcriptTimeout c; timersSet := timersSet c;
     currentTTSController := currentTTSController c; controllers := controllers c;
     clientReady := clientReady c; sink := sink c; ttsEndArmed := n; tasks := tasks c |}.

Definition setTasks (ts : list Task) (c : Conn) : Conn :=
  {| isOpen := isOpen c; processingAudio := processingAudio c; lastTranscript := lastTranscript c;
     transcriptTimeout := transcriptTimeout c; timersSet := timersSet c;
     currentTTSController := currentTTSController c; controllers := controllers c;
     clientReady := clientReady c; sink := sink c; ttsEndArmed := ttsEndArmed c; tasks := ts |}.

Definition sendAll (ms : list ClientMsg) (c : Conn) : Conn := fold_left (fun c m => send m c) ms c.

Definition park (slot : option nat) (t : Task) (c : Conn) : Conn :=
  match slot with
  | Some i => setTasks (Enhanced.replaceNth i t (tasks c)) c
  | None => setTasks (tasks c ++ [t]) c
  end.

(** [cancelCurrentTTS] and the abort of the interrupt block: the variable keeps the controller. *)
Definition cancelCurrentTTS (c : Conn) : Conn :=
  match currentTTSController c with
  | Some id => setController (Some id) (Abort.abort id (controllers c)) c
  | None => c
  end.

Definition interrupt (c : Conn) : Conn :=
  let c := cancelCurrentTTS c in
  let c := send StopAudio c in
  setProcessing false c.

Definition afterSpeech (slot : option nat) (c : Conn) : Conn :=
  let c := setController None (controllers c) c in
  let c := send (Status "Listening...") c in
  let c := setProcessing false c in
  match slot with
  | Some i => park slot Done c
  | None => c
  end.

Definition speech (slot : option nat) (out : list ClientMsg * Tts.Step) (c : Conn) : Conn :=
  let c := sendAll (fst out) c in
  match snd out with
  | Tts.Suspend p => park slot (AwaitSpeech p) c
  | Tts.Finished armed =>
      afterSpeech slot (if armed then setTtsEndArmed (S (ttsEndArmed c)) c else c)
  end.

(** From the smoothed reply on. *)
Definition afterReply (slot : option nat) (aiReply : string) (c : Conn) : Conn :=
  let c := send (Reply aiReply) c in
  let c := send (Status "Speaking...") c in
  let '(id, cs) := Abort.create (controllers c) in
  let c := setController (Some id) cs c in
  speech slot (Tts.murfStreamSentences aiReply (Some id) EmptyString (controllers c) (clientReady c)) c.

Definition catchBlock (slot : option nat) (message : string) (c : Conn) : Conn :=
  let c := send (ErrorMsg ("Processing error: " +++ message)) c in
  let c := send (Status "Listening...") c in
  let c := setProcessing false c in
  match slot with
  | Some i => park slot Done c
  | None => c
  end.

Definition timerCallback (transcript : string) (c : Conn) : Conn :=
  if processingAudio c then c else
  let c := setProcessing true c in
  let c := setLastTranscript transcript c in
  let c := send (Status "Thinking...") c in
  park None (AwaitReply transcript) c.

Definition shouldProcess (ev : Recognition) : bool :=
  speechFinal ev || (10 <? String.length (text ev)) || includes "?" (text ev)
  || includes "." (text ev) || qlt (9 # 10) (confidence ev).

Definition onResults (ev : Recognition) (c : Conn) : Conn :=
  if negb (isOpen c) then c else
  let transcript := text ev in
  let c := if processingAudio c && negb (isFinal ev) && (3 <? String.length transcript)
           then interrupt c else c in
  if qlt (confidence ev) (1 # 2) && (String.length transcript <? 3) then c else
  if truthy transcript && truthy (trim transcript) then
    if negb (isFinal ev) then send (Transcript transcript false) c
    else if 1 <? String.length (trim transcript) then
      let c := setTimer None (timersSet c) c in
      let c := send (Transcript transcript true) c in
      if shouldProcess ev && negb (processingAudio c) then
        setTimer (Some {| timerId := timersSet c; transcript := transcript;
                          delay := if speechFinal ev then 80 else 400 |})
                 (S (timersSet c)) c
      else c
    else c
  else c.

Definition schedules (ev : Recognition) (c : Conn) : bool :=
  timersSet c <? timersSet (onResults ev c).

Inductive Event : Type :=
| DgOpen
| DgClose (code : nat)
| Results (ev : Recognition)
| TimerFires
| ReplySettles (task : nat) (smoothed : string)
| ReplyFails (task : nat) (message : string)
| GenerationSettles (task : nat) (g : Tts.Generation)
| GapElapses (task : nat)
| TtsEndFires
| ClientStopTts
| ClientGone.

Definition step (c : Conn) (e : Event) : Conn :=
  match e with
  | DgOpen => send (Status "Listening - Start speaking") (setOpen true c)
  | DgClose code =>
      let c := setTimer None (timersSet c) (setOpen false c) in
      if code =? 1000 then c
      else send (ErrorMsg ("Deepgram disconnected: " +++ NilEmpty.string_of_uint (Nat.to_uint code))) c
  | Results ev => onResults ev c
  | TimerFires =>
      match transcriptTimeout c with
      | Some t => timerCallback (transcript t) (setTimer None (timersSet c) c)
      | None => c
      end
  | ReplySettles i smoothed =>
      match nth i (tasks c) Done with
      | AwaitReply _ => afterReply (Some i) smoothed c
      | _ => c
      end
  | ReplyFails i message =>
      match nth i (tasks c) Done with
      | AwaitReply _ => catchBlock (Some i) message c
      | _ => c
      end
  | GenerationSettles i g =>
      match nth i (tasks c) Done with
      | AwaitSpeech (Tts.AwaitGenerate st) =>
          speech (Some i) (Tts.resumeGenerate st g (controllers c) (clientReady c)) c
      | _ => c
      end
  | GapElapses i =>
      match nth i (tasks c) Done with
      | AwaitSpeech (Tts.AwaitGap st) =>
          speech (Some i) (Tts.resumeGap st (controllers c) (clientReady c)) c
      | _ => c
      end
  | TtsEndFires =>
      match ttsEndArmed c with
      | S n => send TtsEnd (setTtsEndArmed n c)
      | O => c
      end
  | ClientStopTts => send StopAudio (cancelCurrentTTS c)
  | ClientGone => setReady false c
  end.

Definition steps (c : Conn) (es : list Event) : Conn := fold_left step es c.

End Legacy.

(** ** backend/server-enhanced.js: the session store and the upload route

    [sessionData] is a JavaScript [Map] from session ids to session objects,
    kept in insertion order.  The upload date of a document is not read
    anywhere and is left out of [Enhanced.Document]. *)

Module Sessions.
Import Js.

Definition Store : Type := list (string * Enhanced.Session).

Fixpoint get (sid : string) (m : Store) : option Enhanced.Session :=
  match m with
  | [] => None
  | (k, v) :: rest => if String.eqb k sid then Some v else get sid rest
  end.

Fixpoint set (sid : string) (v : Enhanced.Session) (m : Store) : Store :=
  match m with
  | [] => [(sid, v)]
  | (k, v0) :: rest => if String.eqb k sid then (k, v) :: rest else (k, v0) :: set sid v rest
  end.

(** [wss.on("connection")]: [if (!sessionData.has(sessionId)) sessionData.set(...)] *)
Definition connect (sid : string) (m : Store) : Store :=
  match get sid m with
  | Some _ => m
  | None => set sid {| Enhanced.document := None; Enhanced.voiceId := "en-US-terrell" |} m
  end.

(** The message [voice_change]: the reply to the client, if any, and the store. *)
Definition voiceChange (sid voice : string) (m : Store) : option string * Store :=
  match get sid m with
  | Some session =>
      (Some voice,
       set sid {| Enhanced.document := Enhanced.document session; Enhanced.voiceId := voice |} m)
  | None => (None, m)
  end.

(** [session.document = { filename, content, uploadedAt }] *)
Definition withDocument (doc : Enhanced.Document) (session : Enhanced.Session) : Enhanced.Session :=
  {| Enhanced.document := Some doc; Enhanced.voiceId := Enhanced.voiceId session |}.

(** [for (const [sid, session] of sessionData.entries())] of the upload route,
    [stored] being the counter. *)
Fixpoint storeLoop (sessionId : string) (doc : Enhanced.Document) (stored : nat) (m : Store)
  : Store * nat :=
  match m with
  | [] => ([], stored)
  | (sid, session) :: rest =>
      if String.eqb sid sessionId || (stored =? 0) then
        let '(rest, stored) := storeLoop sessionId doc (S stored) rest in
        ((sid, withDocument doc session) :: rest, stored)
      else
        let '(rest, stored) := storeLoop sessionId doc stored rest in
        ((sid, session) :: rest, stored)
  end.

Definition storeDocument (sessionId : string) (doc : Enhanced.Document) (m : Store) : Store :=
  let '(m, stored) := storeLoop sessionId doc 0 m in
  if stored =? 0
  then set sessionId {| Enhanced.document := Some doc; Enhanced.voiceId := "en-US-terrell" |} m
  else m.

(** *** [app.post("/upload")]

    [ext] is [path.extname(req.file.originalname).toLowerCase()]; [parsed] is
    how the extraction of the text settles (reading the file included), and
    [unlinked] the error of [fs.unlinkSync], if it throws. *)

Record File : Type := { originalname : string; size : nat; ext : string }.

Inductive Parsed : Type :=
| Text (text : string)
| ParseError (message : string).

Inductive Response : Type :=
| Ok (filename : string) (size extracted : nat)
| BadRequest (error : string)
| ServerError (error : string).

Definition upload (file : option File) (header : option string) (parsed : Parsed)
           (unlinked : option string) (m : Store) : Response * Store :=
  match file with
  | None => (BadRequest "No file uploaded", m)
  | Some f =>
      let extracted :=
        if String.eqb (ext f) ".pdf" || String.eqb (ext f) ".docx" || String.eqb (ext f) ".doc"
        then parsed else Text EmptyString in
      match extracted with
      | ParseError message => (ServerError message, m)
      | Text documentText =>
          let sessionId := match header with
                           | Some h => if truthy h then h else "default"
                           | None => "default"
                           end in
          let m := storeDocument sessionId
                     {| Enhanced.filename := originalname f; Enhanced.content := documentText |} m in
          match unlinked with
          | Some message => (ServerError message, m)
          | None => (Ok (originalname f) (size f) (String.length documentText), m)
          end
      end
  end.

(** The connection of session [sid] as an event finds it: [session] is the
    entry of [sessionData] at that moment.  The entry is made when the
    client connects and goes only after it has left; the handlers of the
    socket and of the upload route write to the object that a turn reads. *)
Definition attach (sid : string) (m : Store) (c : Enhanced.Conn) : Enhanced.Conn :=
  {| Enhanced.isOpen := Enhanced.isOpen c;
     Enhanced.processingAudio := Enhanced.processingAudio c;
     Enhanced.transcriptTimeout := Enhanced.transcriptTimeout c;
     Enhanced.timersSet := Enhanced.timersSet c;
     Enhanced.currentTTSController := Enhanced.currentTTSController c;
     Enhanced.controllers := Enhanced.controllers c;
     Enhanced.memory := Enhanced.memory c;
     Enhanced.session := get sid m;
     Enhanced.responseCache := Enhanced.responseCache c;
     Enhanced.clientReady := Enhanced.clientReady c;
     Enhanced.sink := Enhanced.sink c;
     Enhanced.ttsEndArmed := Enhanced.ttsEndArmed c;
     Enhanced.tasks := Enhanced.tasks c |}.

(** An event of that connection, the store being [m]. *)
Definition serve (sid : string) (m : Store) (e : Enhanced.Event) (c : Enhanced.Conn)
  : Enhanced.Conn :=
  Enhanced.step (attach sid m c) e.

End Sessions.

(** ** backend/ttsStreamSentences.js: the voice table and the request of [generateChunkTTS]

    A voice id is a string here, as the client sends it. *)

Module Voices.
Import Js.

Record VoiceConfig : Type :=
  { id : string; style : string; speed : Z; pitch : Z; variation : Z }.

Definition VOICE_CONFIGS : list (string * VoiceConfig) :=
  [ ("en-US-terrell", {| id := "en-US-terrell"; style := "Conversational";
                         speed := 0; pitch := 0; variation := 1 |});
    ("en-US-michael", {| id := "en-US-michael"; style := "Conversational";
                         speed := 0; pitch := 0; variation := 1 |});
    ("en-US-wayne", {| id := "en-US-wayne"; style := "Conversational";
                       speed := 0; pitch := 0; variation := 1 |});
    ("en-US-ryan", {| id := "en-US-ryan"; style := "Conversational";
                      speed := 0; pitch := 0; variation := 1 |});
    ("en-US-natalie", {| id := "en-US-natalie"; style := "Conversational";
                         speed := 0; pitch := 0; variation := 1 |});
    ("en-US-lily", {| id := "en-US-lily"; style := "Conversational";
                      speed := 0; pitch := 0; variation := 1 |});
    ("en-US-claire", {| id := "en-US-claire"; style := "Conversational";
                        speed := 0; pitch := 0; variation := 1 |});
    ("en-GB-william", {| id := "en-GB-william"; style := "Conversational";
                         speed := 0; pitch := 0; variation := 1 |});
    ("en-GB-emma", {| id := "en-GB-emma"; style := "Conversational";
                      speed := 0; pitch := 0; variation := 1 |}) ]%Z.

(** The property names that an object literal inherits from
    [Object.prototype]. *)
Definition inherited : list string :=
  [ "constructor"; "__defineGetter__"; "__defineSetter__"; "hasOwnProperty";
    "__lookupGetter__"; "__lookupSetter__"; "isPrototypeOf"; "propertyIsEnumerable";
    "toString"; "valueOf"; "__proto__"; "toLocaleString" ].

(** What [VOICE_CONFIGS[voiceId]] evaluates to: a configuration, for one of
    the keys of the table; a function or an object that is truthy and has
    none of the properties of a configuration, for an inherited name;
    [undefined]. *)
Inductive Value : Type :=
| Config (config : VoiceConfig)
| Foreign
| Undefined.

Fixpoint own (voiceId : string) (table : list (string * VoiceConfig)) : option VoiceConfig :=
  match table with
  | [] => None
  | (key, config) :: rest => if String.eqb key voiceId then Some config else own voiceId rest
  end.

Definition lookup (voiceId : string) : Value :=
  match own voiceId VOICE_CONFIGS with
  | Some config => Config config
  | None => if existsb (String.eqb voiceId) inherited then Foreign else Undefined
  end.

(** [VOICE_CONFIGS[voiceId] || VOICE_CONFIGS['en-US-terrell']] *)
Definition configOf (voiceId : string) : Value :=
  match lookup voiceId with
  | Undefined => lookup "en-US-terrell"
  | value => value
  end.

(** [config.f] *)
Definition property {A : Type} (f : VoiceConfig -> A) (config : Value) : option A :=
  match config with
  | Config c => Some (f c)
  | _ => None
  end.

(** The body of the request to Murf; [None] is a property that is
    [undefined]. *)
Module Request.

Record Payload : Type :=
  { voice_id : option string;
    style : option string;
    text : string;
    model : string;
    format : string;
    sampleRate : Z;
    channelType : string;
    speed : option Z;
    pitch : option Z;
    variation : option Z;
    sentencePause : Z;
    commaPause : Z }.

End Request.

(** [generateChunkTTS(text, voiceId, signal)]: its [payload]. *)
Definition payload (text voiceId : string) : Request.Payload :=
  let config := configOf voiceId in
  {| Request.voice_id := property id config;
     Request.style := property style config;
     Request.text := text;
     Request.model := "FALCON";
     Request.format := "MP3";
     Request.sampleRate := 24000;
     Request.channelType := "MONO";
     Request.speed := property speed config;
     Request.pitch := property pitch config;
     Request.variation := property variation config;
     Request.sentencePause := 400;
     Request.commaPause := 200 |}.

End Voices.

(** ** backend/voiceStyle.js and the smoothing of the reply in backend/server.js

    [conversationalize] draws two random numbers: [warm] is the outcome of
    [Math.random() < 0.30] and [pick] the value of
    [Math.floor(Math.random() * warmeners.length)]. *)

Module VoiceStyle.
Import Js.

Definition fallback : string := "I didn't catch that, please say it again.".

Definition warmeners : list string :=
  [ "Let me explain this simply. "; "Here's a clear explanation. "; "Let's break it down. " ].

(** [text.replace(/\.{2,}/g, ".")] *)
Fixpoint squeezeDots (s : string) : string :=
  match s with
  | String a (String b _ as r) =>
      if Ascii.eqb a "."%char && Ascii.eqb b "."%char
      then squeezeDots r
      else String a (squeezeDots r)
  | _ => s
  end.

(** The two replacements of quotation marks: of the characters they name,
    only the guillemets lie in the modelled range. *)
Definition normalizeQuotes : string -> string :=
  smap (fun c => if (code c =? 171) || (code c =? 187) then Tts.dquote else c).

(** [text.endsWith(".")] *)
Fixpoint endsWithPeriod (s : string) : bool :=
  match s with
  | EmptyString => false
  | String a EmptyString => Ascii.eqb a "."%char
  | String _ r => endsWithPeriod r
  end.

(** [text.replace(/\. /g, ".  ")] *)
Fixpoint pace (s : string) : string :=
  match s with
  | String a (String b r' as r) =>
      if Ascii.eqb a "."%char && Ascii.eqb b " "%char
      then String "."%char (String " "%char (String " "%char (pace r')))
      else String a (pace r)
  | _ => s
  end.

Definition conversationalize (text : string) (warm : bool) (pick : nat) : string :=
  if negb (truthy text) || negb (truthy (trim text)) then fallback else
  let text := trim text in
  let text := Tts.collapseSpaces text in
  let text := squeezeDots text in
  let text := normalizeQuotes text in
  let text := if endsWithPeriod text then text else text +++ "." in
  let text := if warm then nth pick warmeners "undefined" +++ text else text in
  pace text.

(** [.*?\.] from the head of [s]: what follows the first period, if no line
    terminator comes before it. *)
Fixpoint upToPeriod (s : string) : option string :=
  match s with
  | EmptyString => None
  | String c r =>
      if Ascii.eqb c "."%char then Some r
      else if isLineTerminator c then None
      else upToPeriod r
  end.

(** [s.replace(/<intro>.*?\./, ...)] with the empty string: the leftmost match goes. *)
Fixpoint dropSentence (intro : string) (s : string) : string :=
  match (if startsWith intro s then upToPeriod (drop (String.length intro) s) else None) with
  | Some rest => rest
  | None =>
      match s with
      | String c r => String c (dropSentence intro r)
      | EmptyString => EmptyString
      end
  end.

(** The reply as server.js sends it: smoothed, then stripped of an opening
    [Sure, ...] or [Alright, ...] sentence.  The first replacement of the
    chain looks for U+2026, which lies outside the modelled range. *)
Definition smooth (aiReply : string) (warm : bool) (pick : nat) : string :=
  let aiReply := conversationalize aiReply warm pick in
  trim (dropSentence "Alright," (dropSentence "Sure," aiReply)).

(** Two periods in a row. *)
Fixpoint ellipsis (s : string) : bool :=
  match s with
  | String a (String b _ as r) => (Ascii.eqb a "."%char && Ascii.eqb b "."%char) || ellipsis r
  | _ => false
  end.

Definition isPeriod (c : ascii) : bool := Ascii.eqb c "."%char.

Definition headIsPeriod (s : string) : bool :=
  match s with
  | String c _ => isPeriod c
  | EmptyString => false
  end.

End VoiceStyle.

(** * Vocabulary of the properties *)

Module Vocabulary.
Import Js Router.

(** The reply of a call that returns from its first segment, which only a
    cache hit does. *)
Definition hitReply (r : Route) : option string :=
  match r with
  | Return reply _ => Some reply
  | _ => None
  end.

(** *** Which backend a request goes to *)

Inductive Model : Type := Flash | Pro | Fallback.

Definition modelOf (req : Request) : Model :=
  match req with
  | GeminiFlash _ => Flash
  | GeminiPro _ => Pro
  | Groq _ _ => Fallback
  end.

(** The primary backend by intent and complexity: the fast tier for a
    greeting or a simple query, the deep tier for a query about the attached
    document and for everything else. *)
Definition primaryModel (text : string) (documentContent : option string) : Model :=
  let intent := classifyIntent text in
  if isDocumentQuery intent text documentContent then Pro
  else match type intent, complexity intent with
       | greeting, _ => Flash
       | _, simple => Flash
       | _, _ => Pro
       end.

Definition abortError : JsError := {| name := "AbortError"; message := "The operation was aborted" |}.
Definition quotaError : JsError := {| name := "Error"; message := "429 Too Many Requests" |}.

(** The answer a backend gives in the course of [script], and when: the
    primary's, or the fallback's after a failure of the primary that is not a
    cancellation. *)
Definition answer (script : list (Outcome * Z)) : option (string * Z) :=
  match script with
  | (Resolved a, t) :: _ => Some (a, t)
  | (Rejected e, _) :: (Resolved a, t) :: _ => if isAbort e then None else Some (a, t)
  | _ => None
  end.

(** The route once its pending call has settled with [o], the clock showing
    [now] and the cache being [cache]. *)
Definition settle (r : Route) (o : Outcome) (now : Z) (cache : Cache) : Route :=
  match r with
  | Await _ _ k => k o now cache
  | _ => r
  end.

(** [pending] is a backend call of [routeRequest text mem doc now cache] in
    flight: the call to the primary backend, or the call to the fallback
    after the primary failed with an error that is not a cancellation. *)
Definition inFlight (text mem : string) (doc : option string) (now : Z) (cache : Cache)
           (pending : Route) : Prop :=
  hitReply (routeRequest text mem doc now cache) = None
  /\ (pending = routeRequest text mem doc now cache
      \/ exists e t c,
           isAbort e = false
           /\ pending = settle (routeRequest text mem doc now cache) (Rejected e) t c).

(** Distinct questions, each answered by the primary backend. *)
Definition question (i : nat) : string := "question " +++ NilEmpty.string_of_uint (Nat.to_uint i).

Fixpoint askAll (n : nat) (cache : Cache) : Cache :=
  match n with
  | O => cache
  | S k => cacheAfter (route (question k) EmptyString None 0 (askAll k cache) [(Resolved "Fine.", 0%Z)])
  end.

(** *** Chunks *)

(** Does the pattern match somewhere in [s]? *)
Definition hasBoundary (matchAt : option ascii -> string -> option nat) (s : string) : bool :=
  1 <? List.length (splitRegex matchAt s).

(** A fragment with no sentence boundary and no secondary boundary inside. *)
Definition atomic (chunk : string) : bool :=
  negb (hasBoundary Tts.sentenceAt chunk) && negb (hasBoundary Tts.secondaryAt chunk).

(** Code units the sanitizer keeps or turns into a space: everything but the
    control characters that are not whitespace. *)
Definition plain (c : ascii) : bool := negb (isControl c) || isSpace c.

Definition plainText (s : string) : bool := sforall plain s.

Definition notControl (c : ascii) : bool := negb (isControl c).

Definition headNotSpace (s : string) : bool :=
  match s with
  | String d _ => negb (isSpace d)
  | EmptyString => true
  end.

(** *** What the cleaning of an answer leaves *)

(** Whitespace only. *)
Definition blank (s : string) : bool := sforall isSpace s.

(** No whitespace at the end. *)
Fixpoint endNotSpace (s : string) : bool :=
  match s with
  | EmptyString => true
  | String c EmptyString => negb (isSpace c)
  | String _ r => endNotSpace r
  end.

(** No whitespace at either end. *)
Definition solidEnds (s : string) : bool := headNotSpace s && endNotSpace s.

(** [name] is a self-identification: the pattern [/^Gyaanchand:/i] matches it
    from its first to its last code unit. *)
Definition selfName (name : string) : bool := String.eqb (smap foldChar name) "gyaanchand:".

(** [s] opens with a self-identification. *)
Definition selfNamed (s : string) : bool := startsWithBy foldChar "gyaanchand:" s.

(** Every whitespace code unit is a space and the next code unit, if there is
    one, is not whitespace. *)
Fixpoint loose (s : string) : bool :=
  match s with
  | EmptyString => true
  | String c r => (negb (isSpace c) || (Ascii.eqb c " "%char && headNotSpace r)) && loose r
  end.

(** The same, and the string does not end with a space. *)
Fixpoint tidy (s : string) : bool :=
  match s with
  | EmptyString => true
  | String c r =>
      (negb (isSpace c) || (Ascii.eqb c " "%char && headNotSpace r && truthy r)) && tidy r
  end.

(** The chunker's state as the chunks it stands for. *)
Definition flat (st : list string * string) : list string := Tts.pushIf (fst st) (snd st).

(** A single fragment of the text: a part that the split of one of its
    sentences at commas, semicolons and conjunctions produced. *)
Definition fragmentOf (text chunk : string) : Prop :=
  exists s, In s (Tts.sentencesOf (Tts.sanitizeForTTS text))
            /\ In chunk (splitRegex Tts.secondaryAt s).

(** What the chunker's checks establish of a chunk. *)
Definition bounded (text chunk : string) : Prop :=
  String.length (trim chunk) <= Tts.limit \/ fragmentOf text chunk.

(** Two lists of chunks that read the same once joined, whatever follows. *)
Definition sameJoin (xs ys : list string) : Prop :=
  forall rest, join " " (xs ++ rest) = join " " (ys ++ rest).

(** One sentence of more than 150 code units, with a comma. *)
Definition commaReply : string :=
  "The report that you asked me to read covers the quarterly figures for every region in which the company operates, which the board wants to review before the end of the week.".

(** A short sentence, then a long one whose first clause ends with a space
    before its comma. *)
Definition longReply : string :=
  "Okay. The report that you asked me to read covers the quarterly figures for every region in which the company operates as well as all of its new risks , which the board wants to review before the end of the week.".

(** *** Turns *)

(** The notifications a cancelled turn is not to send. *)
Definition isReplyOrSpeaking (m : Ws.ClientMsg) : bool :=
  match m with
  | Ws.Reply _ => true
  | Ws.Status status => String.eqb status "Speaking..."
  | _ => false
  end.

(** The messages sent after the sink was [before]. *)
Definition sentSince (before after : list Ws.ClientMsg) : list Ws.ClientMsg :=
  skipn (List.length before) after.

(** The two ways a turn is cancelled on the enhanced server: a barge-in (an
    interim transcript of more than two code units) and [client_stop_tts]. *)
Definition cancels (e : Enhanced.Event) : bool :=
  match e with
  | Enhanced.Results ev => negb (Dg.isFinal ev) && (2 <? String.length (Dg.text ev))
  | Enhanced.ClientStopTts => true
  | _ => false
  end.

(** The turn-completion rule in the words of the specification, for a length
    threshold between 8 and 10. *)
Definition candidateBySpec (threshold : nat) (ev : Dg.Recognition) : bool :=
  Dg.speechFinal ev
  || (threshold <? String.length (Dg.text ev))
  || includes "?" (Dg.text ev) || includes "." (Dg.text ev)
  || Dg.qlt (9 # 10) (Dg.confidence ev).

(** The controller the connection holds is one that was allocated. *)
Definition heldInRange (c : Enhanced.Conn) : Prop :=
  match Enhanced.currentTTSController c with
  | Some id => id < List.length (Enhanced.controllers c)
  | None => True
  end.

(** Recognition events used as examples. *)
Definition askTime : Dg.Recognition :=
  {| Dg.text := "What time is it now?"; Dg.isFinal := true; Dg.speechFinal := true;
     Dg.confidence := 19 # 20 |}.

Definition askMail : Dg.Recognition :=
  {| Dg.text := "Send an email to bob@example.com saying hello"; Dg.isFinal := true;
     Dg.speechFinal := true; Dg.confidence := 19 # 20 |}.

Definition interim : Dg.Recognition :=
  {| Dg.text := "wait "; Dg.isFinal := false; Dg.speechFinal := false; Dg.confidence := 4 # 5 |}.

Definition loneMark : Dg.Recognition :=
  {| Dg.text := "?"; Dg.isFinal := true; Dg.speechFinal := false; Dg.confidence := 19 # 20 |}.

Definition shortSentence : Dg.Recognition :=
  {| Dg.text := "Okay."; Dg.isFinal := true; Dg.speechFinal := false; Dg.confidence := 4 # 5 |}.

(** Connections whose recognizer is open and that have no turn in flight. *)
Definition enhancedIdle : Enhanced.Conn :=
  Enhanced.step (Enhanced.initial None []) Enhanced.DgOpen.

Definition legacyIdle : Legacy.Conn := Legacy.step Legacy.initial Legacy.DgOpen.

(** Connections with a turn that waits for its backend. *)
Definition enhancedThinking : Enhanced.Conn :=
  Enhanced.steps enhancedIdle [Enhanced.Results askTime; Enhanced.TimerFires 0].

Definition legacyThinking : Legacy.Conn :=
  Legacy.steps legacyIdle [Legacy.Results askTime; Legacy.TimerFires].

End Vocabulary.

(** ** The cache *)

Module Notions.
Import Js Router.

(** The text as [getCacheKey] hashes it: lower case, trimmed, everything but
    word characters and whitespace removed. *)
Definition normalized (text : string) : string :=
  sfilter (fun c => isWord c || isSpace c) (trim (toLowerCase text)).

(** A digit of [digest('hex')]. *)
Definition isHexDigit (c : ascii) : bool :=
  isDigit c || ((97 <=? code c) && (code c <=? 102)).

End Notions.

(** ** The streamer, run to its end *)

Module Playback.
Import Js Tts.

(** What the sanitizer lets through: no control character, no backtick, no
    guillemet. *)
Definition speakable (c : ascii) : bool :=
  negb (isControl c) && negb (Ascii.eqb c "`"%char)
  && negb (code c =? 171) && negb (code c =? 187).

(** [murfStreamSentences] run from one suspension to the next ones: [gs]
    lists, in order, how the calls of [generateChunkTTS] settle; every gap
    timer elapses; the abort flags and the state of the socket stay as they
    are. *)
Definition throughGap (cs : Abort.Controllers) (ready : bool) (step : Step)
  : list Ws.ClientMsg * Step :=
  match step with
  | Suspend (AwaitGap st) => resumeGap st cs ready
  | _ => ([], step)
  end.

Fixpoint drive (gs : list Generation) (cs : Abort.Controllers) (ready : bool) (step : Step)
  : list Ws.ClientMsg * Step :=
  match step, gs with
  | Suspend (AwaitGenerate st), g :: rest =>
      let '(ms, step) := resumeGenerate st g cs ready in
      let '(ms', step) := throughGap cs ready step in
      let '(ms'', step) := drive rest cs ready step in
      (ms ++ ms' ++ ms'', step)
  | _, _ => ([], step)
  end.

Definition stream (text : string) (signal : option nat) (voiceId : string)
           (cs : Abort.Controllers) (ready : bool) (gs : list Generation)
  : list Ws.ClientMsg * Step :=
  let '(ms, step) := murfStreamSentences text signal voiceId cs ready in
  let '(ms', step) := drive gs cs ready step in
  (ms ++ ms', step).

(** The audio frames of the generations that succeeded. *)
Fixpoint frames (gs : list Generation) : list Ws.ClientMsg :=
  match gs with
  | [] => []
  | Generated audio :: rest => Ws.Audio audio :: frames rest
  | _ :: rest => frames rest
  end.

Definition settled (g : Generation) : bool :=
  match g with Canceled => false | _ => true end.

End Playback.

(** ** Turns and the memory *)

Module Turns.
Import Js Enhanced.

(** [memory.userName = nameMatch[1]] *)
Definition named (n : string) (m : Memory) : Memory :=
  {| userName := Some n; lastUserMessages := lastUserMessages m;
     lastBotMessages := lastBotMessages m |}.

(** The two lists after [updateMemory(userMsg, botMsg)]. *)
Definition remembered (userMsg botMsg : string) (m : Memory) : Memory :=
  {| userName := userName m;
     lastUserMessages := if truthy userMsg then pushCapped userMsg (lastUserMessages m)
                         else lastUserMessages m;
     lastBotMessages := if truthy botMsg then pushCapped botMsg (lastBotMessages m)
                        else lastBotMessages m |}.

(** What one event can do to the memory. *)
Inductive MemoryStep (m : Memory) : Memory -> Prop :=
| Kept : MemoryStep m m
| Named (transcript n : string) :
    nameMatch transcript = Some n -> 2 < String.length n -> MemoryStep m (named n m)
| Remembered (userMsg botMsg : string) : MemoryStep m (remembered userMsg botMsg m).

(** A turn that is suspended at an [await]. *)
Definition suspended (t : Task) : bool :=
  match t with
  | Done => false
  | _ => true
  end.

(** The memory without the name. *)
Definition unnamed (m : Memory) : Memory :=
  {| userName := None; lastUserMessages := lastUserMessages m;
     lastBotMessages := lastBotMessages m |}.

(** The events of a synthesis that nothing interrupts, for the turn in
    [slot] and a reply of [count] chunks of which [index] are done: each
    generation settles, and the gap timer elapses after every frame but the
    last. *)
Fixpoint speechEvents (slot count index : nat) (gs : list Tts.Generation) : list Event :=
  match gs with
  | [] => []
  | g :: rest =>
      GenerationSettles slot g
      :: (match g with
          | Tts.Generated _ => if index <? count - 1 then [GapElapses slot] else []
          | _ => []
          end) ++ speechEvents slot count (S index) rest
  end.

(** The turn in slot [i] waits for a generation of a synthesis that is
    neither aborted nor cut off. *)
Definition speaking (c : Enhanced.Conn) (i : nat) (tail : Enhanced.Tail) (st : Tts.Stream) : Prop :=
  nth i (Enhanced.tasks c) Enhanced.Done = Enhanced.AwaitSpeech tail (Tts.AwaitGenerate st)
  /\ Enhanced.clientReady c = true
  /\ Abort.signalAborted (Enhanced.controllers c) (Tts.signal st) = false.

(** Is some turn of the connection suspended? *)
Definition turnInFlight (c : Conn) : bool := existsb suspended (tasks c).

(** The stream of a synthesis that is suspended. *)
Definition streamOf (p : Tts.Pending) : Tts.Stream :=
  match p with
  | Tts.AwaitGenerate st => st
  | Tts.AwaitGap st => st
  end.

(** The synthesis that a turn waits for, if it waits for one. *)
Definition speechOf (t : Task) : option Tts.Stream :=
  match t with
  | AwaitSpeech _ p => Some (streamOf p)
  | _ => None
  end.

(** Every synthesis that [c'] has and [c0] has not runs with the voice of
    the session of [c0]. *)
Definition Tuned (c0 c' : Conn) : Prop :=
  forall i st,
    speechOf (nth i (tasks c0) Done) = None ->
    speechOf (nth i (tasks c') Done) = Some st ->
    Tts.voiceId st = voiceOf c0.

End Turns.

(** ** The words a pattern matches *)

Module Language.
Import Js Re.

Inductive Matches : re -> string -> Prop :=
| MEps : Matches Eps EmptyString
| MChr (p : ascii -> bool) (c : ascii) : p c = true -> Matches (Chr p) (String c EmptyString)
| MCat (a b : re) (u v : string) : Matches a u -> Matches b v -> Matches (Cat a b) (u +++ v)
| MAltL (a b : re) (u : string) : Matches a u -> Matches (Alt a b) u
| MAltR (a b : re) (u : string) : Matches b u -> Matches (Alt a b) u
| MStarNil (a : re) : Matches (Star a) EmptyString
| MStarApp (a : re) (u v : string) :
    Matches a u -> Matches (Star a) v -> Matches (Star a) (u +++ v).

(** [s] holds a match of [r]. *)
Definition Holds (r : re) (s : string) : Prop :=
  exists pre w post, s = pre +++ w +++ post /\ Matches r w.

(** The openings that [classifyIntent] takes for a greeting. *)
Definition greetings : list string :=
  [ "hi"; "hey"; "hello"; "what's up"; "how are you"; "good morning"; "good evening";
    "who are you"; "what is your name"; "my name is" ].

End Language.

(** * Properties *)

(** ** Router: cache fingerprint, capacity, fallback order, idempotence *)

Section RouterFacts.
Import Js Router Vocabulary.

(** C9. The fingerprint is a function of the query text and the document
    flag alone: two memory snippets give the same key, hence the same
    decision between hit and miss and, on a hit, the same reply. *)
Theorem cache_key_ignores_memory :
  forall (text m1 m2 : string) (documentContent : option string) (now : Z) (cache : Cache),
    getCacheKey text m1 (hasContent documentContent)
    = getCacheKey text m2 (hasContent documentContent)
    /\ hitReply (routeRequest text m1 documentContent now cache)
       = hitReply (routeRequest text m2 documentContent now cache).
Proof.
  intros text m1 m2 doc now cache. split; [reflexivity|].
  unfold routeRequest.
  change (getCacheKey text m2 (hasContent doc)) with (getCacheKey text m1 (hasContent doc)).
  destruct (getCachedResponse now (getCacheKey text m1 (hasContent doc)) cache) as [[hit|] cache'].
  - destruct (truthy hit); [reflexivity|].
    repeat match goal with
           | |- context [if ?b then _ else _] => destruct b
           end; reflexivity.
  - repeat match goal with
           | |- context [if ?b then _ else _] => destruct b
           end; reflexivity.
Qed.

(** The first segment of a call that misses the cache. *)
Lemma routeRequest_miss text mem doc now cache :
  hitReply (routeRequest text mem doc now cache) = None ->
  exists call p sp cache',
    routeRequest text mem doc now cache
    = tryPrimary call p sp (getCacheKey text mem (hasContent doc)) cache'
    /\ ((primaryModel text doc = Flash /\ call = callGeminiFlash)
        \/ (primaryModel text doc = Pro /\ call = callGeminiPro)).
Proof.
  unfold routeRequest, primaryModel.
  destruct (getCachedResponse now (getCacheKey text mem (hasContent doc)) cache) as [cached cache'].
  destruct cached as [hit|]; [destruct (truthy hit)|]; cbv zeta; intros Hmiss;
    try (exfalso; revert Hmiss; cbn [hitReply]; discriminate); clear Hmiss.
  all: destruct (isDocumentQuery (classifyIntent text) text doc);
    [do 4 eexists; split; [reflexivity|auto]|].
  all: destruct (classifyIntent text) as [[] []];
    cbn [type complexity isType isComplexity orb]; do 4 eexists; (split; [reflexivity|auto]).
Qed.

Lemma run_log r : forall script log,
  calls (run r script log) = log ++ calls (run r script [])
  /\ result (run r script log) = result (run r script [])
  /\ cacheAfter (run r script log) = cacheAfter (run r script []).
Proof.
  induction r as [reply cache|e cache|cache req k IH]; intros script log; cbn.
  - rewrite app_nil_r. auto.
  - rewrite app_nil_r. auto.
  - destruct script as [|[o now] rest]; cbn; [auto|].
    destruct (IH o now cache rest (log ++ [req])) as (-> & -> & ->).
    destruct (IH o now cache rest [req]) as (-> & -> & ->).
    rewrite <- app_assoc. auto.
Qed.

Lemma run_tryPrimary call p sp key cache model :
  (model = Flash /\ call = callGeminiFlash) \/ (model = Pro /\ call = callGeminiPro) ->
  exists req,
    modelOf req = model
    /\ run (tryPrimary call p sp key cache) [] []
       = {| result := None; cacheAfter := cache; calls := [req] |}
    /\ (forall a t rest,
          run (tryPrimary call p sp key cache) ((Resolved a, t) :: rest) []
          = {| result := Some (Returned (cleanResponse (trim a)));
               cacheAfter := setCachedResponse t key (cleanResponse (trim a)) cache;
               calls := [req] |})
    /\ (forall e t rest, isAbort e = true ->
          run (tryPrimary call p sp key cache) ((Rejected e, t) :: rest) []
          = {| result := Some (Thrown e); cacheAfter := cache; calls := [req] |})
    /\ (forall e t, isAbort e = false ->
          run (tryPrimary call p sp key cache) [(Rejected e, t)] []
          = {| result := None; cacheAfter := cache; calls := [req; Groq sp p] |})
    /\ (forall e t a t' rest, isAbort e = false ->
          run (tryPrimary call p sp key cache) ((Rejected e, t) :: (Resolved a, t') :: rest) []
          = {| result := Some (Returned (cleanResponse (trim a)));
               cacheAfter := setCachedResponse t' key (cleanResponse (trim a)) cache;
               calls := [req; Groq sp p] |})
    /\ (forall e t e' t' rest, isAbort e = false ->
          run (tryPrimary call p sp key cache) ((Rejected e, t) :: (Rejected e', t') :: rest) []
          = {| result := Some (if isAbort e' then Thrown e' else Returned apology);
               cacheAfter := cache; calls := [req; Groq sp p] |}).
Proof.
  intros [[-> ->] | [-> ->]];
    [exists (GeminiFlash (sp +++ nl +++ nl +++ p)) | exists (GeminiPro (sp +++ nl +++ nl +++ p))];
    unfold tryPrimary, callGeminiFlash, callGeminiPro, callGroq, trimmed, finish, outerCatch;
    (repeat split; intros; cbn [run app modelOf]; try reflexivity; try discriminate);
    try match goal with
        | Hnot : isAbort _ = _ |- _ => rewrite Hnot
        end;
    try reflexivity.
  all: cbn [run app];
    match goal with
    | |- context [if isAbort ?x then _ else _] => destruct (isAbort x)
    end; reflexivity.
Qed.

(** *** The cleaning of an answer *)

Lemma trimEnd_cons c r :
  trimEnd (String c r)
  = match trimEnd r with
    | EmptyString => if isSpace c then EmptyString else String c EmptyString
    | r' => String c r'
    end.
Proof. reflexivity. Qed.

Lemma trimStart_head s : headNotSpace s = true -> trimStart s = s.
Proof.
  destruct s as [|c r]; [reflexivity|]. cbn. now intros ->%negb_true_iff.
Qed.

Lemma trimEnd_end s : endNotSpace s = true -> trimEnd s = s.
Proof.
  induction s as [|c r IH]; [reflexivity|]. destruct r as [|d r].
  - cbn. now intros ->%negb_true_iff.
  - intros Hend. change (endNotSpace (String d r) = true) in Hend.
    rewrite trimEnd_cons, (IH Hend). reflexivity.
Qed.

Lemma trim_ends s : solidEnds s = true -> trim s = s.
Proof.
  unfold solidEnds. intros H. apply andb_true_iff in H. destruct H as [Hhead Hend].
  unfold trim. now rewrite (trimStart_head s Hhead), trimEnd_end.
Qed.

Lemma trimEnd_blank s : blank s = true -> trimEnd s = EmptyString.
Proof.
  unfold blank. induction s as [|c r IH]; [reflexivity|]. cbn [sforall]. intros H.
  apply andb_true_iff in H. destruct H as [Hc Hr]. now rewrite trimEnd_cons, (IH Hr), Hc.
Qed.

Lemma trimEnd_append_blank x y : trimEnd y = EmptyString -> trimEnd (x +++ y) = trimEnd x.
Proof.
  intros Hy. induction x as [|c x IH]; cbn [append]; [exact Hy|].
  now rewrite !trimEnd_cons, IH.
Qed.

Lemma trim_lead lead s : blank lead = true -> trim (lead +++ s) = trim s.
Proof.
  unfold blank, trim. induction lead as [|c lead IH]; [reflexivity|]. cbn [sforall append].
  intros H. apply andb_true_iff in H. destruct H as [Hc Hlead].
  cbn [trimStart]. rewrite Hc. now apply IH.
Qed.

Lemma trim_trail s trail : blank trail = true -> trim (s +++ trail) = trim s.
Proof.
  intros Htrail. unfold trim. induction s as [|c s IH]; cbn [append].
  - pose proof (trim_lead trail EmptyString Htrail) as H. unfold trim in H.
    replace (trail +++ EmptyString) with trail in H
      by (clear; induction trail; cbn; congruence).
    exact H.
  - cbn [trimStart]. destruct (isSpace c); [exact IH|].
    apply (trimEnd_append_blank (String c s)), trimEnd_blank, Htrail.
Qed.

Lemma isSpace_foldChar c : isSpace (foldChar c) = isSpace c.
Proof. destruct c as [[] [] [] [] [] [] [] []]; reflexivity. Qed.

Lemma selfName_head name : forall p rest,
  smap foldChar name = p ->
  startsWithBy foldChar p (name +++ rest) = true
  /\ drop (String.length p) (name +++ rest) = rest.
Proof.
  induction name as [|c name IH]; intros p rest <-; cbn; [auto|].
  rewrite Ascii.eqb_refl. cbn [andb]. apply IH. reflexivity.
Qed.

Lemma selfName_solid name : forall p,
  smap foldChar name = p ->
  sforall (fun c => negb (isSpace c)) p = true ->
  sforall (fun c => negb (isSpace c)) name = true.
Proof.
  induction name as [|c name IH]; intros p <-; cbn; [auto|].
  rewrite isSpace_foldChar. intros H. apply andb_true_iff in H. destruct H as [-> H].
  cbn [andb]. now apply (IH _ eq_refl).
Qed.

Lemma drop_gap gap b :
  blank gap = true -> headNotSpace b = true ->
  drop (span isSpace (gap +++ b)) (gap +++ b) = b.
Proof.
  unfold blank. intros Hgap Hb. induction gap as [|c gap IH]; cbn [append].
  - destruct b as [|d b]; [reflexivity|]. cbn in Hb. apply negb_true_iff in Hb.
    cbn. now rewrite Hb.
  - cbn [sforall] in Hgap. apply andb_true_iff in Hgap. destruct Hgap as [Hc Hgap].
    cbn [span]. rewrite Hc. cbn [drop]. now apply IH.
Qed.

Lemma trimEnd_append x y : truthy (trimEnd y) = true -> trimEnd (x +++ y) = x +++ trimEnd y.
Proof.
  intros Hy. induction x as [|c x IH]; cbn [append]; [reflexivity|].
  rewrite trimEnd_cons, IH. destruct (x +++ trimEnd y) eqn:Hxy; [|reflexivity].
  destruct x; cbn in Hxy; [rewrite Hxy in Hy; discriminate|discriminate].
Qed.

(** An answer that is not self-named comes out without the whitespace around
    it. *)
Lemma cleaned_plain lead b trail :
  blank lead = true -> blank trail = true -> solidEnds b = true -> selfNamed b = false ->
  cleanResponse (trim (lead +++ b +++ trail)) = b.
Proof.
  intros Hlead Htrail Hends Hself.
  rewrite (trim_lead lead _ Hlead), (trim_trail b trail Htrail), (trim_ends b Hends).
  unfold cleanResponse, Tts.stripSelfPrefix. unfold selfNamed in Hself. rewrite Hself.
  now apply trim_ends.
Qed.

(** A self-named answer comes out without its name either. *)
Lemma cleaned_named lead name gap b trail :
  blank lead = true -> selfName name = true -> blank gap = true -> blank trail = true ->
  solidEnds b = true ->
  cleanResponse (trim (lead +++ (name +++ gap +++ b) +++ trail)) = b.
Proof.
  intros Hlead Hname Hgap Htrail Hends. apply String.eqb_eq in Hname.
  rewrite (trim_lead lead _ Hlead), (trim_trail _ trail Htrail).
  pose proof Hends as Hb. unfold solidEnds in Hb.
  apply andb_true_iff in Hb. destruct Hb as [Hhead Hend].
  pose proof (selfName_solid name _ Hname eq_refl) as Hsolid.
  assert (Hstart : trimStart (name +++ gap +++ b) = name +++ gap +++ b).
  { apply trimStart_head. destruct name as [|c name]; [discriminate|].
    cbn in Hsolid |- *. apply andb_true_iff in Hsolid. tauto. }
  assert (Hnamed : forall rest, Tts.stripSelfPrefix (name +++ rest)
                                = drop (span isSpace rest) rest).
  { intros rest. unfold Tts.stripSelfPrefix.
    destruct (selfName_head name _ rest Hname) as [Hs Hd].
    rewrite Hs. change 11 with (String.length "gyaanchand:"). now rewrite Hd. }
  unfold cleanResponse. unfold trim at 2. rewrite Hstart.
  destruct b as [|d b].
  - assert (Hrest : trimEnd (gap +++ EmptyString) = EmptyString).
    { apply trimEnd_blank. clear - Hgap. unfold blank in *.
      induction gap as [|c gap IH]; [reflexivity|].
      cbn in *. apply andb_true_iff in Hgap. destruct Hgap as [-> Hgap]. now apply IH. }
    rewrite (trimEnd_append_blank name _ Hrest).
    assert (Hend' : endNotSpace name = true).
    { clear - Hsolid. induction name as [|c [|d name] IH]; [reflexivity| |].
      - cbn in *. now rewrite andb_true_r in Hsolid.
      - cbn [sforall] in Hsolid. apply andb_true_iff in Hsolid. now apply IH. }
    rewrite (trimEnd_end name Hend').
    pose proof (Hnamed EmptyString) as H.
    replace (name +++ EmptyString) with name in H by (clear; induction name; cbn; congruence).
    rewrite H. reflexivity.
  - assert (Hkeep : trimEnd (gap +++ String d b) = gap +++ String d b).
    { rewrite trimEnd_append; rewrite (trimEnd_end _ Hend); reflexivity. }
    rewrite (trimEnd_append name); rewrite Hkeep; [|destruct gap; reflexivity].
    rewrite Hnamed, (drop_gap gap (String d b) Hgap Hhead).
    now apply trim_ends.
Qed.

(** C3. On a cache miss the backend chosen by intent and complexity is called
    first, whatever follows.  If it fails with an error other than a
    cancellation, the fallback backend is called, once, whether it then
    succeeds or fails, and when it answers the call returns that answer:
    as it is when it has no whitespace at either end and does not open with
    a self-identification, and otherwise without the whitespace around it
    and without the self-identification and the whitespace after it.  If the
    primary fails with a cancellation, the call throws that error and the
    fallback is not called. *)
Theorem primary_then_single_fallback :
  forall (text mem : string) (doc : option string) (now : Z) (cache : Cache),
    hitReply (routeRequest text mem doc now cache) = None ->
    (forall script, exists req rest,
        calls (route text mem doc now cache script) = req :: rest
        /\ modelOf req = primaryModel text doc)
    /\ (forall e t1 o t2 rest, isAbort e = false ->
          map modelOf (calls (route text mem doc now cache ((Rejected e, t1) :: (o, t2) :: rest)))
          = [primaryModel text doc; Fallback])
    /\ (forall e t1 a t2 rest, isAbort e = false ->
          result (route text mem doc now cache ((Rejected e, t1) :: (Resolved a, t2) :: rest))
          = Some (Returned (cleanResponse (trim a))))
    /\ (forall e t1 lead b trail t2 rest,
          isAbort e = false ->
          blank lead = true -> blank trail = true -> solidEnds b = true -> selfNamed b = false ->
          result (route text mem doc now cache
                    ((Rejected e, t1) :: (Resolved (lead +++ b +++ trail), t2) :: rest))
          = Some (Returned b))
    /\ (forall e t1 lead name gap b trail t2 rest,
          isAbort e = false ->
          blank lead = true -> selfName name = true -> blank gap = true -> blank trail = true ->
          solidEnds b = true ->
          result (route text mem doc now cache
                    ((Rejected e, t1)
                       :: (Resolved (lead +++ (name +++ gap +++ b) +++ trail), t2) :: rest))
          = Some (Returned b))
    /\ (forall e t1 rest, isAbort e = true ->
          let r := route text mem doc now cache ((Rejected e, t1) :: rest) in
          result r = Some (Thrown e)
          /\ map modelOf (calls r) = [primaryModel text doc]).
Proof.
  intros text mem doc now cache Hmiss.
  destruct (routeRequest_miss _ _ _ _ _ Hmiss) as (call & p & sp & cache' & Hroute & Hcall).
  unfold route. rewrite Hroute. clear Hroute Hmiss.
  destruct (run_tryPrimary call p sp (getCacheKey text mem (hasContent doc)) cache'
              (primaryModel text doc) Hcall)
    as (req & Hmodel & Hnone & Hok & Habort & Hwait & Hback & Hfail).
  split; [|split; [|split; [|split; [|split]]]].
  - intros [|[[a|e] t] rest].
    + rewrite Hnone. cbn. eauto.
    + rewrite Hok. cbn. eauto.
    + destruct (isAbort e) eqn:He.
      * rewrite (Habort e t rest He). cbn. eauto.
      * destruct rest as [|[[a|e'] t'] rest].
        -- rewrite (Hwait e t He). cbn. eauto.
        -- rewrite (Hback e t a t' rest He). cbn. eauto.
        -- rewrite (Hfail e t e' t' rest He). cbn. eauto.
  - intros e t1 [a|e'] t2 rest He.
    + rewrite (Hback e t1 a t2 rest He). cbn. now rewrite Hmodel.
    + rewrite (Hfail e t1 e' t2 rest He). cbn. now rewrite Hmodel.
  - intros e t1 a t2 rest He. now rewrite (Hback e t1 a t2 rest He).
  - intros e t1 lead b trail t2 rest He Hlead Htrail Hends Hself.
    rewrite (Hback e t1 _ t2 rest He). cbn [result].
    now rewrite (cleaned_plain lead b trail Hlead Htrail Hends Hself).
  - intros e t1 lead name gap b trail t2 rest He Hlead Hname Hgap Htrail Hends.
    rewrite (Hback e t1 _ t2 rest He). cbn [result].
    now rewrite (cleaned_named lead name gap b trail Hlead Hname Hgap Htrail Hends).
  - intros e t1 rest He. cbv zeta. rewrite (Habort e t1 rest He). cbn.
    now rewrite Hmodel.
Qed.

Lemma primary_then_single_fallback_witness :
  hitReply (routeRequest "Hi there" EmptyString None 0 []) = None
  /\ result (route "Hi there" EmptyString None 0 []
               [(Rejected quotaError, 1%Z); (Resolved "Hello!", 2%Z)])
     = Some (Returned "Hello!")
  /\ result (route "Hi there" EmptyString None 0 []
               [(Rejected quotaError, 1%Z); (Resolved " GYAANCHAND:  Hello! ", 2%Z)])
     = Some (Returned "Hello!").
Proof.
  assert (Hmiss : hitReply (routeRequest "Hi there" EmptyString None 0 []) = None)
    by (vm_compute; reflexivity).
  refine (conj Hmiss _).
  destruct (primary_then_single_fallback "Hi there" EmptyString None 0%Z [] Hmiss)
    as (_ & _ & _ & Hplain & Hnamed & _).
  split.
  - exact (Hplain quotaError 1%Z EmptyString "Hello!" EmptyString 2%Z []
             eq_refl eq_refl eq_refl eq_refl eq_refl).
  - exact (Hnamed quotaError 1%Z " " "GYAANCHAND:" "  " "Hello!" " " 2%Z []
             eq_refl eq_refl eq_refl eq_refl eq_refl eq_refl).
Defined.

(** *** The cache while it is full *)

Lemma mapDelete_absent key cache : mapGet key cache = None -> mapDelete key cache = cache.
Proof.
  induction cache as [|[k v] rest IH]; cbn; [reflexivity|].
  destruct (String.eqb k key); [discriminate|]. intros H. now rewrite IH.
Qed.

Lemma mapSet_absent key v cache : mapGet key cache = None -> mapSet key v cache = cache ++ [(key, v)].
Proof.
  induction cache as [|[k v0] rest IH]; cbn; [reflexivity|].
  destruct (String.eqb k key); [discriminate|]. intros H. now rewrite IH.
Qed.

(** A store under a key that is not in the cache adds an entry, full or not. *)
Lemma setCachedResponse_grows now key reply cache :
  mapGet key cache = None ->
  mapSize (setCachedResponse now key reply cache) = S (mapSize cache).
Proof.
  intros Habsent. unfold setCachedResponse.
  destruct (MAX_CACHE_SIZE <=? mapSize cache).
  - rewrite (mapDelete_absent _ _ Habsent), (mapSet_absent _ _ _ Habsent).
    unfold mapSize. rewrite length_app. cbn. lia.
  - rewrite (mapSet_absent _ _ _ Habsent). unfold mapSize. rewrite length_app. cbn. lia.
Qed.

(** C8.  What the code does at the capacity: a hundred questions fill the
    cache, and the store of the answer to one more leaves a hundred and one
    entries, because the entry deleted at capacity is the (absent) one of the
    key being stored, not the first key. *)
Theorem cache_grows_past_capacity :
  mapSize (askAll 100 []) = MAX_CACHE_SIZE
  /\ mapSize (cacheAfter (route (question 100) EmptyString None 0 (askAll 100 []) [(Resolved "Fine.", 0%Z)]))
     = S MAX_CACHE_SIZE.
Proof. vm_compute. split; reflexivity. Qed.

(** *** Two identical calls *)

Lemma mapGet_mapSet key v cache : mapGet key (mapSet key v cache) = Some v.
Proof.
  induction cache as [|[k v0] rest IH]; cbn.
  - now rewrite String.eqb_refl.
  - destruct (String.eqb k key) eqn:Hk; cbn; rewrite Hk; [reflexivity|exact IH].
Qed.

Lemma mapGet_setCachedResponse now key reply cache :
  mapGet key (setCachedResponse now key reply cache)
  = Some {| response := reply; timestamp := now |}.
Proof. unfold setCachedResponse. apply mapGet_mapSet. Qed.

(** A fresh, non-empty entry under the key of the query answers the call. *)
Lemma route_hit text mem doc now cache entry script :
  mapGet (getCacheKey text mem (hasContent doc)) cache = Some entry ->
  (now - timestamp entry < CACHE_TTL)%Z ->
  truthy (response entry) = true ->
  route text mem doc now cache script
  = {| result := Some (Returned (response entry)); cacheAfter := cache; calls := [] |}.
Proof.
  intros Hget Hfresh Hreply. unfold route, routeRequest, getCachedResponse.
  rewrite Hget. apply Z.ltb_lt in Hfresh. rewrite Hfresh, Hreply. reflexivity.
Qed.

(** A backend's answer, once cleaned, is what the call returns, and it is
    stored under the key of the query with the time at which the answer came. *)
Lemma route_stores_answer text mem doc now cache script a t :
  hitReply (routeRequest text mem doc now cache) = None ->
  answer script = Some (a, t) ->
  let first := route text mem doc now cache script in
  result first = Some (Returned (cleanResponse (trim a)))
  /\ mapGet (getCacheKey text mem (hasContent doc)) (cacheAfter first)
     = Some {| response := cleanResponse (trim a); timestamp := t |}.
Proof.
  intros Hmiss Hanswer.
  destruct (routeRequest_miss _ _ _ _ _ Hmiss) as (call & p & sp & cache' & Hroute & Hcall).
  unfold route. rewrite Hroute.
  destruct (run_tryPrimary call p sp (getCacheKey text mem (hasContent doc)) cache'
              (primaryModel text doc) Hcall)
    as (req & _ & _ & Hok & _ & _ & Hback & _).
  destruct script as [|[[a1|e1] t1] rest]; [discriminate| |].
  - injection Hanswer as <- <-. rewrite Hok. cbn [result cacheAfter].
    split; [reflexivity|apply mapGet_setCachedResponse].
  - destruct rest as [|[[a2|e2] t2] rest]; try discriminate. cbn in Hanswer.
    destruct (isAbort e1) eqn:He; [discriminate|]. injection Hanswer as <- <-.
    rewrite (Hback e1 t1 a2 t2 rest He). cbn [result cacheAfter].
    split; [reflexivity|apply mapGet_setCachedResponse].
Qed.

(** C7, as amended.  The first call misses the cache and a backend answers
    it, with a reply that is not empty once cleaned; the second call, with
    the same text, memory snippet and document, starts less than the TTL
    after that answer was stored.  Then both calls return the same reply and
    the second one calls no backend. *)
Theorem repeated_call_is_served_from_cache :
  forall (text mem : string) (doc : option string) (now1 : Z) (cache : Cache)
         (script1 : list (Outcome * Z)) (a : string) (t : Z)
         (now2 : Z) (script2 : list (Outcome * Z)),
    hitReply (routeRequest text mem doc now1 cache) = None ->
    answer script1 = Some (a, t) ->
    truthy (cleanResponse (trim a)) = true ->
    (now2 - t < CACHE_TTL)%Z ->
    let first := route text mem doc now1 cache script1 in
    let second := route text mem doc now2 (cacheAfter first) script2 in
    result first = Some (Returned (cleanResponse (trim a)))
    /\ result second = result first
    /\ calls second = [].
Proof.
  intros text mem doc now1 cache script1 a t now2 script2 Hmiss Hanswer Hreply Hfresh first second.
  destruct (route_stores_answer text mem doc now1 cache script1 a t Hmiss Hanswer) as [Hres Hget].
  fold first in Hres, Hget. subst second.
  rewrite (route_hit _ _ _ _ _ _ script2 Hget Hfresh Hreply). cbn. now rewrite Hres.
Qed.

Lemma repeated_call_is_served_from_cache_witness :
  hitReply (routeRequest "Hi there" EmptyString None 0 []) = None
  /\ answer [(Resolved "Gyaanchand: Hello!", 5%Z)] = Some ("Gyaanchand: Hello!", 5%Z)
  /\ truthy (cleanResponse (trim "Gyaanchand: Hello!")) = true
  /\ (10 - 5 < CACHE_TTL)%Z
  /\ calls (route "Hi there" EmptyString None 10
              (cacheAfter (route "Hi there" EmptyString None 0 []
                             [(Resolved "Gyaanchand: Hello!", 5%Z)]))
              [(Resolved "Good day!", 12%Z)])
     = [].
Proof.
  assert (Hmiss : hitReply (routeRequest "Hi there" EmptyString None 0 []) = None)
    by (vm_compute; reflexivity).
  assert (Hfresh : (10 - 5 < CACHE_TTL)%Z) by (vm_compute; reflexivity).
  refine (conj Hmiss (conj eq_refl (conj eq_refl (conj Hfresh _)))).
  exact (proj2 (proj2 (repeated_call_is_served_from_cache "Hi there" EmptyString None 0%Z []
                         [(Resolved "Gyaanchand: Hello!", 5%Z)] "Gyaanchand: Hello!" 5%Z
                         10%Z [(Resolved "Good day!", 12%Z)] Hmiss eq_refl eq_refl Hfresh))).
Defined.

(** C7, as stated, fails.  The first answer is empty once cleaned: the empty
    reply is stored, the lookup of the second call finds it, and
    [routeRequest] takes the empty string for a miss and asks the backend
    again. *)
Lemma empty_reply_is_requested_again :
  let first := route "Hi there" EmptyString None 0 [] [(Resolved "Gyaanchand:", 5%Z)] in
  let second := route "Hi there" EmptyString None 10 (cacheAfter first) [(Resolved "Hello!", 12%Z)] in
  result first = Some (Returned EmptyString)
  /\ fst (getCachedResponse 10 (getCacheKey "Hi there" EmptyString false) (cacheAfter first)) = Some EmptyString
  /\ result second = Some (Returned "Hello!")
  /\ map modelOf (calls second) = [Flash].
Proof. vm_compute. repeat split; reflexivity. Qed.

(** *** Calls in flight *)

(** A call in flight is pending, and a cancellation error of the backend goes
    through [routeRequest] as it is. *)
Lemma inFlight_abort text mem doc now cache pending :
  inFlight text mem doc now cache pending ->
  exists cache0 req k,
    pending = Await cache0 req k
    /\ forall e t c, isAbort e = true -> k (Rejected e) t c = Throw e c.
Proof.
  intros [Hmiss Hpending].
  destruct (routeRequest_miss _ _ _ _ _ Hmiss) as (call & p & sp & cache' & Hroute & Hcall).
  rewrite Hroute in Hpending. clear Hroute Hmiss.
  assert (Hprimary :
    exists req k, tryPrimary call p sp (getCacheKey text mem (hasContent doc)) cache'
                  = Await cache' req k
      /\ (forall e t c, isAbort e = true -> k (Rejected e) t c = Throw e c)
      /\ (forall e t c, isAbort e = false ->
            exists k', k (Rejected e) t c = Await c (Groq sp p) k'
              /\ forall e' t' c', isAbort e' = true -> k' (Rejected e') t' c' = Throw e' c')).
  { destruct Hcall as [[_ ->] | [_ ->]];
      unfold tryPrimary, callGeminiFlash, callGeminiPro, callGroq, trimmed, outerCatch;
      do 2 eexists; (split; [reflexivity|]);
      (split; [intros e t c He; cbv beta iota; now rewrite !He|]);
      intros e t c He; eexists; (split; [cbv beta iota; rewrite He; reflexivity|]);
      intros e' t' c' He'; cbv beta iota; now rewrite He'. }
  destruct Hprimary as (req & k & Hnode & Habort & Hfallback).
  destruct Hpending as [-> | (e & t & c & He & ->)].
  - eauto.
  - rewrite Hnode. cbn [settle]. destruct (Hfallback e t c He) as (k' & -> & Habort').
    eauto.
Qed.

End RouterFacts.

(** ** Chunker and synthesis streamer *)

Section TtsFacts.
Import Js Tts Vocabulary.

(** C10. A reply that is empty or only whitespace, or whose sanitized text
    yields no chunk, makes the streamer return from its first segment: it
    sends nothing to the client, neither audio nor an error, starts no
    generation and does not set the timer of the end-of-speech marker. *)
Theorem blank_reply_sends_nothing :
  forall (text : string) (signal : option nat) (voiceId : string)
         (cs : Abort.Controllers) (ready : bool),
    trim text = EmptyString \/ splitIntoChunks (sanitizeForTTS text) = [] ->
    murfStreamSentences text signal voiceId cs ready = ([], Finished false).
Proof.
  intros text signal voiceId cs ready Hblank. unfold murfStreamSentences.
  destruct Hblank as [Htrim | Hchunks].
  - rewrite Htrim. cbn [truthy negb]. rewrite orb_true_r. reflexivity.
  - rewrite Hchunks. cbn [List.length Nat.eqb].
    destruct (negb (truthy text) || negb (truthy (trim text))); reflexivity.
Qed.

Lemma blank_reply_sends_nothing_witness :
  (trim "   " = EmptyString \/ splitIntoChunks (sanitizeForTTS "   ") = [])
  /\ murfStreamSentences "   " (Some 0) defaultVoice [false] true = ([], Finished false).
Proof.
  split; [left; reflexivity|].
  apply (blank_reply_sends_nothing "   " (Some 0) defaultVoice [false] true).
  left; reflexivity.
Defined.

(** *** Strings *)

Lemma append_nil_r s : s +++ EmptyString = s.
Proof. induction s as [|c r IH]; cbn; [reflexivity|now rewrite IH]. Qed.

Lemma append_assoc a b c : (a +++ b) +++ c = a +++ b +++ c.
Proof. induction a as [|x r IH]; cbn; [reflexivity|now rewrite IH]. Qed.

Lemma sforall_smap p f s :
  (forall c, p c = true -> p (f c) = true) -> sforall p s = true -> sforall p (smap f s) = true.
Proof.
  intros Hf. induction s as [|c r IH]; cbn; [reflexivity|].
  rewrite !andb_true_iff. intros [Hc Hr]. auto.
Qed.

Lemma sforall_sfilter p keep s : sforall p s = true -> sforall p (sfilter keep s) = true.
Proof.
  induction s as [|c r IH]; cbn; [reflexivity|].
  rewrite andb_true_iff. intros [Hc Hr].
  destruct (keep c); cbn; [rewrite Hc|]; auto.
Qed.

Lemma sforall_drop p n s : sforall p s = true -> sforall p (drop n s) = true.
Proof.
  revert s. induction n as [|n IH]; intros [|c r]; cbn; auto.
  rewrite andb_true_iff. intros [_ Hr]. auto.
Qed.

Lemma sforall_trimStart p s : sforall p s = true -> sforall p (trimStart s) = true.
Proof.
  induction s as [|c r IH]; cbn; [reflexivity|].
  destruct (isSpace c); cbn; [|auto].
  rewrite andb_true_iff. intros [_ Hr]. auto.
Qed.

Lemma sforall_trimEnd p s : sforall p s = true -> sforall p (trimEnd s) = true.
Proof.
  induction s as [|c r IH]; cbn; [reflexivity|].
  rewrite andb_true_iff. intros [Hc Hr]. specialize (IH Hr).
  destruct (trimEnd r) as [|d r'].
  - destruct (isSpace c); cbn; [reflexivity|now rewrite Hc].
  - cbn in *. now rewrite Hc, IH.
Qed.

Lemma sfilter_all keep s : sforall keep s = true -> sfilter keep s = s.
Proof.
  induction s as [|c r IH]; cbn; [reflexivity|].
  rewrite andb_true_iff. intros [Hc Hr]. rewrite Hc, IH; auto.
Qed.

Lemma sforall_removeBold p : forall n s,
  String.length s <= n -> sforall p s = true -> sforall p (removeBold s) = true.
Proof.
  induction n as [|n IH]; intros [|a [|b r]] Hlen; cbn in *; try lia; auto.
  rewrite !andb_true_iff. intros (Ha & Hb & Hr).
  destruct (Ascii.eqb a "*" && Ascii.eqb b "*").
  - apply IH; [lia|exact Hr].
  - cbn [sforall]. rewrite Ha. apply (IH (String b r)); [cbn; lia|].
    cbn. now rewrite Hb, Hr.
Qed.

(** *** The sanitized text is tidy *)

Lemma collapse_loose s : forall inRun,
  loose (collapseGo inRun s) = true
  /\ (inRun = true -> headNotSpace (collapseGo inRun s) = true).
Proof.
  induction s as [|c r IH]; intros inRun; cbn; [auto|].
  destruct (isSpace c) eqn:Hc.
  - destruct (IH true) as [Hloose Hhead]. destruct inRun.
    + auto.
    + split; [|discriminate]. cbn. rewrite Hloose, Hhead by reflexivity. reflexivity.
  - destruct (IH false) as [Hloose _]. cbn. rewrite Hc, Hloose. auto.
Qed.

Lemma loose_tail c r : loose (String c r) = true -> loose r = true.
Proof. cbn. rewrite andb_true_iff. tauto. Qed.

Lemma loose_trimStart s : loose s = true -> loose (trimStart s) = true.
Proof.
  induction s as [|c r IH]; [reflexivity|]. intros Hloose. cbn [trimStart].
  destruct (isSpace c); [apply IH; exact (loose_tail _ _ Hloose)|exact Hloose].
Qed.

Lemma trimEnd_head c r d r' : trimEnd (String c r) = String d r' -> d = c.
Proof.
  cbn. destruct (trimEnd r); [destruct (isSpace c)|]; congruence.
Qed.

Lemma tidy_trimEnd s : loose s = true -> tidy (trimEnd s) = true.
Proof.
  induction s as [|c r IH]; [reflexivity|]. intros Hloose.
  pose proof (loose_tail _ _ Hloose) as Hr. specialize (IH Hr).
  cbn [trimEnd]. destruct (trimEnd r) as [|d r'] eqn:Hend.
  - destruct (isSpace c) eqn:Hc; cbn; [reflexivity|now rewrite Hc].
  - change (tidy (String c (String d r')))
      with ((negb (isSpace c)
             || (Ascii.eqb c " " && headNotSpace (String d r') && truthy (String d r')))
            && tidy (String d r')).
    rewrite IH, andb_true_r. cbn [headNotSpace truthy]. rewrite andb_true_r.
    change (loose (String c r))
      with ((negb (isSpace c) || (Ascii.eqb c " " && headNotSpace r)) && loose r) in Hloose.
    rewrite Hr, andb_true_r in Hloose.
    destruct (isSpace c); [|reflexivity]. cbn [negb orb] in *.
    destruct r as [|d0 r0]; [discriminate Hend|].
    apply trimEnd_head in Hend. subst d0. exact Hloose.
Qed.

Lemma tidy_trim_collapse s : tidy (trim (collapseSpaces s)) = true.
Proof.
  unfold trim, collapseSpaces. apply tidy_trimEnd, loose_trimStart.
  apply (collapse_loose s false).
Qed.

Lemma collapse_notControl s : forall inRun,
  plainText s = true -> sforall notControl (collapseGo inRun s) = true.
Proof.
  unfold plainText. induction s as [|c r IH]; intros inRun; cbn; [reflexivity|].
  rewrite andb_true_iff. intros [Hc Hr].
  destruct (isSpace c) eqn:Hspace.
  - destruct inRun; [apply IH; exact Hr|].
    cbn [sforall]. rewrite (IH true Hr). reflexivity.
  - cbn [sforall]. rewrite (IH false Hr). unfold plain in Hc. rewrite Hspace, orb_false_r in Hc.
    unfold notControl. now rewrite Hc.
Qed.

Lemma plain_quote c :
  plain c = true ->
  plain (if Ascii.eqb c dquote || (code c =? 171) || (code c =? 187) then dquote else c) = true.
Proof. intros Hc. destruct (Ascii.eqb c dquote || (code c =? 171) || (code c =? 187)); auto. Qed.

Lemma plain_apostrophe c :
  plain c = true -> plain (if Ascii.eqb c "'" then "'"%char else c) = true.
Proof. intros Hc. destruct (Ascii.eqb c "'"); auto. Qed.

(** On a text without stray control characters the sanitizer ends with the
    trimmed, collapsed text. *)
Lemma sanitize_tidy text :
  plainText text = true -> tidy (sanitizeForTTS text) = true.
Proof.
  intros Hplain. unfold sanitizeForTTS.
  destruct (negb (truthy text)); [reflexivity|]. cbv zeta.
  unfold removeControl. fold notControl.
  rewrite sfilter_all; [apply tidy_trim_collapse|].
  unfold trim. apply sforall_trimEnd, sforall_trimStart, collapse_notControl.
  unfold plainText, stripSelfPrefix.
  assert (Hpre : sforall plain
                   (removeBackticks (removeBold (normalizeApostrophes (normalizeQuotes text))))
                 = true).
  { apply sforall_sfilter, (sforall_removeBold plain _ _ (le_n _)).
    apply sforall_smap; [exact plain_apostrophe|].
    apply sforall_smap; [exact plain_quote|exact Hplain]. }
  destruct (startsWithBy foldChar "gyaanchand:" _); [apply sforall_drop, sforall_drop|]; exact Hpre.
Qed.

(** *** Splitting a tidy text into sentences loses nothing *)

Lemma join_cons sep x l : l <> [] -> join sep (x :: l) = x +++ sep +++ join sep l.
Proof. destruct l; [congruence|reflexivity]. Qed.

Lemma splitGo_cons matchAt s : forall skip prev,
  exists p rest, splitGo matchAt skip prev s = p :: rest.
Proof.
  induction s as [|c r IH]; intros skip prev; cbn; [eauto|].
  destruct skip as [|k]; [|apply IH].
  destruct (IH 0 (Some c)) as (p & rest & ->).
  destruct (matchAt prev (String c r)) as [[|k]|]; cbn; eauto.
Qed.

Lemma span_headNotSpace r : headNotSpace r = true -> span isSpace r = 0.
Proof. destruct r as [|d r]; cbn; [reflexivity|]. now destruct (isSpace d). Qed.

Lemma sentenceAt_cons prev c r :
  sentenceAt prev (String c r)
  = if match prev with Some p => isSentenceEnd p | None => false end && isSpace c
    then Some (S (span isSpace r)) else None.
Proof.
  unfold sentenceAt. destruct prev as [p|]; [|reflexivity].
  cbn [span]. destruct (isSentenceEnd p), (isSpace c); reflexivity.
Qed.

Lemma sentences_rejoin s : forall prev,
  tidy s = true ->
  join " " (splitGo sentenceAt 0 prev s) = s
  /\ forallb truthy (tl (splitGo sentenceAt 0 prev s)) = true
  /\ (headNotSpace s = true -> truthy s = true ->
      truthy (hd EmptyString (splitGo sentenceAt 0 prev s)) = true).
Proof.
  induction s as [|c r IH]; intros prev Htidy; [cbn; auto|].
  change (tidy (String c r))
    with ((negb (isSpace c) || (Ascii.eqb c " " && headNotSpace r && truthy r)) && tidy r)
    in Htidy.
  apply andb_true_iff in Htidy as [Hc Hr].
  destruct (IH (Some c) Hr) as (Hjoin & Htail & Hhead).
  destruct (splitGo_cons sentenceAt r 0 (Some c)) as (p & rest & Hsplit).
  cbn [splitGo]. rewrite sentenceAt_cons.
  destruct (match prev with Some p0 => isSentenceEnd p0 | None => false end && isSpace c) eqn:Hmatch.
  - apply andb_true_iff in Hmatch as [_ Hspace]. rewrite Hspace in Hc. cbn [negb orb] in Hc.
    apply andb_true_iff in Hc as [Hc Hfull]. apply andb_true_iff in Hc as [Hc Hnext].
    apply Ascii.eqb_eq in Hc. subst c.
    rewrite (span_headNotSpace r Hnext).
    specialize (Hhead Hnext Hfull).
    rewrite Hsplit in *. cbn [hd tl] in *.
    repeat split.
    + rewrite join_cons by discriminate. rewrite Hjoin. reflexivity.
    + cbn [forallb]. rewrite Hhead, Htail. reflexivity.
    + cbn. rewrite Hspace. discriminate.
  - rewrite Hsplit in *. cbn [consHead hd tl] in *. repeat split.
    + destruct rest; cbn in *; now rewrite Hjoin.
    + exact Htail.
Qed.

Lemma filter_all {A} (p : A -> bool) l : forallb p l = true -> filter p l = l.
Proof.
  induction l as [|x l IH]; cbn; [reflexivity|].
  rewrite andb_true_iff. intros [Hx Hl]. rewrite Hx, IH; auto.
Qed.

Lemma sentencesOf_rejoin text :
  tidy text = true -> truthy text = true ->
  join " " (sentencesOf text) = text /\ forallb truthy (sentencesOf text) = true.
Proof.
  intros Htidy Hfull. unfold sentencesOf, splitRegex.
  destruct text as [|c r]; [discriminate|].
  destruct (sentences_rejoin (String c r) None Htidy) as (Hjoin & Htail & _).
  assert (Hall : forallb truthy (splitGo sentenceAt 0 None (String c r)) = true).
  { revert Htail. cbn [splitGo]. rewrite sentenceAt_cons. cbn [andb].
    destruct (splitGo_cons sentenceAt r 0 (Some c)) as (p & rest & ->). cbn. auto. }
  rewrite (filter_all _ _ Hall). auto.
Qed.

(** *** Accumulating sentences into chunks loses nothing *)

Lemma sameJoin_refl xs : sameJoin xs xs.
Proof. intros rest. reflexivity. Qed.

Lemma sameJoin_trans xs ys zs : sameJoin xs ys -> sameJoin ys zs -> sameJoin xs zs.
Proof. intros H1 H2 rest. now rewrite H1. Qed.

Lemma sameJoin_app xs ys zs : sameJoin xs ys -> sameJoin (xs ++ zs) (ys ++ zs).
Proof. intros H rest. rewrite <- !app_assoc. apply H. Qed.

Lemma sameJoin_merge xs a b : sameJoin (xs ++ [a +++ " " +++ b]) (xs ++ [a; b]).
Proof.
  intros rest. rewrite <- !app_assoc.
  induction xs as [|x xs IH].
  - cbn [app]. destruct rest as [|z rest]; [reflexivity|].
    rewrite !join_cons by discriminate. now rewrite !append_assoc.
  - change (join " " (x :: (xs ++ [a +++ " " +++ b] ++ rest))
            = join " " (x :: (xs ++ [a; b] ++ rest))).
    rewrite !join_cons; [now rewrite IH| |];
      intros Hnil; apply app_eq_nil in Hnil as [_ Hnil]; discriminate.
Qed.

Lemma sentenceStep_flat st s :
  truthy s = true -> (String.length s <=? limit) = true ->
  sameJoin (flat (sentenceStep st s)) (flat st ++ [s]).
Proof.
  intros Hs Hlen. destruct st as [chunks current]. unfold sentenceStep, flat.
  destruct current as [|c r].
  - cbn [truthy]. rewrite Hlen. cbn [fst snd pushIf truthy]. unfold pushIf. rewrite Hs.
    apply sameJoin_refl.
  - cbn [truthy]. destruct (String.length (String c r +++ " " +++ s) <=? limit).
    + cbn [fst snd]. unfold pushIf. cbn [truthy append].
      rewrite <- app_assoc. apply (sameJoin_merge chunks (String c r) s).
    + rewrite Hlen. cbn [fst snd]. unfold pushIf. cbn [truthy]. rewrite Hs.
      apply sameJoin_refl.
Qed.

Lemma chunks_of_short_sentences ss : forall st,
  forallb truthy ss = true ->
  forallb (fun s => String.length s <=? limit) ss = true ->
  sameJoin (flat (fold_left sentenceStep ss st)) (flat st ++ ss).
Proof.
  induction ss as [|s ss IH]; intros st Hfull Hshort.
  - cbn [fold_left]. rewrite app_nil_r. apply sameJoin_refl.
  - cbn [forallb] in Hfull, Hshort.
    apply andb_true_iff in Hfull as [Hs Hfull]. apply andb_true_iff in Hshort as [Hlen Hshort].
    cbn [fold_left].
    apply (sameJoin_trans _ (flat (sentenceStep st s) ++ ss)); [apply IH; assumption|].
    change (flat st ++ s :: ss) with (flat st ++ [s] ++ ss). rewrite app_assoc.
    apply sameJoin_app, sentenceStep_flat; assumption.
Qed.

(** C5, as amended.  When the text has no control characters other than
    whitespace and no sentence of the sanitized text is longer than 150 code
    units, the chunks joined with single spaces are the sanitized text. *)
Theorem chunks_rejoin_short_sentences :
  forall text : string,
    plainText text = true ->
    forallb (fun s => String.length s <=? limit) (sentencesOf (sanitizeForTTS text)) = true ->
    join " " (splitIntoChunks text) = sanitizeForTTS text.
Proof.
  intros text Hplain Hshort. unfold splitIntoChunks.
  destruct (truthy (sanitizeForTTS text)) eqn:Hfull; cbn [negb].
  - destruct (sentencesOf_rejoin _ (sanitize_tidy text Hplain) Hfull) as [Hjoin Hall].
    pose proof (chunks_of_short_sentences _ ([], EmptyString) Hall Hshort []) as Hsame.
    rewrite !app_nil_r in Hsame. change (flat ([], EmptyString)) with (@nil string) in Hsame.
    cbn [app] in Hsame. rewrite Hjoin in Hsame. unfold flat in Hsame.
    destruct (fold_left sentenceStep (sentencesOf (sanitizeForTTS text)) ([], EmptyString))
      as [chunks current].
    exact Hsame.
  - destruct (sanitizeForTTS text); [reflexivity|discriminate].
Qed.

Lemma chunks_rejoin_short_sentences_witness :
  plainText "Hello **there**.  How are you?" = true
  /\ forallb (fun s => String.length s <=? limit)
       (sentencesOf (sanitizeForTTS "Hello **there**.  How are you?")) = true
  /\ join " " (splitIntoChunks "Hello **there**.  How are you?")
     = sanitizeForTTS "Hello **there**.  How are you?".
Proof.
  refine (conj eq_refl (conj eq_refl _)).
  exact (chunks_rejoin_short_sentences "Hello **there**.  How are you?" eq_refl eq_refl).
Defined.

(** C5, as stated, fails.  [commaReply] is one sentence of 173 code units; it
    is split at its comma, the comma is not part of either chunk, and the
    chunks joined with a space are not the sanitized text. *)
Lemma long_sentence_loses_its_comma :
  String.length commaReply = 173
  /\ sanitizeForTTS commaReply = commaReply
  /\ splitIntoChunks commaReply
     = [ "The report that you asked me to read covers the quarterly figures for every region in which the company operates";
         "which the board wants to review before the end of the week." ]
  /\ join " " (splitIntoChunks commaReply) <> sanitizeForTTS commaReply.
Proof.
  split; [vm_compute; reflexivity|].
  split; [vm_compute; reflexivity|].
  split; [vm_compute; reflexivity|].
  vm_compute. discriminate.
Qed.

(** *** The length of a chunk *)

Lemma length_trimStart s : String.length (trimStart s) <= String.length s.
Proof.
  induction s as [|c r IH]; cbn [trimStart]; [lia|].
  destruct (isSpace c); cbn [String.length]; lia.
Qed.

Lemma length_trimEnd s : String.length (trimEnd s) <= String.length s.
Proof.
  induction s as [|c r IH]; cbn [trimEnd]; [lia|].
  destruct (trimEnd r); [destruct (isSpace c)|]; cbn [String.length] in *; lia.
Qed.

Lemma length_trim s : String.length (trim s) <= String.length s.
Proof.
  unfold trim. pose proof (length_trimEnd (trimStart s)). pose proof (length_trimStart s). lia.
Qed.

Lemma In_pushIf chunks current c :
  In c (pushIf chunks current) -> In c chunks \/ (c = current /\ truthy current = true).
Proof.
  unfold pushIf. destruct (truthy current); [|auto].
  rewrite in_app_iff. cbn. intuition.
Qed.

Lemma bounded_pushIf text chunks current :
  Forall (bounded text) chunks -> bounded text current ->
  Forall (bounded text) (pushIf chunks current).
Proof.
  intros Hchunks Hcurrent. unfold pushIf. destruct (truthy current); [|exact Hchunks].
  apply Forall_app. auto.
Qed.

Lemma partStep_bounded text st p :
  Forall (bounded text) (fst st) -> bounded text (snd st) -> fragmentOf text p ->
  Forall (bounded text) (fst (partStep st p)) /\ bounded text (snd (partStep st p)).
Proof.
  destruct st as [chunks current]. cbn [fst snd]. intros Hchunks Hcurrent Hp. unfold partStep.
  destruct (String.length (trim (current +++ " " +++ p)) <=? limit) eqn:Hfits; cbn [fst snd].
  - split; [exact Hchunks|]. destruct (truthy current); [|right; exact Hp].
    left. now apply Nat.leb_le.
  - split; [now apply bounded_pushIf|right; exact Hp].
Qed.

Lemma parts_bounded text parts : forall st,
  Forall (bounded text) (fst st) -> bounded text (snd st) -> Forall (fragmentOf text) parts ->
  Forall (bounded text) (fst (fold_left partStep parts st))
  /\ bounded text (snd (fold_left partStep parts st)).
Proof.
  induction parts as [|p parts IH]; intros st Hchunks Hcurrent Hparts; cbn [fold_left]; [auto|].
  inversion Hparts as [|? ? Hp Hrest]; subst.
  destruct (partStep_bounded text st p Hchunks Hcurrent Hp). now apply IH.
Qed.

Lemma sentenceStep_bounded text st s :
  Forall (bounded text) (fst st) -> bounded text (snd st) ->
  In s (sentencesOf (sanitizeForTTS text)) ->
  Forall (bounded text) (fst (sentenceStep st s)) /\ bounded text (snd (sentenceStep st s)).
Proof.
  destruct st as [chunks current]. cbn [fst snd]. intros Hchunks Hcurrent Hs. unfold sentenceStep.
  match goal with
  | |- context [if String.length ?candidate <=? limit then _ else _] =>
      destruct (String.length candidate <=? limit) eqn:Hfits
  end.
  - cbn [fst snd]. split; [exact Hchunks|]. left. apply Nat.leb_le in Hfits.
    match type of Hfits with String.length ?candidate <= _ => pose proof (length_trim candidate) end.
    lia.
  - destruct (String.length s <=? limit) eqn:Hshort.
    + cbn [fst snd]. split; [now apply bounded_pushIf|]. left. apply Nat.leb_le in Hshort.
      pose proof (length_trim s). lia.
    + apply parts_bounded; cbn [fst snd]; [now apply bounded_pushIf|exact Hcurrent|].
      apply Forall_forall. intros p Hp. exists s. auto.
Qed.

Lemma sentences_bounded text ss : forall st,
  Forall (bounded text) (fst st) -> bounded text (snd st) ->
  (forall s, In s ss -> In s (sentencesOf (sanitizeForTTS text))) ->
  Forall (bounded text) (fst (fold_left sentenceStep ss st))
  /\ bounded text (snd (fold_left sentenceStep ss st)).
Proof.
  induction ss as [|s ss IH]; intros st Hchunks Hcurrent Hss; cbn [fold_left]; [auto|].
  destruct (sentenceStep_bounded text st s Hchunks Hcurrent (Hss s (or_introl eq_refl))).
  apply IH; auto. intros s' Hs'. apply Hss. now right.
Qed.

(** C6, as amended.  Every chunk is at most 150 code units long once the
    whitespace at its ends is left out, unless it is a single fragment that
    the split of a sentence at commas, semicolons and conjunctions produced. *)
Theorem chunk_within_limit_or_fragment :
  forall text chunk : string,
    In chunk (splitIntoChunks text) ->
    String.length (trim chunk) <= limit \/ fragmentOf text chunk.
Proof.
  intros text chunk. unfold splitIntoChunks.
  destruct (negb (truthy (sanitizeForTTS text))); [intros []|].
  destruct (sentences_bounded text (sentencesOf (sanitizeForTTS text)) ([], EmptyString))
    as [Hchunks Hcurrent]; cbn [fst snd]; auto.
  { left. cbn. lia. }
  destruct (fold_left sentenceStep (sentencesOf (sanitizeForTTS text)) ([], EmptyString))
    as [chunks current].
  cbn [fst snd] in *. intros Hin.
  pose proof (bounded_pushIf text chunks current Hchunks Hcurrent) as Hall.
  rewrite Forall_forall in Hall. exact (Hall chunk Hin).
Qed.

Lemma chunk_within_limit_or_fragment_witness :
  In "which the board wants to review before the end of the week." (splitIntoChunks longReply)
  /\ (String.length (trim "which the board wants to review before the end of the week.") <= limit
      \/ fragmentOf longReply "which the board wants to review before the end of the week.").
Proof.
  assert (Hin : In "which the board wants to review before the end of the week."
                  (splitIntoChunks longReply))
    by (vm_compute; auto).
  refine (conj Hin _).
  exact (chunk_within_limit_or_fragment longReply _ Hin).
Defined.

(** C6, as stated, fails.  The second chunk of [longReply] is 151 code units
    long and is not a single fragment: it joins the sentence before with the
    first part of the long sentence, and that part ends with a space.  The
    loop over the parts measures the trimmed candidate and keeps the
    untrimmed one. *)
Lemma chunk_exceeds_limit :
  splitIntoChunks longReply
  = [ "Okay.";
      "Okay. The report that you asked me to read covers the quarterly figures for every region in which the company operates as well as all of its new risks ";
      "which the board wants to review before the end of the week." ]
  /\ map String.length (splitIntoChunks longReply) = [5; S limit; 59]
  /\ map atomic (splitIntoChunks longReply) = [true; false; true]
  /\ ~ fragmentOf longReply
         "Okay. The report that you asked me to read covers the quarterly figures for every region in which the company operates as well as all of its new risks ".
Proof.
  split; [vm_compute; reflexivity|].
  split; [vm_compute; reflexivity|].
  split; [vm_compute; reflexivity|].
  intros (s & Hs & Hp). vm_compute in Hs.
  destruct Hs as [<- | [<- | []]]; vm_compute in Hp;
    repeat (destruct Hp as [Hp | Hp]; [discriminate Hp|]); exact Hp.
Qed.

End TtsFacts.

(** ** The connection handlers *)

Section ServerFacts.
Import Js Ws Dg Vocabulary.

Lemma truthy_of_length s : 0 < String.length s -> truthy s = true.
Proof. destruct s; cbn; [lia|reflexivity]. Qed.

Lemma aborted_abort id cs : id < List.length cs -> Abort.aborted (Abort.abort id cs) id = true.
Proof.
  revert id. induction cs as [|b rest IH]; intros id Hid; cbn in Hid; [lia|].
  destruct id as [|id]; [reflexivity|].
  unfold Abort.aborted in *. cbn. apply IH. lia.
Qed.

Lemma skipn_sent {A} (xs ys : list A) : skipn (List.length xs) (xs ++ ys) = ys.
Proof. induction xs; cbn; auto. Qed.

Lemma detectName_keeps t c :
  Enhanced.timersSet (Enhanced.detectName t c) = Enhanced.timersSet c
  /\ Enhanced.processingAudio (Enhanced.detectName t c) = Enhanced.processingAudio c.
Proof.
  unfold Enhanced.detectName. destruct (Enhanced.nameMatch t) as [n|]; [|auto].
  destruct (2 <? String.length n); auto.
Qed.

(** C4, as amended.  A final event that arrives while no turn is in flight,
    that the noise filter lets through and whose trimmed text has more than
    one code unit, arms the debounce timer exactly when: on the enhanced
    server, the end-of-speech marker is set, or the text is longer than 8, or
    it contains a question mark, or the confidence exceeds 0.9; on the older
    server, the same with a length above 10, or the text contains a full
    stop. *)
Theorem final_event_is_candidate :
  forall (ce : Enhanced.Conn) (cl : Legacy.Conn) (ev : Recognition),
    Enhanced.isOpen ce = true -> Enhanced.processingAudio ce = false ->
    Legacy.isOpen cl = true -> Legacy.processingAudio cl = false ->
    isFinal ev = true ->
    1 < String.length (trim (text ev)) ->
    qlt (confidence ev) (1 # 2) && (String.length (text ev) <? 3) = false ->
    (Enhanced.schedules ev ce = true <->
       speechFinal ev = true \/ 8 < String.length (text ev)
       \/ includes "?" (text ev) = true \/ qlt (9 # 10) (confidence ev) = true)
    /\ (Legacy.schedules ev cl = true <->
       speechFinal ev = true \/ 10 < String.length (text ev)
       \/ includes "?" (text ev) = true \/ includes "." (text ev) = true
       \/ qlt (9 # 10) (confidence ev) = true).
Proof.
  intros ce cl ev Hopen Hidle Hopen' Hidle' Hfinal Hlen Hnoise.
  assert (Htrim : truthy (trim (text ev)) = true) by (apply truthy_of_length; lia).
  assert (Htext : truthy (text ev) = true).
  { destruct (text ev); [cbn in Hlen; lia|reflexivity]. }
  apply Nat.ltb_lt in Hlen.
  split.
  - unfold Enhanced.schedules, Enhanced.onResults.
    rewrite Hopen, Hidle, Hnoise, Htrim, Hfinal, Hlen. cbn [negb andb].
    match goal with
    | |- context [Enhanced.detectName ?t ?c] =>
        destruct (detectName_keeps t c) as [Htimers Hproc]; rewrite Hproc, Htimers
    end.
    cbn [Enhanced.processingAudio Enhanced.timersSet Enhanced.send Enhanced.setTimer negb].
    rewrite Hidle, andb_true_r. unfold Enhanced.shouldProcess.
    destruct (speechFinal ev || (8 <? String.length (text ev)) || includes "?" (text ev)
              || qlt (9 # 10) (confidence ev)) eqn:Hshould.
    + cbn [Enhanced.timersSet Enhanced.setTimer]. rewrite Nat.ltb_lt. split; [intros _|lia].
      rewrite !orb_true_iff, Nat.ltb_lt in Hshould. tauto.
    + rewrite Htimers. cbn [Enhanced.timersSet Enhanced.send Enhanced.setTimer].
      rewrite Nat.ltb_irrefl. split; [discriminate|].
      rewrite !orb_false_iff, Nat.ltb_ge in Hshould. intros [H|[H|[H|H]]]; try lia; intuition congruence.
  - unfold Legacy.schedules, Legacy.onResults.
    rewrite Hopen', Hidle', Hnoise, Htext, Htrim, Hfinal, Hlen. cbn [negb andb].
    cbn [Legacy.processingAudio Legacy.timersSet Legacy.send Legacy.setTimer negb].
    rewrite Hidle', andb_true_r. unfold Legacy.shouldProcess.
    destruct (speechFinal ev || (10 <? String.length (text ev)) || includes "?" (text ev)
              || includes "." (text ev) || qlt (9 # 10) (confidence ev)) eqn:Hshould.
    + cbn [Legacy.timersSet Legacy.setTimer]. rewrite Nat.ltb_lt. split; [intros _|lia].
      rewrite !orb_true_iff, Nat.ltb_lt in Hshould. tauto.
    + cbn [Legacy.timersSet Legacy.send Legacy.setTimer].
      rewrite Nat.ltb_irrefl. split; [discriminate|].
      rewrite !orb_false_iff, Nat.ltb_ge in Hshould.
      intros [H|[H|[H|[H|H]]]]; try lia; intuition congruence.
Qed.

Lemma final_event_is_candidate_witness :
  Enhanced.isOpen enhancedIdle = true /\ Enhanced.processingAudio enhancedIdle = false
  /\ Legacy.isOpen legacyIdle = true /\ Legacy.processingAudio legacyIdle = false
  /\ isFinal askTime = true
  /\ 1 < String.length (trim (text askTime))
  /\ qlt (confidence askTime) (1 # 2) && (String.length (text askTime) <? 3) = false
  /\ (Enhanced.schedules askTime enhancedIdle = true <->
       speechFinal askTime = true \/ 8 < String.length (text askTime)
       \/ includes "?" (text askTime) = true \/ qlt (9 # 10) (confidence askTime) = true).
Proof.
  assert (Hlen : 1 < String.length (trim (text askTime))) by (vm_compute; lia).
  refine (conj eq_refl (conj eq_refl (conj eq_refl (conj eq_refl
           (conj eq_refl (conj Hlen (conj eq_refl _))))))).
  exact (proj1 (final_event_is_candidate enhancedIdle legacyIdle askTime
                  eq_refl eq_refl eq_refl eq_refl eq_refl Hlen eq_refl)).
Defined.

(** C4, as stated, fails.  A final event whose text is a lone question mark
    with confidence 0.95 satisfies the stated rule, yet neither server arms
    the timer for it: the text is not longer than one code unit.  And a final
    "Okay." with confidence 0.8 contains a full stop, which only the older
    server looks for. *)
Lemma short_final_is_not_candidate :
  (candidateBySpec 8 loneMark = true /\ Enhanced.schedules loneMark enhancedIdle = false)
  /\ (candidateBySpec 10 loneMark = true /\ Legacy.schedules loneMark legacyIdle = false)
  /\ (candidateBySpec 8 shortSentence = true /\ Enhanced.schedules shortSentence enhancedIdle = false)
  /\ Legacy.schedules shortSentence legacyIdle = true.
Proof. vm_compute. repeat split; reflexivity. Qed.

(** *** Barge-in *)

(** C2, as amended.  While [processingAudio] is set, an interim transcript
    longer than the threshold (2 on the enhanced server, 3 on the older one)
    makes the handler, before it looks at the confidence or at anything else:
    abort the controller the connection holds, if it holds one, send the
    stop-playback notification and clear [processingAudio].  Pending turns
    and the memory are left as they are.  When no controller is held, no
    token is fired. *)
Theorem barge_in_aborts_held_controller :
  forall (ce : Enhanced.Conn) (cl : Legacy.Conn) (ev : Recognition),
    Enhanced.isOpen ce = true -> Enhanced.processingAudio ce = true ->
    Legacy.isOpen cl = true -> Legacy.processingAudio cl = true ->
    isFinal ev = false ->
    (2 < String.length (text ev) ->
     let c' := Enhanced.onResults ev ce in
     (exists rest, Enhanced.sink c' = Enhanced.sink ce ++ StopAudio :: rest
                   /\ (rest = [] \/ rest = [Transcript (text ev) false]))
     /\ Enhanced.processingAudio c' = false
     /\ Enhanced.currentTTSController c' = None
     /\ (forall id, Enhanced.currentTTSController ce = Some id ->
                    id < List.length (Enhanced.controllers ce) ->
                    Abort.aborted (Enhanced.controllers c') id = true)
     /\ (Enhanced.currentTTSController ce = None ->
         Enhanced.controllers c' = Enhanced.controllers ce)
     /\ Enhanced.tasks c' = Enhanced.tasks ce
     /\ Enhanced.memory c' = Enhanced.memory ce)
    /\ (3 < String.length (text ev) ->
        let c' := Legacy.onResults ev cl in
        (exists rest, Legacy.sink c' = Legacy.sink cl ++ StopAudio :: rest
                      /\ (rest = [] \/ rest = [Transcript (text ev) false]))
        /\ Legacy.processingAudio c' = false
        /\ (forall id, Legacy.currentTTSController cl = Some id ->
                       id < List.length (Legacy.controllers cl) ->
                       Abort.aborted (Legacy.controllers c') id = true)
        /\ (Legacy.currentTTSController cl = None ->
            Legacy.controllers c' = Legacy.controllers cl)
        /\ Legacy.tasks c' = Legacy.tasks cl).
Proof.
  intros ce cl ev Hopen Hbusy Hopen' Hbusy' Hinterim.
  split; intros Hlen.
  - assert (Hlen2 : (2 <? String.length (text ev)) = true) by (apply Nat.ltb_lt; lia).
    assert (Hnoise : (String.length (text ev) <? 3) = false) by (apply Nat.ltb_ge; lia).
    unfold Enhanced.onResults.
    rewrite Hopen, Hbusy, Hinterim, Hlen2, Hnoise, andb_false_r. cbn [negb andb].
    unfold Enhanced.interrupt, Enhanced.cancelCurrentTTS.
    destruct (Enhanced.currentTTSController ce) as [held|] eqn:Hheld;
      destruct (truthy (trim (text ev)));
      cbn -[Abort.abort Abort.aborted];
      repeat split;
      try (eexists; split; [first [rewrite <- app_assoc; reflexivity | reflexivity]|auto]; fail);
      try (intros id Hid Hrange; injection Hid as <-; now apply aborted_abort);
      try (intros; discriminate);
      try (intros; first [reflexivity | assumption]).
  - assert (Hlen3 : (3 <? String.length (text ev)) = true) by (apply Nat.ltb_lt; lia).
    assert (Hnoise : (String.length (text ev) <? 3) = false) by (apply Nat.ltb_ge; lia).
    unfold Legacy.onResults.
    rewrite Hopen', Hbusy', Hinterim, Hlen3, Hnoise, andb_false_r. cbn [negb andb].
    unfold Legacy.interrupt, Legacy.cancelCurrentTTS.
    destruct (Legacy.currentTTSController cl) as [held|] eqn:Hheld;
      destruct (truthy (text ev) && truthy (trim (text ev)));
      cbn -[Abort.abort Abort.aborted];
      repeat split;
      try (eexists; split; [first [rewrite <- app_assoc; reflexivity | reflexivity]|auto]; fail);
      try (intros id Hid Hrange; injection Hid as <-; now apply aborted_abort);
      try (intros; discriminate);
      try (intros; first [reflexivity | assumption]).
Qed.

Lemma barge_in_aborts_held_controller_witness :
  Enhanced.isOpen enhancedThinking = true /\ Enhanced.processingAudio enhancedThinking = true
  /\ Legacy.isOpen legacyThinking = true /\ Legacy.processingAudio legacyThinking = true
  /\ isFinal interim = false
  /\ Enhanced.processingAudio (Enhanced.onResults interim enhancedThinking) = false
  /\ Legacy.processingAudio (Legacy.onResults interim legacyThinking) = false.
Proof.
  assert (Hlen : 3 < String.length (text interim)) by (vm_compute; lia).
  assert (Hlen' : 2 < String.length (text interim)) by lia.
  assert (H1 : Enhanced.isOpen enhancedThinking = true) by (vm_compute; reflexivity).
  assert (H2 : Enhanced.processingAudio enhancedThinking = true) by (vm_compute; reflexivity).
  assert (H3 : Legacy.isOpen legacyThinking = true) by (vm_compute; reflexivity).
  assert (H4 : Legacy.processingAudio legacyThinking = true) by (vm_compute; reflexivity).
  refine (conj H1 (conj H2 (conj H3 (conj H4 (conj eq_refl _))))).
  destruct (barge_in_aborts_held_controller enhancedThinking legacyThinking interim
              H1 H2 H3 H4 eq_refl) as [He Hl].
  split; [exact (proj1 (proj2 (He Hlen'))) | exact (proj1 (proj2 (Hl Hlen)))].
Defined.

(** C2, as stated, fails.  On the enhanced server a turn that waits for the
    mail action holds no controller yet; on the older server no turn holds
    one while its backend call is pending.  A barge-in then fires no token
    (none exists), and the turn goes on to send its reply. *)
Lemma barge_in_fires_no_token_without_controller :
  (let busy := Enhanced.steps enhancedIdle [Enhanced.Results askMail; Enhanced.TimerFires 0] in
   let after := Enhanced.step busy (Enhanced.Results interim) in
   let later := Enhanced.step after
                  (Enhanced.ActionSettles 0 "Email sent successfully to bob@example.com.") in
   Enhanced.processingAudio busy = true
   /\ Enhanced.currentTTSController busy = None
   /\ Enhanced.controllers after = []
   /\ existsb isReplyOrSpeaking (sentSince (Enhanced.sink after) (Enhanced.sink later)) = true)
  /\ (let busy := legacyThinking in
      let after := Legacy.step busy (Legacy.Results interim) in
      let later := Legacy.step after (Legacy.ReplySettles 0 "It is noon.") in
      Legacy.processingAudio busy = true
      /\ Legacy.currentTTSController busy = None
      /\ Legacy.controllers after = []
      /\ existsb isReplyOrSpeaking (sentSince (Legacy.sink after) (Legacy.sink later)) = true).
Proof. vm_compute. repeat split; reflexivity. Qed.

(** *** Cancelled turns *)

Lemma nth_replaceNth {A} i (x d : A) xs :
  nth i (Enhanced.replaceNth i x xs) d = (if i <? List.length xs then x else d).
Proof.
  revert i. induction xs as [|y rest IH]; intros [|i]; cbn; try reflexivity.
  rewrite IH. reflexivity.
Qed.

(** A cancellation leaves the pending turns and the memory alone, sends no
    reply and no speaking status, and fires the held controller. *)
Lemma cancel_effect c cancel sig :
  Enhanced.isOpen c = true ->
  Enhanced.processingAudio c = true ->
  Enhanced.currentTTSController c = Some sig ->
  sig < List.length (Enhanced.controllers c) ->
  cancels cancel = true ->
  let c1 := Enhanced.step c cancel in
  Abort.aborted (Enhanced.controllers c1) sig = true
  /\ Enhanced.tasks c1 = Enhanced.tasks c
  /\ Enhanced.memory c1 = Enhanced.memory c
  /\ exists msgs, Enhanced.sink c1 = Enhanced.sink c ++ msgs
                  /\ existsb isReplyOrSpeaking msgs = false.
Proof.
  intros Hopen Hbusy Hheld Hrange Hcancel.
  destruct cancel as [| |ev| | | | | | | |]; try discriminate Hcancel; cbn [Enhanced.step].
  - unfold cancels in Hcancel. apply andb_true_iff in Hcancel as [Hinterim Hlen].
    apply negb_true_iff in Hinterim.
    assert (Hnoise : (String.length (text ev) <? 3) = false).
    { apply Nat.ltb_lt in Hlen. apply Nat.ltb_ge. lia. }
    unfold Enhanced.onResults.
    rewrite Hopen, Hbusy, Hinterim, Hlen, Hnoise, andb_false_r. cbn [negb andb].
    unfold Enhanced.interrupt, Enhanced.cancelCurrentTTS. rewrite Hheld.
    destruct (truthy (trim (text ev))); cbn -[Abort.abort Abort.aborted];
      (repeat split; [now apply aborted_abort|]);
      eexists; (split; [first [rewrite <- app_assoc; reflexivity | reflexivity]|reflexivity]).
  - unfold Enhanced.cancelCurrentTTS. rewrite Hheld. cbn -[Abort.abort Abort.aborted].
    repeat split; [now apply aborted_abort|].
    eexists; split; reflexivity.
Qed.

(** The backend call of a waiting turn settles with a cancellation error. *)
Lemma abort_settles c i transcript sig mem doc now0 cache0 pending e now :
  nth i (Enhanced.tasks c) Enhanced.Done = Enhanced.AwaitRoute transcript sig pending ->
  inFlight transcript mem doc now0 cache0 pending ->
  Router.isAbort e = true ->
  let c2 := Enhanced.step c (Enhanced.BackendSettles i (Router.Rejected e) now) in
  Enhanced.memory c2 = Enhanced.memory c
  /\ Enhanced.sink c2 = Enhanced.sink c ++ [Status "Listening..."]
  /\ nth i (Enhanced.tasks c2) Enhanced.Done = Enhanced.Done.
Proof.
  intros Htask Hflight Habort. cbn [Enhanced.step]. rewrite Htask.
  destruct (inFlight_abort _ _ _ _ _ _ Hflight) as (cache' & req & k & -> & Hthrow).
  rewrite (Hthrow e now _ Habort).
  unfold Enhanced.routed, Enhanced.catchBlock. rewrite Habort.
  cbn [Enhanced.park Enhanced.memory Enhanced.sink Enhanced.tasks Enhanced.setTasks
       Enhanced.setController Enhanced.setProcessing Enhanced.send Enhanced.setCache].
  rewrite nth_replaceNth. repeat split.
  destruct (i <? List.length (Enhanced.tasks c)); reflexivity.
Qed.

(** A turn waits for a backend call of its [routeRequest] and holds the
    controller whose signal that call was given.  A barge-in or an explicit
    stop fires the controller; when the call then fails with the
    cancellation error, the turn ends there: the memory is what it was, and
    from the cancellation on the client was sent neither a reply nor the
    speaking status. *)
Lemma cancelled_while_thinking :
  forall (c : Enhanced.Conn) (i : nat) (transcript mem : string) (doc : option string)
         (now0 : Z) (cache0 : Router.Cache) (pending : Router.Route) (sig : nat)
         (cancel : Enhanced.Event) (e : Router.JsError) (now : Z),
    nth i (Enhanced.tasks c) Enhanced.Done = Enhanced.AwaitRoute transcript sig pending ->
    inFlight transcript mem doc now0 cache0 pending ->
    Enhanced.isOpen c = true ->
    Enhanced.processingAudio c = true ->
    Enhanced.currentTTSController c = Some sig ->
    sig < List.length (Enhanced.controllers c) ->
    cancels cancel = true ->
    Router.isAbort e = true ->
    let c1 := Enhanced.step c cancel in
    let c2 := Enhanced.step c1 (Enhanced.BackendSettles i (Router.Rejected e) now) in
    Abort.aborted (Enhanced.controllers c1) sig = true
    /\ Enhanced.memory c2 = Enhanced.memory c
    /\ existsb isReplyOrSpeaking (sentSince (Enhanced.sink c) (Enhanced.sink c2)) = false
    /\ nth i (Enhanced.tasks c2) Enhanced.Done = Enhanced.Done.
Proof.
  intros c i transcript mem doc now0 cache0 pending sig cancel e now
         Htask Hflight Hopen Hbusy Hheld Hrange Hcancel Habort c1 c2.
  destruct (cancel_effect c cancel sig Hopen Hbusy Hheld Hrange Hcancel)
    as (Hfired & Htasks & Hmem & msgs & Hsink & Hquiet).
  fold c1 in Hfired, Htasks, Hmem, Hsink.
  rewrite <- Htasks in Htask.
  destruct (abort_settles c1 i transcript sig mem doc now0 cache0 pending e now
              Htask Hflight Habort)
    as (Hmem2 & Hsink2 & Hdone).
  fold c2 in Hmem2, Hsink2, Hdone.
  repeat split; [exact Hfired|congruence| |exact Hdone].
  rewrite Hsink2, Hsink, <- app_assoc. unfold sentSince. rewrite skipn_sent, existsb_app, Hquiet.
  reflexivity.
Qed.

Lemma cancelled_while_thinking_witness :
  nth 0 (Enhanced.tasks enhancedThinking) Enhanced.Done
    = Enhanced.AwaitRoute (text askTime) 0
        (Router.routeRequest (text askTime) EmptyString None 0 [])
  /\ inFlight (text askTime) EmptyString None 0 []
       (Router.routeRequest (text askTime) EmptyString None 0 [])
  /\ Enhanced.isOpen enhancedThinking = true
  /\ Enhanced.processingAudio enhancedThinking = true
  /\ Enhanced.currentTTSController enhancedThinking = Some 0
  /\ 0 < List.length (Enhanced.controllers enhancedThinking)
  /\ cancels (Enhanced.Results interim) = true
  /\ Router.isAbort abortError = true
  /\ Enhanced.memory
       (Enhanced.steps enhancedThinking
          [Enhanced.Results interim; Enhanced.BackendSettles 0 (Router.Rejected abortError) 5])
     = Enhanced.memory enhancedThinking.
Proof.
  assert (H1 : nth 0 (Enhanced.tasks enhancedThinking) Enhanced.Done
               = Enhanced.AwaitRoute (text askTime) 0
                   (Router.routeRequest (text askTime) EmptyString None 0 []))
    by reflexivity.
  assert (H2 : inFlight (text askTime) EmptyString None 0 []
                 (Router.routeRequest (text askTime) EmptyString None 0 []))
    by (split; [vm_compute; reflexivity|left; reflexivity]).
  assert (H3 : Enhanced.isOpen enhancedThinking = true) by (vm_compute; reflexivity).
  assert (H4 : Enhanced.processingAudio enhancedThinking = true) by (vm_compute; reflexivity).
  assert (H5 : Enhanced.currentTTSController enhancedThinking = Some 0)
    by (vm_compute; reflexivity).
  assert (H6 : 0 < List.length (Enhanced.controllers enhancedThinking)) by (vm_compute; lia).
  refine (conj H1 (conj H2 (conj H3 (conj H4 (conj H5 (conj H6 (conj eq_refl (conj eq_refl _)))))))).
  exact (proj1 (proj2 (cancelled_while_thinking enhancedThinking 0 (text askTime) EmptyString None
                         0%Z [] _ 0 (Enhanced.Results interim) abortError 5%Z
                         H1 H2 H3 H4 H5 H6 eq_refl eq_refl))).
Defined.

(** C1.  The turn below is cancelled by a barge-in while its backend call is
    pending: the controller it holds is fired, and the memory is still what
    it was.  The call succeeds all the same.  Nothing checks the signal when
    [routeRequest] returns: the memory is updated, the reply and the
    speaking status are sent, and only then does reading the signal of the
    cleared controller throw. *)
Theorem late_answer_of_cancelled_turn_is_used :
  let cancelled := Enhanced.step enhancedThinking (Enhanced.Results interim) in
  let finished :=
    Enhanced.step cancelled (Enhanced.BackendSettles 0 (Router.Resolved "It is noon.") 5) in
  cancels (Enhanced.Results interim) = true
  /\ Enhanced.currentTTSController enhancedThinking = Some 0
  /\ Abort.aborted (Enhanced.controllers cancelled) 0 = true
  /\ Enhanced.memory cancelled = Enhanced.memory enhancedThinking
  /\ Enhanced.lastBotMessages (Enhanced.memory cancelled) = []
  /\ Enhanced.lastUserMessages (Enhanced.memory finished) = ["What time is it now?"]
  /\ Enhanced.lastBotMessages (Enhanced.memory finished) = ["It is noon."]
  /\ sentSince (Enhanced.sink cancelled) (Enhanced.sink finished)
     = [ MemoryUpdate None [("What time is it now?", "It is noon.")];
         Reply "It is noon."; Status "Speaking...";
         ErrorMsg "Processing error: Cannot read properties of null (reading 'signal')";
         Status "Listening..." ]
  /\ existsb isReplyOrSpeaking (sentSince (Enhanced.sink cancelled) (Enhanced.sink finished))
     = true.
Proof. vm_compute. repeat split; reflexivity. Qed.

(** *** The held controller exists *)

Lemma abort_length id cs : List.length (Abort.abort id cs) = List.length cs.
Proof.
  revert id. induction cs as [|b rest IH]; intros [|id]; cbn; auto.
Qed.

Lemma sendAll_held ms : forall c,
  Enhanced.currentTTSController (Enhanced.sendAll ms c) = Enhanced.currentTTSController c
  /\ Enhanced.controllers (Enhanced.sendAll ms c) = Enhanced.controllers c.
Proof.
  unfold Enhanced.sendAll. induction ms as [|m ms IH]; intros c; cbn [fold_left]; [auto|].
  destruct (IH (Enhanced.send m c)) as [-> ->]. auto.
Qed.

Lemma park_held slot t c :
  Enhanced.currentTTSController (Enhanced.park slot t c) = Enhanced.currentTTSController c
  /\ Enhanced.controllers (Enhanced.park slot t c) = Enhanced.controllers c.
Proof. destruct slot; auto. Qed.

Lemma heldInRange_same c c' :
  Enhanced.currentTTSController c' = Enhanced.currentTTSController c ->
  Enhanced.controllers c' = Enhanced.controllers c ->
  heldInRange c -> heldInRange c'.
Proof. unfold heldInRange. now intros -> ->. Qed.

Lemma heldInRange_none c : Enhanced.currentTTSController c = None -> heldInRange c.
Proof. unfold heldInRange. now intros ->. Qed.

Lemma catchBlock_held slot e c : heldInRange (Enhanced.catchBlock slot e c).
Proof.
  apply heldInRange_none. unfold Enhanced.catchBlock.
  destruct slot; [rewrite (proj1 (park_held _ _ _))|]; reflexivity.
Qed.

Lemma afterSpeech_held slot c : heldInRange (Enhanced.afterSpeech slot c).
Proof.
  apply heldInRange_none. unfold Enhanced.afterSpeech.
  destruct slot; [rewrite (proj1 (park_held _ _ _))|]; reflexivity.
Qed.

Lemma speech_held slot tail out c : heldInRange c -> heldInRange (Enhanced.speech slot tail out c).
Proof.
  intros Hc. unfold Enhanced.speech. destruct (snd out); [|apply afterSpeech_held].
  destruct (park_held slot (Enhanced.AwaitSpeech tail p) (Enhanced.sendAll (fst out) c)) as [H1 H2].
  destruct (sendAll_held (fst out) c) as [H3 H4].
  apply (heldInRange_same c); congruence.
Qed.

Lemma afterRoute_held slot transcript aiReply c :
  heldInRange c -> heldInRange (Enhanced.afterRoute slot transcript aiReply c).
Proof.
  intros Hc. unfold Enhanced.afterRoute.
  set (c' := Enhanced.send (Status "Speaking...")
               (Enhanced.send (Reply aiReply) (Enhanced.updateMemory transcript aiReply c))).
  assert (Hc' : heldInRange c') by (apply (heldInRange_same c); auto).
  destruct (Enhanced.currentTTSController c'); [now apply speech_held|apply catchBlock_held].
Qed.

Lemma routed_held slot transcript sig r c :
  heldInRange c -> heldInRange (Enhanced.routed slot transcript sig r c).
Proof.
  intros Hc. unfold Enhanced.routed. destruct r as [reply cache|e cache|cache req k].
  - apply afterRoute_held. exact Hc.
  - apply catchBlock_held.
  - destruct (park_held slot (Enhanced.AwaitRoute transcript sig (Router.Await cache req k))
                (Enhanced.setCache cache c)) as [H1 H2].
    apply (heldInRange_same c); [rewrite H1; reflexivity|rewrite H2; reflexivity|exact Hc].
Qed.

Lemma created_held c :
  heldInRange
    (Enhanced.setController (Some (fst (Abort.create (Enhanced.controllers c))))
       (snd (Abort.create (Enhanced.controllers c))) c).
Proof. unfold heldInRange, Abort.create. cbn. rewrite length_app. cbn. lia. Qed.

Lemma detectName_held t c :
  Enhanced.currentTTSController (Enhanced.detectName t c) = Enhanced.currentTTSController c
  /\ Enhanced.controllers (Enhanced.detectName t c) = Enhanced.controllers c.
Proof.
  unfold Enhanced.detectName. destruct (Enhanced.nameMatch t) as [n|]; [|auto].
  destruct (2 <? String.length n); auto.
Qed.

Lemma onResults_held ev c : heldInRange c -> heldInRange (Enhanced.onResults ev c).
Proof.
  intros Hc. unfold Enhanced.onResults.
  destruct (negb (Enhanced.isOpen c)); [exact Hc|].
  match goal with
  | |- context [if ?b then Enhanced.interrupt c else c] =>
      set (c1 := if b then Enhanced.interrupt c else c);
      assert (Hc1 : heldInRange c1);
      [subst c1; destruct b; [apply heldInRange_none|exact Hc]|clearbody c1]
  end.
  { unfold Enhanced.interrupt, Enhanced.cancelCurrentTTS.
    destruct (Enhanced.currentTTSController c) eqn:Hheld; [reflexivity|exact Hheld]. }
  destruct (qlt (confidence ev) (1 # 2) && (String.length (text ev) <? 3)); [exact Hc1|].
  destruct (truthy (trim (text ev))); [|exact Hc1].
  destruct (negb (isFinal ev)); [apply (heldInRange_same c1); auto|].
  destruct (1 <? String.length (trim (text ev))); [|exact Hc1].
  match goal with
  | |- context [Enhanced.detectName ?t ?c2] =>
      destruct (detectName_held t c2) as [H1 H2]
  end.
  match goal with
  | |- heldInRange (if ?b then _ else _) => destruct b
  end; apply (heldInRange_same c1); cbn [Enhanced.currentTTSController Enhanced.controllers
                                          Enhanced.setTimer];
    first [rewrite H1; reflexivity | rewrite H2; reflexivity | exact Hc1].
Qed.

(** Whatever happens, the controller that the connection holds is one of the
    controllers that were created. *)
Lemma step_held c e : heldInRange c -> heldInRange (Enhanced.step c e).
Proof.
  intros Hc. destruct e as [| |ev|now|i message|i o now|i g|i| | |]; cbn [Enhanced.step].
  - exact Hc.
  - exact Hc.
  - now apply onResults_held.
  - destruct (Enhanced.transcriptTimeout c) as [t|]; [|exact Hc].
    unfold Enhanced.timerCallback.
    match goal with |- context [if ?b then _ else _] => destruct b end; [exact Hc|].
    match goal with |- context [if ?b then _ else _] => destruct b end.
    + destruct (park_held None (Enhanced.AwaitAction (Enhanced.transcript t))
                  (Enhanced.send (Status "Thinking...")
                     (Enhanced.setProcessing true
                        (Enhanced.setTimer None (Enhanced.timersSet c) c)))) as [H1 H2].
      apply (heldInRange_same c); [rewrite H1; reflexivity|rewrite H2; reflexivity|exact Hc].
    + apply routed_held.
      match goal with
      | |- heldInRange (Enhanced.setController _ _ ?c') => exact (created_held c')
      end.
  - destruct (nth i (Enhanced.tasks c) Enhanced.Done); try exact Hc.
    unfold Enhanced.afterAction. apply speech_held.
    match goal with
    | |- heldInRange (Enhanced.setController _ _ ?c') => exact (created_held c')
    end.
  - destruct (nth i (Enhanced.tasks c) Enhanced.Done) as [| ? ? [| |? ? k] | |]; try exact Hc.
    now apply routed_held.
  - destruct (nth i (Enhanced.tasks c) Enhanced.Done) as [| |? [st|st]|]; try exact Hc.
    now apply speech_held.
  - destruct (nth i (Enhanced.tasks c) Enhanced.Done) as [| |? [st|st]|]; try exact Hc.
    now apply speech_held.
  - destruct (Enhanced.ttsEndArmed c); exact Hc.
  - unfold Enhanced.cancelCurrentTTS.
    destruct (Enhanced.currentTTSController c) eqn:Hheld;
      [apply heldInRange_none; reflexivity|apply (heldInRange_same c); auto].
  - exact Hc.
Qed.

Lemma steps_held es : forall c, heldInRange c -> heldInRange (Enhanced.steps c es).
Proof.
  unfold Enhanced.steps. induction es as [|e es IH]; intros c Hc; cbn [fold_left]; [exact Hc|].
  apply IH, step_held, Hc.
Qed.

Lemma reachable_held session cache es :
  heldInRange (Enhanced.steps (Enhanced.initial session cache) es).
Proof. apply steps_held. exact I. Qed.

End ServerFacts.

(** ** Router: lifetime of the entries, sweep, failures, keys *)

Section CacheFacts.
Import Js Router Vocabulary Notions.

Lemma mapGet_mapSet_other other key v cache :
  String.eqb other key = false -> mapGet other (mapSet key v cache) = mapGet other cache.
Proof.
  intros Hne. induction cache as [|[k v0] rest IH]; cbn.
  - rewrite String.eqb_sym, Hne. reflexivity.
  - destruct (String.eqb k key) eqn:Hk; cbn.
    + apply String.eqb_eq in Hk. subst k. rewrite String.eqb_sym, Hne. reflexivity.
    + destruct (String.eqb k other); [reflexivity|exact IH].
Qed.

Lemma mapGet_mapDelete_other other key cache :
  String.eqb other key = false -> mapGet other (mapDelete key cache) = mapGet other cache.
Proof.
  intros Hne. induction cache as [|[k v0] rest IH]; cbn; [reflexivity|].
  destruct (String.eqb k key) eqn:Hk; cbn.
  - apply String.eqb_eq in Hk. subst k. rewrite String.eqb_sym, Hne. reflexivity.
  - destruct (String.eqb k other); [reflexivity|exact IH].
Qed.

(** X1. A reply stored under a key is what a lookup of that key returns at
    any moment less than the lifetime later, and that lookup leaves the
    cache as it is; storing changes the entry of no other key, also when the
    cache is full. *)
Theorem stored_reply_is_served_until_it_expires :
  forall (now now' : Z) (key other reply : string) (cache : Cache),
    (now' - now < CACHE_TTL)%Z ->
    String.eqb other key = false ->
    getCachedResponse now' key (setCachedResponse now key reply cache)
    = (Some reply, setCachedResponse now key reply cache)
    /\ mapGet other (setCachedResponse now key reply cache) = mapGet other cache.
Proof.
  intros now now' key other reply cache Hfresh Hother. split.
  - unfold getCachedResponse. rewrite mapGet_setCachedResponse. cbn [timestamp response].
    apply Z.ltb_lt in Hfresh. now rewrite Hfresh.
  - unfold setCachedResponse. rewrite (mapGet_mapSet_other _ _ _ _ Hother).
    destruct (MAX_CACHE_SIZE <=? mapSize cache); [|reflexivity].
    apply mapGet_mapDelete_other, Hother.
Qed.

Lemma stored_reply_is_served_until_it_expires_witness :
  (1000 - 0 < CACHE_TTL)%Z
  /\ String.eqb "b" "a" = false
  /\ getCachedResponse 1000 "a" (setCachedResponse 0 "a" "Hello!" [])
     = (Some "Hello!", setCachedResponse 0 "a" "Hello!" []).
Proof.
  assert (Hfresh : (1000 - 0 < CACHE_TTL)%Z) by (vm_compute; reflexivity).
  refine (conj Hfresh (conj eq_refl _)).
  exact (proj1 (stored_reply_is_served_until_it_expires 0%Z 1000%Z "a" "b" "Hello!" [] Hfresh eq_refl)).
Defined.

(** The first segment of a call whose lookup finds nothing to serve. *)
Lemma routeRequest_miss_cache text mem doc now cache :
  hitReply (routeRequest text mem doc now cache) = None ->
  exists call p sp,
    routeRequest text mem doc now cache
    = tryPrimary call p sp (getCacheKey text mem (hasContent doc))
        (snd (getCachedResponse now (getCacheKey text mem (hasContent doc)) cache))
    /\ ((primaryModel text doc = Flash /\ call = callGeminiFlash)
        \/ (primaryModel text doc = Pro /\ call = callGeminiPro)).
Proof.
  unfold routeRequest, primaryModel.
  destruct (getCachedResponse now (getCacheKey text mem (hasContent doc)) cache) as [cached cache'].
  cbn [snd].
  destruct cached as [hit|]; [destruct (truthy hit)|]; cbv zeta; intros Hmiss;
    try (exfalso; revert Hmiss; cbn [hitReply]; discriminate); clear Hmiss.
  all: destruct (isDocumentQuery (classifyIntent text) text doc);
    [do 3 eexists; split; [reflexivity|auto]|].
  all: destruct (classifyIntent text) as [[] []];
    cbn [type complexity isType isComplexity orb]; do 3 eexists; (split; [reflexivity|auto]).
Qed.

Lemma hitReply_tryPrimary call p sp key cache model :
  (model = Flash /\ call = callGeminiFlash) \/ (model = Pro /\ call = callGeminiPro) ->
  hitReply (tryPrimary call p sp key cache) = None.
Proof. intros [[_ ->] | [_ ->]]; reflexivity. Qed.

(** A lookup that serves nothing makes the call go to a backend. *)
Lemma lookup_none_is_miss text mem doc now cache :
  fst (getCachedResponse now (getCacheKey text mem (hasContent doc)) cache) = None ->
  hitReply (routeRequest text mem doc now cache) = None.
Proof.
  unfold routeRequest.
  destruct (getCachedResponse now (getCacheKey text mem (hasContent doc)) cache) as [cached cache'].
  cbn [fst]. intros ->.
  repeat match goal with
         | |- context [if ?b then _ else _] => destruct b
         end; reflexivity.
Qed.

(** A call that misses the cache asks its primary backend first. *)
Lemma miss_asks_primary text mem doc now cache script :
  hitReply (routeRequest text mem doc now cache) = None ->
  exists req rest,
    calls (route text mem doc now cache script) = req :: rest
    /\ modelOf req = primaryModel text doc.
Proof.
  intros Hmiss.
  destruct (routeRequest_miss _ _ _ _ _ Hmiss) as (call & p & sp & cache' & Hroute & Hcall).
  unfold route. rewrite Hroute.
  destruct (run_tryPrimary call p sp (getCacheKey text mem (hasContent doc)) cache'
              (primaryModel text doc) Hcall)
    as (req & Hmodel & Hnone & Hok & Habort & Hwait & Hback & Hfail).
  destruct script as [|[[a|e] t] rest].
  - rewrite Hnone. cbn. eauto.
  - rewrite Hok. cbn. eauto.
  - destruct (isAbort e) eqn:He.
    + rewrite (Habort e t rest He). cbn. eauto.
    + destruct rest as [|[[a|e'] t'] rest].
      * rewrite (Hwait e t He). cbn. eauto.
      * rewrite (Hback e t a t' rest He). cbn. eauto.
      * rewrite (Hfail e t e' t' rest He). cbn. eauto.
Qed.

(** X2. Once the lifetime has passed since the answer of a backend was
    stored, a call with the same text is a miss again and asks its primary
    backend first. *)
Theorem expired_reply_is_fetched_again :
  forall (text mem : string) (doc : option string) (now1 : Z) (cache : Cache)
         (script1 : list (Outcome * Z)) (a : string) (t : Z)
         (now2 : Z) (script2 : list (Outcome * Z)),
    hitReply (routeRequest text mem doc now1 cache) = None ->
    answer script1 = Some (a, t) ->
    (CACHE_TTL <= now2 - t)%Z ->
    let first := route text mem doc now1 cache script1 in
    let second := route text mem doc now2 (cacheAfter first) script2 in
    hitReply (routeRequest text mem doc now2 (cacheAfter first)) = None
    /\ exists req rest, calls second = req :: rest /\ modelOf req = primaryModel text doc.
Proof.
  intros text mem doc now1 cache script1 a t now2 script2 Hmiss Hanswer Hold first second.
  destruct (route_stores_answer text mem doc now1 cache script1 a t Hmiss Hanswer) as [_ Hget].
  fold first in Hget.
  assert (Hmiss2 : hitReply (routeRequest text mem doc now2 (cacheAfter first)) = None).
  { apply lookup_none_is_miss. unfold getCachedResponse. rewrite Hget. cbn [timestamp].
    apply Z.ltb_ge in Hold. now rewrite Hold. }
  split; [exact Hmiss2|]. apply miss_asks_primary, Hmiss2.
Qed.

Lemma expired_reply_is_fetched_again_witness :
  hitReply (routeRequest "Hi there" EmptyString None 0 []) = None
  /\ answer [(Resolved "Hello!", 5%Z)] = Some ("Hello!", 5%Z)
  /\ (CACHE_TTL <= 300005 - 5)%Z
  /\ hitReply (routeRequest "Hi there" EmptyString None 300005
                 (cacheAfter (route "Hi there" EmptyString None 0 [] [(Resolved "Hello!", 5%Z)])))
     = None.
Proof.
  assert (Hmiss : hitReply (routeRequest "Hi there" EmptyString None 0 []) = None)
    by (vm_compute; reflexivity).
  assert (Hold : (CACHE_TTL <= 300005 - 5)%Z) by (vm_compute; discriminate).
  refine (conj Hmiss (conj eq_refl (conj Hold _))).
  exact (proj1 (expired_reply_is_fetched_again "Hi there" EmptyString None 0%Z []
                  [(Resolved "Hello!", 5%Z)] "Hello!" 5%Z 300005%Z [] Hmiss eq_refl Hold)).
Defined.

Lemma mapGet_filter key e (keep : Entry -> bool) cache :
  mapGet key cache = Some e -> keep e = true ->
  mapGet key (filter (fun kv => keep (snd kv)) cache) = Some e.
Proof.
  induction cache as [|[k v] rest IH]; cbn; [discriminate|].
  destruct (String.eqb k key) eqn:Hk.
  - intros [= ->] Hkeep. rewrite Hkeep. cbn. now rewrite Hk.
  - intros Hget Hkeep. destruct (keep v); cbn; [rewrite Hk|]; now apply IH.
Qed.

(** X3. The sweep removes nothing that a lookup at the same moment would
    serve; every entry it leaves is at most one lifetime old, and the cache
    does not grow. *)
Theorem sweep_keeps_what_lookup_serves :
  forall (now : Z) (cache : Cache),
    (forall key reply,
        fst (getCachedResponse now key cache) = Some reply ->
        fst (getCachedResponse now key (cleanup now cache)) = Some reply)
    /\ Forall (fun kv => (now - timestamp (snd kv) <= CACHE_TTL)%Z) (cleanup now cache)
    /\ mapSize (cleanup now cache) <= mapSize cache.
Proof.
  intros now cache. split; [|split].
  - intros key reply Hserved. unfold getCachedResponse in *.
    destruct (mapGet key cache) as [e|] eqn:Hget; [|discriminate].
    destruct (now - timestamp e <? CACHE_TTL)%Z eqn:Hfresh; [|discriminate].
    cbn in Hserved. injection Hserved as <-.
    unfold cleanup.
    rewrite (mapGet_filter key e (fun v => negb (CACHE_TTL <? now - timestamp v)%Z) cache Hget).
    + now rewrite Hfresh.
    + apply Z.ltb_lt in Hfresh. apply negb_true_iff, Z.ltb_ge. lia.
  - unfold cleanup. apply Forall_forall. intros kv Hin. apply filter_In in Hin.
    destruct Hin as [_ Hkeep]. apply negb_true_iff, Z.ltb_ge in Hkeep. exact Hkeep.
  - unfold cleanup, mapSize. apply filter_length_le.
Qed.

Lemma sweep_keeps_what_lookup_serves_witness :
  fst (getCachedResponse 1000 "a" [("b", {| response := "Old"; timestamp := (-400000)%Z |});
                                   ("a", {| response := "Hello!"; timestamp := 0%Z |})])
  = Some "Hello!"
  /\ fst (getCachedResponse 1000 "a"
            (cleanup 1000 [("b", {| response := "Old"; timestamp := (-400000)%Z |});
                           ("a", {| response := "Hello!"; timestamp := 0%Z |})]))
     = Some "Hello!"
  /\ Forall (fun kv => (1000 - timestamp (snd kv) <= CACHE_TTL)%Z)
       (cleanup 1000 [("b", {| response := "Old"; timestamp := (-400000)%Z |});
                      ("a", {| response := "Hello!"; timestamp := 0%Z |})])
  /\ cleanup 1000 [("b", {| response := "Old"; timestamp := (-400000)%Z |});
                   ("a", {| response := "Hello!"; timestamp := 0%Z |})]
     = [("a", {| response := "Hello!"; timestamp := 0%Z |})].
Proof.
  refine (conj eq_refl _).
  destruct (sweep_keeps_what_lookup_serves 1000%Z
              [("b", {| response := "Old"; timestamp := (-400000)%Z |});
               ("a", {| response := "Hello!"; timestamp := 0%Z |})])
    as (Hserved & Hyoung & _).
  exact (conj (Hserved "a" "Hello!" eq_refl) (conj Hyoung eq_refl)).
Defined.


(** X4. Whatever the backends do, the only errors [routeRequest] lets out
    are cancellations. *)
Theorem routeRequest_throws_only_cancellation :
  forall (text mem : string) (doc : option string) (now : Z) (cache : Cache)
         (script : list (Outcome * Z)) (e : JsError),
    result (route text mem doc now cache script) = Some (Thrown e) ->
    isAbort e = true.
Proof.
  intros text mem doc now cache script e.
  destruct (hitReply (routeRequest text mem doc now cache)) as [hit|] eqn:Hhit.
  - unfold route. destruct (routeRequest text mem doc now cache); discriminate.
  - destruct (routeRequest_miss _ _ _ _ _ Hhit) as (call & p & sp & cache' & Hroute & Hcall).
    unfold route. rewrite Hroute.
    destruct (run_tryPrimary call p sp (getCacheKey text mem (hasContent doc)) cache'
                (primaryModel text doc) Hcall)
      as (req & Hmodel & Hnone & Hok & Habort & Hwait & Hback & Hfail).
    destruct script as [|[[a|e1] t] rest].
    + rewrite Hnone. discriminate.
    + rewrite Hok. discriminate.
    + destruct (isAbort e1) eqn:He.
      * rewrite (Habort e1 t rest He). cbn. intros [= <-]. exact He.
      * destruct rest as [|[[a|e2] t'] rest].
        -- rewrite (Hwait e1 t He). discriminate.
        -- rewrite (Hback e1 t a t' rest He). discriminate.
        -- rewrite (Hfail e1 t e2 t' rest He). cbn.
           destruct (isAbort e2) eqn:He2; [|discriminate]. intros [= <-]. exact He2.
Qed.

Lemma routeRequest_throws_only_cancellation_witness :
  result (route "Hi there" EmptyString None 0 [] [(Rejected abortError, 1%Z)])
  = Some (Thrown abortError)
  /\ isAbort abortError = true.
Proof.
  assert (Hthrown : result (route "Hi there" EmptyString None 0 [] [(Rejected abortError, 1%Z)])
                    = Some (Thrown abortError)) by (vm_compute; reflexivity).
  refine (conj Hthrown _).
  exact (routeRequest_throws_only_cancellation "Hi there" EmptyString None 0%Z []
           [(Rejected abortError, 1%Z)] abortError Hthrown).
Defined.

(** X5. When the primary backend and then the fallback fail with errors that
    are no cancellations, the call answers with the fixed apology after
    exactly these two requests and stores nothing: the cache is as the
    lookup left it. *)
Theorem both_backends_failing_gives_the_apology :
  forall (text mem : string) (doc : option string) (now : Z) (cache : Cache)
         (e1 e2 : JsError) (t1 t2 : Z) (rest : list (Outcome * Z)),
    hitReply (routeRequest text mem doc now cache) = None ->
    isAbort e1 = false ->
    isAbort e2 = false ->
    let r := route text mem doc now cache ((Rejected e1, t1) :: (Rejected e2, t2) :: rest) in
    result r = Some (Returned apology)
    /\ map modelOf (calls r) = [primaryModel text doc; Fallback]
    /\ cacheAfter r = snd (getCachedResponse now (getCacheKey text mem (hasContent doc)) cache).
Proof.
  intros text mem doc now cache e1 e2 t1 t2 rest Hmiss He1 He2 r. subst r.
  destruct (routeRequest_miss_cache _ _ _ _ _ Hmiss) as (call & p & sp & Hroute & Hcall).
  unfold route. rewrite Hroute.
  destruct (run_tryPrimary call p sp (getCacheKey text mem (hasContent doc))
              (snd (getCachedResponse now (getCacheKey text mem (hasContent doc)) cache))
              (primaryModel text doc) Hcall)
    as (req & Hmodel & _ & _ & _ & _ & _ & Hfail).
  rewrite (Hfail e1 t1 e2 t2 rest He1). cbn [result calls cacheAfter map modelOf].
  rewrite He2, Hmodel. auto.
Qed.

Lemma both_backends_failing_gives_the_apology_witness :
  hitReply (routeRequest "Hi there" EmptyString None 0 []) = None
  /\ isAbort quotaError = false
  /\ result (route "Hi there" EmptyString None 0 []
               [(Rejected quotaError, 1%Z); (Rejected quotaError, 2%Z)])
     = Some (Returned apology).
Proof.
  assert (Hmiss : hitReply (routeRequest "Hi there" EmptyString None 0 []) = None)
    by (vm_compute; reflexivity).
  refine (conj Hmiss (conj eq_refl _)).
  exact (proj1 (both_backends_failing_gives_the_apology "Hi there" EmptyString None 0%Z []
                  quotaError quotaError 1%Z 2%Z [] Hmiss eq_refl eq_refl)).
Defined.

(** *** The shape of the key *)

Lemma length_take n : forall s, String.length (take n s) = Nat.min n (String.length s).
Proof.
  unfold take. induction n as [|n IH]; intros [|c r]; cbn; auto.
Qed.

Lemma sforall_take p n : forall s, sforall p s = true -> sforall p (take n s) = true.
Proof.
  unfold take. induction n as [|n IH]; intros [|c r]; cbn; auto.
  intros H. apply andb_true_iff in H. destruct H as [-> H]. cbn. auto.
Qed.

Lemma length_leBytes n : forall x, List.length (Md5.leBytes n x) = n.
Proof. induction n as [|n IH]; intros x; cbn; auto. Qed.

Lemma leBytes_small n : forall x, Forall (fun b => (b < 256)%N) (Md5.leBytes n x).
Proof.
  induction n as [|n IH]; intros x; cbn [Md5.leBytes]; constructor; [|apply IH].
  change 255%N with (N.ones 8). rewrite N.land_ones. now apply N.mod_lt.
Qed.

Lemma hexDigit_hex n : (n < 16)%N -> isHexDigit (Md5.hexDigit n) = true.
Proof.
  intros Hn.
  assert (Hcases : In n [0; 1; 2; 3; 4; 5; 6; 7; 8; 9; 10; 11; 12; 13; 14; 15]%N).
  { cbn. lia. }
  cbn in Hcases.
  repeat (destruct Hcases as [<- | Hcases]; [vm_compute; reflexivity|]).
  contradiction.
Qed.

Lemma hexBytes_hex bs :
  Forall (fun b => (b < 256)%N) bs ->
  String.length (Md5.hexBytes bs) = 2 * List.length bs
  /\ sforall isHexDigit (Md5.hexBytes bs) = true.
Proof.
  induction 1 as [|b bs Hb _ [IHlen IHhex]]; [split; reflexivity|].
  cbn [Md5.hexBytes String.length List.length sforall]. split; [lia|].
  rewrite IHhex, !hexDigit_hex; [reflexivity| |].
  - change 15%N with (N.ones 4). rewrite N.land_ones. now apply N.mod_lt.
  - rewrite N.shiftr_div_pow2. apply N.Div0.div_lt_upper_bound. cbn. lia.
Qed.

Lemma digestHex_hex s :
  String.length (Md5.digestHex s) = 32 /\ sforall isHexDigit (Md5.digestHex s) = true.
Proof.
  unfold Md5.digestHex.
  destruct (Md5.blocks _ _ _) as [[[a b] c] d].
  destruct (hexBytes_hex (Md5.leBytes 4 a ++ Md5.leBytes 4 b ++ Md5.leBytes 4 c ++ Md5.leBytes 4 d))
    as [Hlen Hhex].
  - repeat (apply Forall_app; split); apply leBytes_small.
  - rewrite Hlen, !length_app, !length_leBytes. auto.
Qed.

(** X6. A cache key is sixteen lower-case hexadecimal digits, whatever the
    text. *)
Theorem cache_key_is_sixteen_hex_digits :
  forall (text memoryContext : string) (hasDocument : bool),
    String.length (getCacheKey text memoryContext hasDocument) = 16
    /\ sforall isHexDigit (getCacheKey text memoryContext hasDocument) = true.
Proof.
  intros text mem d. unfold getCacheKey.
  match goal with |- context [Md5.digestHex ?s] => destruct (digestHex_hex s) as [Hlen Hhex] end.
  split.
  - rewrite length_take, Hlen. reflexivity.
  - apply sforall_take, Hhex.
Qed.

(** X7. Texts that agree once lower-cased, trimmed and stripped of
    everything but word characters and whitespace share a cache entry when
    their document flags agree: after a call for one was answered with a
    reply that is not empty once cleaned, a call for the other within the
    lifetime returns that reply and asks no backend, whatever its memory
    snippet. *)
Theorem lookalike_query_is_served_from_cache :
  forall (text text' mem mem' : string) (doc doc' : option string) (now1 : Z) (cache : Cache)
         (script1 : list (Outcome * Z)) (a : string) (t : Z)
         (now2 : Z) (script2 : list (Outcome * Z)),
    normalized text' = normalized text ->
    hasContent doc' = hasContent doc ->
    hitReply (routeRequest text mem doc now1 cache) = None ->
    answer script1 = Some (a, t) ->
    truthy (cleanResponse (trim a)) = true ->
    (now2 - t < CACHE_TTL)%Z ->
    let first := route text mem doc now1 cache script1 in
    let second := route text' mem' doc' now2 (cacheAfter first) script2 in
    result second = Some (Returned (cleanResponse (trim a)))
    /\ calls second = [].
Proof.
  intros text text' mem mem' doc doc' now1 cache script1 a t now2 script2
         Hsame Hdoc Hmiss Hanswer Hreply Hfresh first second.
  destruct (route_stores_answer text mem doc now1 cache script1 a t Hmiss Hanswer) as [_ Hget].
  fold first in Hget.
  assert (Hkey : getCacheKey text' mem' (hasContent doc') = getCacheKey text mem (hasContent doc)).
  { unfold getCacheKey. fold (normalized text'). fold (normalized text). now rewrite Hsame, Hdoc. }
  rewrite <- Hkey in Hget. subst second.
  rewrite (route_hit _ _ _ _ _ _ script2 Hget Hfresh Hreply). cbn. auto.
Qed.

Lemma lookalike_query_is_served_from_cache_witness :
  normalized "what is c" = normalized "What is C++?"
  /\ hasContent None = hasContent None
  /\ hitReply (routeRequest "What is C++?" EmptyString None 0 []) = None
  /\ answer [(Resolved "A language.", 5%Z)] = Some ("A language.", 5%Z)
  /\ truthy (cleanResponse (trim "A language.")) = true
  /\ (10 - 5 < CACHE_TTL)%Z
  /\ result (route "what is c" "User: Ann" None 10
               (cacheAfter (route "What is C++?" EmptyString None 0 []
                              [(Resolved "A language.", 5%Z)]))
               [(Resolved "A letter.", 12%Z)])
     = Some (Returned (cleanResponse (trim "A language."))).
Proof.
  assert (Hsame : normalized "what is c" = normalized "What is C++?") by (vm_compute; reflexivity).
  assert (Hmiss : hitReply (routeRequest "What is C++?" EmptyString None 0 []) = None)
    by (vm_compute; reflexivity).
  assert (Hfresh : (10 - 5 < CACHE_TTL)%Z) by (vm_compute; reflexivity).
  refine (conj Hsame (conj eq_refl (conj Hmiss (conj eq_refl (conj eq_refl (conj Hfresh _)))))).
  exact (proj1 (lookalike_query_is_served_from_cache "What is C++?" "what is c" EmptyString
                  "User: Ann" None None 0%Z [] [(Resolved "A language.", 5%Z)] "A language." 5%Z
                  10%Z [(Resolved "A letter.", 12%Z)] Hsame eq_refl Hmiss eq_refl eq_refl Hfresh)).
Defined.

(** *** Intent and backend *)

(** X8. If the first request of a call goes to the fast backend, the query
    was classed simple and was no document query. *)
Theorem fast_backend_only_for_simple_queries :
  forall (text mem : string) (doc : option string) (now : Z) (cache : Cache)
         (script : list (Outcome * Z)) (req : Request) (rest : list Request),
    calls (route text mem doc now cache script) = req :: rest ->
    modelOf req = Flash ->
    complexity (classifyIntent text) = simple
    /\ isDocumentQuery (classifyIntent text) text doc = false.
Proof.
  intros text mem doc now cache script req rest Hcalls Hflash.
  destruct (hitReply (routeRequest text mem doc now cache)) as [hit|] eqn:Hhit.
  - unfold route in Hcalls. destruct (routeRequest text mem doc now cache); discriminate.
  - destruct (miss_asks_primary text mem doc now cache script Hhit) as (req' & rest' & Hcalls' & Hmodel).
    rewrite Hcalls in Hcalls'. injection Hcalls' as <- <-.
    rewrite Hflash in Hmodel. revert Hmodel. unfold primaryModel.
    destruct (isDocumentQuery (classifyIntent text) text doc); [discriminate|].
    intros Hmodel. split; [|reflexivity].
    revert Hmodel. unfold classifyIntent.
    repeat match goal with
           | |- context [if ?b then _ else _] => destruct b
           end; cbn; congruence.
Qed.

Lemma fast_backend_only_for_simple_queries_witness :
  calls (route "Hi there" EmptyString None 0 [] []) 
  = [GeminiFlash (getSystemPrompt (classifyIntent "Hi there") false false +++ nl +++ nl +++
                  userPrompt EmptyString "Hi there" "Respond warmly in 20-40 words (2-3 sentences).")]
  /\ complexity (classifyIntent "Hi there") = simple.
Proof.
  assert (Hcalls : calls (route "Hi there" EmptyString None 0 [] [])
     = [GeminiFlash (getSystemPrompt (classifyIntent "Hi there") false false +++ nl +++ nl +++
                  userPrompt EmptyString "Hi there" "Respond warmly in 20-40 words (2-3 sentences).")])
    by (vm_compute; reflexivity).
  refine (conj Hcalls _).
  exact (proj1 (fast_backend_only_for_simple_queries "Hi there" EmptyString None 0%Z [] [] _ _
                  Hcalls eq_refl)).
Defined.

End CacheFacts.

(** ** Synthesis: what the sanitizer, the chunker and the streamer guarantee *)

Section StreamFacts.
Import Js Tts Vocabulary Playback.

Lemma sforall_collapse p s : forall inRun,
  p " "%char = true -> sforall p s = true -> sforall p (collapseGo inRun s) = true.
Proof.
  induction s as [|c r IH]; intros inRun Hsp; cbn; [reflexivity|].
  rewrite andb_true_iff. intros [Hc Hr].
  destruct (isSpace c); [destruct inRun|]; cbn [sforall]; rewrite ?Hsp, ?Hc; cbn [andb];
    apply IH; assumption.
Qed.

Lemma sforall_filtered p keep s :
  sforall p s = true -> sforall (fun c => keep c && p c) (sfilter keep s) = true.
Proof.
  induction s as [|c r IH]; cbn; [reflexivity|].
  rewrite andb_true_iff. intros [Hc Hr].
  destruct (keep c) eqn:Hk; cbn; [rewrite Hk, Hc|]; auto.
Qed.

Lemma sforall_weaken (p q : ascii -> bool) s :
  (forall c, p c = true -> q c = true) -> sforall p s = true -> sforall q s = true.
Proof.
  intros Hpq. induction s as [|c r IH]; cbn; [reflexivity|].
  rewrite !andb_true_iff. intros [Hc Hr]. auto.
Qed.

Lemma sforall_stripSelfPrefix p s : sforall p s = true -> sforall p (stripSelfPrefix s) = true.
Proof.
  intros H. unfold stripSelfPrefix.
  destruct (startsWithBy foldChar "gyaanchand:" s); [|exact H].
  now apply sforall_drop, sforall_drop.
Qed.

(** X9. The sanitized text holds no control character, no backtick and no
    guillemet. *)
Theorem sanitized_text_is_speakable :
  forall text : string, sforall speakable (sanitizeForTTS text) = true.
Proof.
  intros text. unfold sanitizeForTTS. destruct (negb (truthy text)); [reflexivity|].
  set (noGuillemet := fun c : ascii => negb (code c =? 171) && negb (code c =? 187)).
  set (noTick := fun c : ascii => negb (Ascii.eqb c "`"%char) && noGuillemet c).
  assert (H1 : sforall noGuillemet (normalizeApostrophes (normalizeQuotes text)) = true).
  { unfold normalizeApostrophes. apply sforall_smap.
    - intros c Hc. destruct (Ascii.eqb c "'"); [reflexivity|exact Hc].
    - unfold normalizeQuotes. clear. induction text as [|c r IH]; cbn; [reflexivity|].
      rewrite IH, andb_true_r. subst noGuillemet. cbv beta.
      destruct (Ascii.eqb c dquote); [reflexivity|]. cbn [orb].
      destruct (code c =? 171) eqn:H171; [reflexivity|]. cbn [orb].
      destruct (code c =? 187) eqn:H187; [reflexivity|]. now rewrite H171, H187. }
  assert (H2 : sforall noTick
                 (removeBackticks (removeBold (normalizeApostrophes (normalizeQuotes text)))) = true).
  { unfold removeBackticks. apply sforall_filtered.
    eapply sforall_removeBold; [apply Nat.le_refl|exact H1]. }
  assert (H3 : sforall noTick
                 (trim (collapseSpaces (stripSelfPrefix
                    (removeBackticks (removeBold (normalizeApostrophes (normalizeQuotes text)))))))
               = true).
  { unfold trim, collapseSpaces.
    apply sforall_trimEnd, sforall_trimStart, sforall_collapse; [reflexivity|].
    apply sforall_stripSelfPrefix, H2. }
  unfold removeControl.
  eapply sforall_weaken; [|apply sforall_filtered, H3].
  intros c. unfold speakable, noTick, noGuillemet. cbv beta.
  rewrite !andb_true_iff. intros (-> & -> & -> & ->). auto.
Qed.

(** *** Chunks *)

Lemma pushIf_truthy chunks current :
  forallb truthy chunks = true -> forallb truthy (pushIf chunks current) = true.
Proof.
  intros H. unfold pushIf. destruct (truthy current) eqn:Hc; [|exact H].
  rewrite forallb_app, H. cbn. now rewrite Hc.
Qed.

Lemma partStep_truthy st p :
  forallb truthy (fst st) = true -> forallb truthy (fst (partStep st p)) = true.
Proof.
  destruct st as [chunks current]. unfold partStep.
  destruct (String.length (trim (current +++ " " +++ p)) <=? limit); cbn [fst]; [auto|].
  apply pushIf_truthy.
Qed.

Lemma parts_truthy parts : forall st,
  forallb truthy (fst st) = true -> forallb truthy (fst (fold_left partStep parts st)) = true.
Proof.
  induction parts as [|p parts IH]; intros st H; cbn [fold_left]; [exact H|].
  apply IH, partStep_truthy, H.
Qed.

Lemma sentenceStep_truthy st s :
  forallb truthy (fst st) = true -> forallb truthy (fst (sentenceStep st s)) = true.
Proof.
  destruct st as [chunks current]. unfold sentenceStep. cbn [fst]. intros H.
  match goal with |- context [if ?b then _ else _] => destruct b end; [exact H|].
  destruct (String.length s <=? limit); [apply pushIf_truthy, H|].
  apply parts_truthy. cbn [fst]. apply pushIf_truthy, H.
Qed.

Lemma sentences_truthy ss : forall st,
  forallb truthy (fst st) = true -> forallb truthy (fst (fold_left sentenceStep ss st)) = true.
Proof.
  induction ss as [|s ss IH]; intros st H; cbn [fold_left]; [exact H|].
  apply IH, sentenceStep_truthy, H.
Qed.

(** X10. No chunk that the chunker returns is empty. *)
Theorem chunks_are_never_empty :
  forall text : string, forallb truthy (splitIntoChunks text) = true.
Proof.
  intros text. unfold splitIntoChunks.
  destruct (negb (truthy (sanitizeForTTS text))); [reflexivity|].
  pose proof (sentences_truthy (sentencesOf (sanitizeForTTS text)) ([], EmptyString) eq_refl) as H.
  destruct (fold_left sentenceStep (sentencesOf (sanitizeForTTS text)) ([], EmptyString))
    as [chunks current].
  apply pushIf_truthy, H.
Qed.

Lemma length_append a b : String.length (a +++ b) = String.length a + String.length b.
Proof. induction a as [|c r IH]; cbn; [reflexivity|now rewrite IH]. Qed.

Lemma join_merge a b rest : join " " ((a +++ " " +++ b) :: rest) = join " " (a :: b :: rest).
Proof.
  destruct rest as [|c rest]; [reflexivity|].
  change (join " " ((a +++ " " +++ b) :: c :: rest))
    with ((a +++ " " +++ b) +++ " " +++ join " " (c :: rest)).
  change (join " " (a :: b :: c :: rest))
    with (a +++ " " +++ b +++ " " +++ join " " (c :: rest)).
  now rewrite !append_assoc.
Qed.

Lemma length_join_head a rest : String.length a <= String.length (join " " (a :: rest)).
Proof.
  destruct rest as [|b rest]; [apply Nat.le_refl|].
  change (join " " (a :: b :: rest)) with (a +++ " " +++ join " " (b :: rest)).
  rewrite length_append. lia.
Qed.

(** While everything fits, the sentences gather in [current]. *)
Lemma gather_short ss : forall current,
  truthy current = true ->
  String.length (join " " (current :: ss)) <= limit ->
  fold_left sentenceStep ss ([], current) = ([], join " " (current :: ss)).
Proof.
  induction ss as [|s ss IH]; intros current Hcur Hlen; [reflexivity|].
  cbn [fold_left]. unfold sentenceStep at 2. rewrite Hcur.
  rewrite <- join_merge in Hlen.
  pose proof (length_join_head (current +++ " " +++ s) ss) as Hhead.
  assert (Hfit : (String.length (current +++ " " +++ s) <=? limit) = true)
    by (apply Nat.leb_le; lia).
  rewrite Hfit, IH; [now rewrite join_merge| |exact Hlen].
  destruct current; [discriminate|reflexivity].
Qed.

(** X11. A text free of stray control characters whose sanitized form is not
    empty and at most [limit] long is one chunk, its sanitized form. *)
Theorem short_reply_is_one_chunk :
  forall text : string,
    plainText text = true ->
    truthy (sanitizeForTTS text) = true ->
    String.length (sanitizeForTTS text) <= limit ->
    splitIntoChunks text = [sanitizeForTTS text].
Proof.
  intros text Hplain Htruthy Hlen. unfold splitIntoChunks. rewrite Htruthy. cbn [negb].
  destruct (sentencesOf_rejoin (sanitizeForTTS text) (sanitize_tidy text Hplain) Htruthy)
    as [Hjoin Hall].
  destruct (sentencesOf (sanitizeForTTS text)) as [|s ss].
  - cbn in Hjoin. rewrite <- Hjoin in Htruthy. discriminate.
  - cbn [forallb] in Hall. apply andb_true_iff in Hall. destruct Hall as [Hs _].
    cbn [fold_left]. unfold sentenceStep at 2. cbn [truthy].
    rewrite <- Hjoin in Hlen.
    pose proof (length_join_head s ss) as Hhead.
    assert (Hfit : (String.length s <=? limit) = true) by (apply Nat.leb_le; lia).
    rewrite Hfit, (gather_short ss s Hs Hlen), Hjoin.
    unfold pushIf. now rewrite Htruthy.
Qed.

Lemma short_reply_is_one_chunk_witness :
  plainText "Hello **there**.  How are you?" = true
  /\ truthy (sanitizeForTTS "Hello **there**.  How are you?") = true
  /\ String.length (sanitizeForTTS "Hello **there**.  How are you?") <= limit
  /\ splitIntoChunks "Hello **there**.  How are you?" = ["Hello there. How are you?"].
Proof.
  assert (Hlen : String.length (sanitizeForTTS "Hello **there**.  How are you?") <= limit)
    by (vm_compute; lia).
  refine (conj eq_refl (conj eq_refl (conj Hlen _))).
  exact (short_reply_is_one_chunk "Hello **there**.  How are you?" eq_refl eq_refl Hlen).
Defined.


(** *** The streamer run to its end *)

Lemma throughGap_loopHead cs ready st :
  throughGap cs ready (loopHead cs ready st) = ([], loopHead cs ready st).
Proof.
  unfold loopHead. destruct (index st <? List.length (chunks st)); [|reflexivity].
  destruct (Abort.signalAborted cs (signal st)); reflexivity.
Qed.

(** One generation settles while the stream is neither aborted nor cut off:
    the loop goes on with the next chunk, a frame sent or not. *)
Lemma generation_settled cs st g gs :
  Abort.signalAborted cs (signal st) = false ->
  settled g = true ->
  drive (g :: gs) cs true (Suspend (AwaitGenerate st))
  = (let '(ms, step) := drive gs cs true
                          (loopHead cs true
                             {| chunks := chunks st; index := S (index st);
                                sent := (match g with Generated _ => S (sent st) | _ => sent st end);
                                signal := signal st; voiceId := voiceId st |}) in
     (frames [g] ++ ms, step)).
Proof.
  intros Hlive Hg. cbn [drive]. unfold resumeGenerate.
  destruct g as [audio| |message]; [|discriminate|].
  - rewrite Hlive. cbn [countSent index chunks].
    destruct (index st <? List.length (chunks st) - 1).
    + cbn [throughGap]. unfold resumeGap, nextChunk. cbn [chunks index sent signal voiceId].
      destruct (drive gs cs true _) as [ms step]. reflexivity.
    + rewrite throughGap_loopHead. unfold nextChunk. cbn [chunks index sent signal voiceId].
      destruct (drive gs cs true _) as [ms step]. reflexivity.
  - rewrite throughGap_loopHead. unfold nextChunk.
    destruct (drive gs cs true _) as [ms step]. reflexivity.
Qed.

Lemma frames_app gs gs' : frames (gs ++ gs') = frames gs ++ frames gs'.
Proof.
  induction gs as [|[audio| |message] gs IH]; cbn; [reflexivity| | |]; now rewrite ?IH.
Qed.

Lemma drive_to_the_end cs gs : forall st,
  Abort.signalAborted cs (signal st) = false ->
  forallb settled gs = true ->
  index st + List.length gs = List.length (chunks st) ->
  drive gs cs true (loopHead cs true st) = (frames gs, Finished true).
Proof.
  induction gs as [|g gs IH]; intros st Hlive Hgs Hcount.
  - unfold loopHead. cbn [List.length] in Hcount.
    replace (index st <? List.length (chunks st)) with false
      by (symmetry; apply Nat.ltb_ge; lia).
    reflexivity.
  - cbn [forallb] in Hgs. apply andb_true_iff in Hgs. destruct Hgs as [Hg Hgs].
    cbn [List.length] in Hcount. unfold loopHead at 1.
    replace (index st <? List.length (chunks st)) with true
      by (symmetry; apply Nat.ltb_lt; lia).
    rewrite Hlive, (generation_settled cs st g gs Hlive Hg), IH;
      [| exact Hlive | exact Hgs | cbn [index chunks]; lia ].
    change (g :: gs) with ([g] ++ gs). now rewrite frames_app.
Qed.

Lemma drive_finished gs cs ready armed : drive gs cs ready (Finished armed) = ([], Finished armed).
Proof. destruct gs; reflexivity. Qed.

Lemma drive_to_the_cancellation cs pre post : forall st,
  Abort.signalAborted cs (signal st) = false ->
  forallb settled pre = true ->
  index st + List.length pre < List.length (chunks st) ->
  drive (pre ++ Canceled :: post) cs true (loopHead cs true st) = (frames pre, Finished false).
Proof.
  induction pre as [|g pre IH]; intros st Hlive Hpre Hcount.
  - cbn [List.length] in Hcount. unfold loopHead.
    replace (index st <? List.length (chunks st)) with true
      by (symmetry; apply Nat.ltb_lt; lia).
    rewrite Hlive. cbn [app drive]. unfold resumeGenerate, afterLoop. cbn [andb negb throughGap].
    rewrite drive_finished. reflexivity.
  - cbn [forallb] in Hpre. apply andb_true_iff in Hpre. destruct Hpre as [Hg Hpre].
    cbn [List.length] in Hcount. unfold loopHead at 1.
    replace (index st <? List.length (chunks st)) with true
      by (symmetry; apply Nat.ltb_lt; lia).
    rewrite Hlive. cbn [app].
    rewrite (generation_settled cs st g _ Hlive Hg), IH;
      [| exact Hlive | exact Hpre | cbn [index chunks]; lia ].
    change (g :: pre) with ([g] ++ pre). now rewrite frames_app.
Qed.

Lemma truthy_trim text : truthy (trim text) = true -> truthy text = true.
Proof. destruct text; [discriminate|reflexivity]. Qed.

(** The first segment of a stream that has something to say. *)
Lemma stream_starts text signal voiceId cs ready :
  truthy (trim text) = true ->
  splitIntoChunks (sanitizeForTTS text) <> [] ->
  exists st,
    murfStreamSentences text signal voiceId cs ready = ([], loopHead cs ready st)
    /\ chunks st = splitIntoChunks (sanitizeForTTS text)
    /\ index st = 0 /\ Tts.signal st = signal.
Proof.
  intros Htext Hchunks. unfold murfStreamSentences.
  rewrite Htext, (truthy_trim text Htext). cbn [negb orb].
  destruct (splitIntoChunks (sanitizeForTTS text)) as [|chunk rest]; [contradiction|].
  cbn [List.length Nat.eqb]. eexists. split; [reflexivity|]. cbn. auto.
Qed.

(** X12. With the socket open and the signal not aborted, when every
    synthesis call of a text settles, with audio or with an error, the
    streamer sends exactly the audio of the calls that succeeded, in order,
    and arms the [tts_end] timer. *)
Theorem stream_sends_every_generated_chunk :
  forall (text : string) (signal : option nat) (voiceId : string)
         (cs : Abort.Controllers) (gs : list Generation),
    truthy (trim text) = true ->
    Abort.signalAborted cs signal = false ->
    forallb settled gs = true ->
    List.length gs = List.length (splitIntoChunks (sanitizeForTTS text)) ->
    0 < List.length gs ->
    stream text signal voiceId cs true gs = (frames gs, Finished true).
Proof.
  intros text signal voiceId cs gs Htext Hlive Hgs Hcount Hsome.
  destruct (stream_starts text signal voiceId cs true Htext) as (st & Hstart & Hchunks & Hindex & Hsig).
  { intros Hnone. rewrite Hnone in Hcount. cbn in Hcount. lia. }
  unfold stream. rewrite Hstart, drive_to_the_end; [reflexivity| | |].
  - now rewrite Hsig.
  - exact Hgs.
  - rewrite Hindex, Hchunks. cbn. exact Hcount.
Qed.

Lemma stream_sends_every_generated_chunk_witness :
  truthy (trim commaReply) = true
  /\ Abort.signalAborted [false] (Some 0) = false
  /\ forallb settled [Failed "timeout"; Generated "mp3"] = true
  /\ List.length [Failed "timeout"; Generated "mp3"]
     = List.length (splitIntoChunks (sanitizeForTTS commaReply))
  /\ 0 < List.length [Failed "timeout"; Generated "mp3"]
  /\ stream commaReply (Some 0) defaultVoice [false] true [Failed "timeout"; Generated "mp3"]
     = ([Ws.Audio "mp3"], Finished true).
Proof.
  assert (Hcount : List.length [Failed "timeout"; Generated "mp3"]
                   = List.length (splitIntoChunks (sanitizeForTTS commaReply)))
    by (vm_compute; reflexivity).
  assert (Hsome : 0 < List.length [Failed "timeout"; Generated "mp3"]) by (cbn; lia).
  refine (conj eq_refl (conj eq_refl (conj eq_refl (conj Hcount (conj Hsome _))))).
  exact (stream_sends_every_generated_chunk commaReply (Some 0) defaultVoice [false]
           [Failed "timeout"; Generated "mp3"] eq_refl eq_refl eq_refl Hcount Hsome).
Defined.

(** X13. A synthesis call that is cancelled ends the stream: the audio of
    the calls before it has been sent, nothing follows, and no [tts_end]
    timer is armed. *)
Theorem cancelled_generation_ends_the_stream :
  forall (text : string) (signal : option nat) (voiceId : string)
         (cs : Abort.Controllers) (pre post : list Generation),
    truthy (trim text) = true ->
    Abort.signalAborted cs signal = false ->
    forallb settled pre = true ->
    List.length pre < List.length (splitIntoChunks (sanitizeForTTS text)) ->
    stream text signal voiceId cs true (pre ++ Canceled :: post) = (frames pre, Finished false).
Proof.
  intros text signal voiceId cs pre post Htext Hlive Hpre Hcount.
  destruct (stream_starts text signal voiceId cs true Htext) as (st & Hstart & Hchunks & Hindex & Hsig).
  { intros Hnone. rewrite Hnone in Hcount. cbn in Hcount. lia. }
  unfold stream. rewrite Hstart, drive_to_the_cancellation; [reflexivity| | |].
  - now rewrite Hsig.
  - exact Hpre.
  - rewrite Hindex, Hchunks. cbn. exact Hcount.
Qed.

Lemma cancelled_generation_ends_the_stream_witness :
  truthy (trim commaReply) = true
  /\ Abort.signalAborted [false] (Some 0) = false
  /\ forallb settled [Generated "mp3"] = true
  /\ List.length [Generated "mp3"] < List.length (splitIntoChunks (sanitizeForTTS commaReply))
  /\ stream commaReply (Some 0) defaultVoice [false] true
       ([Generated "mp3"] ++ Canceled :: [Generated "never"])
     = ([Ws.Audio "mp3"], Finished false).
Proof.
  assert (Hcount : List.length [Generated "mp3"]
                   < List.length (splitIntoChunks (sanitizeForTTS commaReply)))
    by (vm_compute; lia).
  refine (conj eq_refl (conj eq_refl (conj eq_refl (conj Hcount _)))).
  exact (cancelled_generation_ends_the_stream commaReply (Some 0) defaultVoice [false]
           [Generated "mp3"] [Generated "never"] eq_refl eq_refl eq_refl Hcount).
Defined.

Lemma drive_cut_off cs gs : forall st,
  fst (drive gs cs false (loopHead cs false st)) = []
  /\ snd (drive gs cs false (loopHead cs false st)) <> Finished true.
Proof.
  induction gs as [|g gs IH]; intros st; unfold loopHead, afterLoop; cbn [andb].
  - destruct (index st <? List.length (chunks st)); [|split; [reflexivity|discriminate]].
    destruct (Abort.signalAborted cs (signal st)); split; try reflexivity; discriminate.
  - destruct (index st <? List.length (chunks st));
      [|rewrite drive_finished; split; [reflexivity|discriminate]].
    destruct (Abort.signalAborted cs (signal st)) eqn:Hlive;
      [rewrite drive_finished; split; [reflexivity|discriminate]|].
    cbn [drive]. unfold resumeGenerate, afterLoop. rewrite Hlive.
    destruct g as [audio| |message]; cbn [throughGap andb negb];
      rewrite ?drive_finished; try (split; [reflexivity|discriminate]).
    rewrite throughGap_loopHead.
    destruct (IH (nextChunk st)) as [Hms Hstep].
    destruct (drive gs cs false (loopHead cs false (nextChunk st))) as [ms step].
    cbn [fst snd] in *. subst ms. auto.
Qed.

(** X14. When the signal is aborted from the start or the socket is not
    open, the streamer sends nothing and arms no [tts_end] timer. *)
Theorem aborted_or_closed_stream_sends_nothing :
  forall (text : string) (signal : option nat) (voiceId : string)
         (cs : Abort.Controllers) (ready : bool) (gs : list Generation),
    Abort.signalAborted cs signal = true \/ ready = false ->
    fst (stream text signal voiceId cs ready gs) = []
    /\ snd (stream text signal voiceId cs ready gs) <> Finished true.
Proof.
  intros text signal voiceId cs ready gs Hoff. unfold stream.
  destruct (truthy (trim text)) eqn:Htext.
  - destruct (splitIntoChunks (sanitizeForTTS text)) as [|chunk rest] eqn:Hchunks.
    + unfold murfStreamSentences. rewrite Hchunks, Htext, (truthy_trim text Htext).
      cbn. rewrite drive_finished. split; [reflexivity|discriminate].
    + destruct (stream_starts text signal voiceId cs ready Htext)
        as (st & Hstart & Hst & Hindex & Hsig); [rewrite Hchunks; discriminate|].
      rewrite Hstart. destruct ready.
      * destruct Hoff as [Hoff|Hoff]; [|discriminate]. unfold loopHead.
        rewrite Hindex, Hst, Hchunks, Hsig, Hoff. unfold afterLoop. cbn [List.length Nat.ltb Nat.leb andb negb].
        rewrite drive_finished.
        split; [reflexivity|discriminate].
      * destruct (drive_cut_off cs gs st) as [Hms Hstep].
        destruct (drive gs cs false (loopHead cs false st)) as [ms step].
        cbn [fst snd] in *. subst ms. auto.
  - unfold murfStreamSentences. rewrite Htext. rewrite orb_true_r.
    rewrite drive_finished. split; [reflexivity|discriminate].
Qed.

Lemma aborted_or_closed_stream_sends_nothing_witness :
  (Abort.signalAborted [true] (Some 0) = true \/ true = false)
  /\ fst (stream commaReply (Some 0) defaultVoice [true] true [Generated "a"; Generated "b"]) = [].
Proof.
  refine (conj (or_introl eq_refl) _).
  exact (proj1 (aborted_or_closed_stream_sends_nothing commaReply (Some 0) defaultVoice [true] true
                  [Generated "a"; Generated "b"] (or_introl eq_refl))).
Defined.

End StreamFacts.

(** ** Sessions: uploads and voices *)

Section SessionFacts.
Import Js Sessions.

Lemma storeLoop_later sessionId doc m : forall stored,
  0 < stored ->
  fst (storeLoop sessionId doc stored m)
  = map (fun kv => (fst kv, if String.eqb (fst kv) sessionId
                            then withDocument doc (snd kv) else snd kv)) m
  /\ 0 < snd (storeLoop sessionId doc stored m).
Proof.
  induction m as [|[sid session] rest IH]; intros stored Hstored; cbn [storeLoop map fst snd].
  - auto.
  - replace (stored =? 0) with false by (symmetry; apply Nat.eqb_neq; lia).
    rewrite orb_false_r. destruct (String.eqb sid sessionId).
    + destruct (IH (S stored)) as [Hrest Hcount]; [lia|].
      destruct (storeLoop sessionId doc (S stored) rest) as [rest' n]. cbn [fst snd] in *.
      now rewrite Hrest.
    + destruct (IH stored Hstored) as [Hrest Hcount].
      destruct (storeLoop sessionId doc stored rest) as [rest' n]. cbn [fst snd] in *.
      now rewrite Hrest.
Qed.

(** With a session in the store, the counter is zero at the first entry only. *)
Lemma storeDocument_cons sessionId doc first session rest :
  storeDocument sessionId doc ((first, session) :: rest)
  = (first, withDocument doc session)
    :: map (fun kv => (fst kv, if String.eqb (fst kv) sessionId
                               then withDocument doc (snd kv) else snd kv)) rest.
Proof.
  unfold storeDocument. cbn [storeLoop Nat.eqb]. rewrite orb_true_r.
  destruct (storeLoop_later sessionId doc rest 1) as [Hrest Hcount]; [lia|].
  destruct (storeLoop sessionId doc 1 rest) as [rest' n]. cbn [fst snd] in *.
  replace (n =? 0) with false by (symmetry; apply Nat.eqb_neq; lia).
  now rewrite Hrest.
Qed.

Lemma get_map_stored sid sessionId doc m :
  get sid (map (fun kv => (fst kv, if String.eqb (fst kv) sessionId
                                   then withDocument doc (snd kv) else snd kv)) m)
  = match get sid m with
    | Some s => Some (if String.eqb sid sessionId then withDocument doc s else s)
    | None => None
    end.
Proof.
  induction m as [|[k v] rest IH]; cbn [map get fst snd]; [reflexivity|].
  destruct (String.eqb k sid) eqn:Hk; [|exact IH].
  apply String.eqb_eq in Hk. now subst k.
Qed.

Lemma map_fst_stored sessionId doc (m : Store) :
  map fst (map (fun kv => (fst kv, if String.eqb (fst kv) sessionId
                                   then withDocument doc (snd kv) else snd kv)) m)
  = map fst m.
Proof. rewrite map_map. apply map_ext. reflexivity. Qed.

(** X15. When the store has sessions, an upload writes its document into the
    first of them, whichever session id the request carries; of the others
    only the session with that id gets the document, and no session is
    added. *)
Theorem upload_lands_in_the_first_session :
  forall (f : File) (header : option string) (documentText : string)
         (first : string) (session : Enhanced.Session) (rest : Store),
    String.eqb (ext f) ".pdf" || String.eqb (ext f) ".docx" || String.eqb (ext f) ".doc" = true ->
    let doc := {| Enhanced.filename := originalname f; Enhanced.content := documentText |} in
    let out := upload (Some f) header (Text documentText) None ((first, session) :: rest) in
    fst out = Ok (originalname f) (size f) (String.length documentText)
    /\ get first (snd out) = Some (withDocument doc session)
    /\ map fst (snd out) = first :: map fst rest
    /\ forall sid s,
         String.eqb first sid = false ->
         get sid rest = Some s ->
         get sid (snd out)
         = Some (if String.eqb sid (match header with
                                    | Some h => if truthy h then h else "default"
                                    | None => "default"
                                    end)
                 then withDocument doc s else s).
Proof.
  intros f header documentText first session rest Hext doc out. subst out.
  unfold upload. rewrite Hext. cbn [fst snd]. rewrite storeDocument_cons.
  fold doc. split; [reflexivity|]. split; [|split].
  - cbn [get]. now rewrite String.eqb_refl.
  - cbn [map fst]. now rewrite map_fst_stored.
  - intros sid s Hsid Hget. cbn [get]. rewrite Hsid, get_map_stored, Hget. reflexivity.
Qed.

Lemma upload_lands_in_the_first_session_witness :
  String.eqb ".pdf" ".pdf" || String.eqb ".pdf" ".docx" || String.eqb ".pdf" ".doc" = true
  /\ get "abc12"
       (snd (upload (Some {| originalname := "notes.pdf"; size := 2048; ext := ".pdf" |})
               (Some "session_17") (Text "Minutes of the meeting.") None
               [("abc12", {| Enhanced.document := None; Enhanced.voiceId := "en-GB-emma" |});
                ("xyz89", {| Enhanced.document := None; Enhanced.voiceId := "en-US-ryan" |})]))
     = Some (withDocument
               {| Enhanced.filename := "notes.pdf"; Enhanced.content := "Minutes of the meeting." |}
               {| Enhanced.document := None; Enhanced.voiceId := "en-GB-emma" |}).
Proof.
  refine (conj eq_refl _).
  exact (proj1 (proj2 (upload_lands_in_the_first_session
                         {| originalname := "notes.pdf"; size := 2048; ext := ".pdf" |}
                         (Some "session_17") "Minutes of the meeting." "abc12"
                         {| Enhanced.document := None; Enhanced.voiceId := "en-GB-emma" |}
                         [("xyz89", {| Enhanced.document := None; Enhanced.voiceId := "en-US-ryan" |})]
                         eq_refl))).
Defined.

(** X16. When the store is not empty and has no session with the id of the
    request, storing the document creates none: the id stays unknown and the
    store keeps its keys. *)
Theorem upload_for_an_unknown_session_is_not_filed_under_it :
  forall (sessionId : string) (doc : Enhanced.Document) (m : Store),
    m <> [] ->
    get sessionId m = None ->
    get sessionId (storeDocument sessionId doc m) = None
    /\ map fst (storeDocument sessionId doc m) = map fst m.
Proof.
  intros sessionId doc [|[first session] rest] Hsome Hget; [contradiction|].
  rewrite storeDocument_cons. cbn [get map fst] in *.
  destruct (String.eqb first sessionId); [discriminate|].
  rewrite get_map_stored, Hget, map_fst_stored. auto.
Qed.

Lemma upload_for_an_unknown_session_is_not_filed_under_it_witness :
  [("abc12", {| Enhanced.document := None; Enhanced.voiceId := "en-GB-emma" |})] <> []
  /\ get "session_17" [("abc12", {| Enhanced.document := None; Enhanced.voiceId := "en-GB-emma" |})]
     = None
  /\ get "session_17"
       (storeDocument "session_17"
          {| Enhanced.filename := "notes.pdf"; Enhanced.content := "Minutes." |}
          [("abc12", {| Enhanced.document := None; Enhanced.voiceId := "en-GB-emma" |})])
     = None.
Proof.
  assert (Hsome : [("abc12", {| Enhanced.document := None; Enhanced.voiceId := "en-GB-emma" |})]
                  <> []) by discriminate.
  refine (conj Hsome (conj eq_refl _)).
  exact (proj1 (upload_for_an_unknown_session_is_not_filed_under_it "session_17"
                  {| Enhanced.filename := "notes.pdf"; Enhanced.content := "Minutes." |}
                  [("abc12", {| Enhanced.document := None; Enhanced.voiceId := "en-GB-emma" |})]
                  Hsome eq_refl)).
Defined.

Lemma get_set sid v m : get sid (set sid v m) = Some v.
Proof.
  induction m as [|[k v0] rest IH]; cbn.
  - now rewrite String.eqb_refl.
  - destruct (String.eqb k sid) eqn:Hk; cbn; rewrite Hk; [reflexivity|exact IH].
Qed.

Lemma get_set_other other sid v m :
  String.eqb other sid = false -> get other (set sid v m) = get other m.
Proof.
  intros Hne. induction m as [|[k v0] rest IH]; cbn.
  - rewrite String.eqb_sym, Hne. reflexivity.
  - destruct (String.eqb k sid) eqn:Hk; cbn.
    + apply String.eqb_eq in Hk. subst k. rewrite String.eqb_sym, Hne. reflexivity.
    + destruct (String.eqb k other); [reflexivity|exact IH].
Qed.

End SessionFacts.

(** ** Turns: memory, busy flag, timers *)

Section TurnFacts.
Import Js Ws Dg Vocabulary Turns.

Lemma memory_sendAll ms : forall c, Enhanced.memory (Enhanced.sendAll ms c) = Enhanced.memory c.
Proof.
  unfold Enhanced.sendAll. induction ms as [|m ms IH]; intros c; cbn [fold_left]; [reflexivity|].
  now rewrite IH.
Qed.

Lemma memory_park slot t c : Enhanced.memory (Enhanced.park slot t c) = Enhanced.memory c.
Proof. destruct slot; reflexivity. Qed.

Lemma memory_catchBlock slot e c : Enhanced.memory (Enhanced.catchBlock slot e c) = Enhanced.memory c.
Proof.
  unfold Enhanced.catchBlock. destruct slot; rewrite ?memory_park;
    destruct (Router.isAbort e); reflexivity.
Qed.

Lemma memory_afterSpeech slot c : Enhanced.memory (Enhanced.afterSpeech slot c) = Enhanced.memory c.
Proof. unfold Enhanced.afterSpeech. destruct slot; rewrite ?memory_park; reflexivity. Qed.

Lemma memory_speech slot tail out c :
  Enhanced.memory (Enhanced.speech slot tail out c) = Enhanced.memory c.
Proof.
  unfold Enhanced.speech. destruct (snd out) as [p|armed].
  - now rewrite memory_park, memory_sendAll.
  - rewrite memory_afterSpeech. destruct armed; cbn [Enhanced.memory Enhanced.setTtsEndArmed];
      apply memory_sendAll.
Qed.

Lemma memory_updateMemory u b c :
  Enhanced.memory (Enhanced.updateMemory u b c) = remembered u b (Enhanced.memory c).
Proof. reflexivity. Qed.

Lemma memory_afterRoute slot transcript aiReply c :
  Enhanced.memory (Enhanced.afterRoute slot transcript aiReply c)
  = remembered transcript aiReply (Enhanced.memory c).
Proof.
  unfold Enhanced.afterRoute.
  match goal with |- context [match ?x with _ => _ end] => destruct x end;
    rewrite ?memory_speech, ?memory_catchBlock; reflexivity.
Qed.

Lemma memory_routed slot transcript sig r c :
  MemoryStep (Enhanced.memory c) (Enhanced.memory (Enhanced.routed slot transcript sig r c)).
Proof.
  unfold Enhanced.routed. destruct r as [reply cache|e cache|cache req k].
  - rewrite memory_afterRoute. apply Remembered.
  - rewrite memory_catchBlock. apply Kept.
  - rewrite memory_park. apply Kept.
Qed.

Lemma memory_afterAction slot transcript message c :
  Enhanced.memory (Enhanced.afterAction slot transcript message c)
  = remembered transcript message (Enhanced.memory c).
Proof. unfold Enhanced.afterAction. cbn [Abort.create]. now rewrite memory_speech. Qed.

Lemma memory_detectName t c :
  MemoryStep (Enhanced.memory c) (Enhanced.memory (Enhanced.detectName t c)).
Proof.
  unfold Enhanced.detectName. destruct (Enhanced.nameMatch t) as [n|] eqn:Hname; [|apply Kept].
  destruct (2 <? String.length n) eqn:Hlong; [|apply Kept].
  apply (Named _ t n Hname). now apply Nat.ltb_lt.
Qed.

Lemma memory_interrupt c : Enhanced.memory (Enhanced.interrupt c) = Enhanced.memory c.
Proof.
  unfold Enhanced.interrupt, Enhanced.cancelCurrentTTS.
  destruct (Enhanced.currentTTSController c); reflexivity.
Qed.

Lemma memory_onResults ev c :
  MemoryStep (Enhanced.memory c) (Enhanced.memory (Enhanced.onResults ev c)).
Proof.
  unfold Enhanced.onResults.
  destruct (negb (Enhanced.isOpen c)); [apply Kept|].
  match goal with
  | |- context [if ?b then Enhanced.interrupt c else c] =>
      set (c1 := if b then Enhanced.interrupt c else c);
      assert (Hc1 : Enhanced.memory c1 = Enhanced.memory c)
        by (subst c1; destruct b; [apply memory_interrupt|reflexivity]);
      clearbody c1
  end.
  rewrite <- Hc1.
  destruct (qlt (confidence ev) (1 # 2) && (String.length (text ev) <? 3)); [apply Kept|].
  destruct (truthy (trim (text ev))); [|apply Kept].
  destruct (negb (isFinal ev)); [apply Kept|].
  destruct (1 <? String.length (trim (text ev))); [|apply Kept].
  match goal with
  | |- context [Enhanced.detectName ?t ?c2] =>
      pose proof (memory_detectName t c2) as Hname;
      change (Enhanced.memory c2) with (Enhanced.memory c1) in Hname
  end.
  match goal with
  | |- MemoryStep _ (Enhanced.memory (if ?b then _ else _)) => destruct b
  end; exact Hname.
Qed.

(** What an event does to the memory. *)
Lemma memory_step c e : MemoryStep (Enhanced.memory c) (Enhanced.memory (Enhanced.step c e)).
Proof.
  destruct e as [| |ev|now|i message|i o now|i g|i| | |]; cbn [Enhanced.step]; try apply Kept.
  - apply memory_onResults.
  - destruct (Enhanced.transcriptTimeout c) as [t|]; [|apply Kept].
    unfold Enhanced.timerCallback.
    match goal with |- context [if ?b then _ else _] => destruct b end; [apply Kept|].
    match goal with |- context [if ?b then _ else _] => destruct b end.
    + rewrite memory_park. apply Kept.
    + cbn [Abort.create].
      match goal with
      | |- MemoryStep _ (Enhanced.memory (Enhanced.routed ?slot ?t ?sig ?r ?c')) =>
          exact (memory_routed slot t sig r c')
      end.
  - destruct (nth i (Enhanced.tasks c) Enhanced.Done); try apply Kept.
    rewrite memory_afterAction. apply Remembered.
  - destruct (nth i (Enhanced.tasks c) Enhanced.Done) as [| ? ? [| |? ? k] | |]; try apply Kept.
    apply memory_routed.
  - destruct (nth i (Enhanced.tasks c) Enhanced.Done) as [| |? [st|st]|]; try apply Kept.
    rewrite memory_speech. apply Kept.
  - destruct (nth i (Enhanced.tasks c) Enhanced.Done) as [| |? [st|st]|]; try apply Kept.
    rewrite memory_speech. apply Kept.
  - destruct (Enhanced.ttsEndArmed c); apply Kept.
  - unfold Enhanced.cancelCurrentTTS. destruct (Enhanced.currentTTSController c); apply Kept.
Qed.

Lemma length_pushCapped x xs :
  List.length xs <= 4 -> List.length (Enhanced.pushCapped x xs) <= 4.
Proof.
  intros Hxs. unfold Enhanced.pushCapped.
  destruct (4 <? List.length (xs ++ [x])) eqn:Hfull.
  - destruct (xs ++ [x]) eqn:Hlist; cbn; [lia|].
    assert (Hlen : List.length (xs ++ [x]) = S (List.length l)) by now rewrite Hlist.
    rewrite length_app in Hlen. cbn in Hlen. lia.
  - apply Nat.ltb_ge in Hfull. exact Hfull.
Qed.

(** X18. After any sequence of events the memory holds at most four user
    messages and at most four replies. *)
Theorem memory_holds_at_most_four_messages :
  forall (session : option Enhanced.Session) (cache : Router.Cache) (events : list Enhanced.Event),
    let m := Enhanced.memory (Enhanced.steps (Enhanced.initial session cache) events) in
    List.length (Enhanced.lastUserMessages m) <= 4
    /\ List.length (Enhanced.lastBotMessages m) <= 4.
Proof.
  intros session cache events. cbv zeta.
  assert (Hsteps : forall es c,
            List.length (Enhanced.lastUserMessages (Enhanced.memory c)) <= 4
            /\ List.length (Enhanced.lastBotMessages (Enhanced.memory c)) <= 4 ->
            List.length (Enhanced.lastUserMessages (Enhanced.memory (Enhanced.steps c es))) <= 4
            /\ List.length (Enhanced.lastBotMessages (Enhanced.memory (Enhanced.steps c es))) <= 4).
  { unfold Enhanced.steps. induction es as [|e es IH]; intros c Hc; cbn [fold_left]; [exact Hc|].
    apply IH. destruct Hc as [Hu Hb].
    destruct (memory_step c e) as [|t n _ _|u b]; cbn [named remembered Enhanced.lastUserMessages
                                                         Enhanced.lastBotMessages]; [auto|auto|].
    split; [destruct (truthy u)|destruct (truthy b)]; auto using length_pushCapped. }
  apply Hsteps. cbn. lia.
Qed.

Lemma span_all p : forall s, sforall p (take (span p s) s) = true.
Proof.
  unfold take. induction s as [|c r IH]; cbn; [reflexivity|].
  destruct (p c) eqn:Hc; cbn; [now rewrite Hc|reflexivity].
Qed.

Lemma nameAfter_word intro s n :
  Enhanced.nameAfter intro s = Some n -> sforall isLetter n = true.
Proof.
  unfold Enhanced.nameAfter. destruct (startsWithBy foldChar intro s); [|discriminate].
  match goal with |- context [if ?b then _ else _] => destruct b end; [|discriminate].
  intros [= <-]. apply span_all.
Qed.

Lemma nameMatch_word s : forall n, Enhanced.nameMatch s = Some n -> sforall isLetter n = true.
Proof.
  induction s as [|c r IH]; intros n; cbn [Enhanced.nameMatch]; unfold Enhanced.nameAt.
  - repeat match goal with
           | |- context [Enhanced.nameAfter ?i ?s] =>
               let H := fresh "H" in destruct (Enhanced.nameAfter i s) eqn:H;
               [intros [= <-]; eapply nameAfter_word; eassumption|]
           end.
    discriminate.
  - repeat match goal with
           | |- context [Enhanced.nameAfter ?i ?s] =>
               let H := fresh "H" in destruct (Enhanced.nameAfter i s) eqn:H;
               [intros [= <-]; eapply nameAfter_word; eassumption|]
           end.
    apply IH.
Qed.

(** X19. A name that the memory holds consists of letters only and is at
    least three long. *)
Theorem remembered_name_is_a_word :
  forall (session : option Enhanced.Session) (cache : Router.Cache) (events : list Enhanced.Event)
         (n : string),
    Enhanced.userName (Enhanced.memory (Enhanced.steps (Enhanced.initial session cache) events))
    = Some n ->
    sforall isLetter n = true /\ 2 < String.length n.
Proof.
  intros session cache events.
  assert (Hsteps : forall es c,
            (forall n, Enhanced.userName (Enhanced.memory c) = Some n ->
                       sforall isLetter n = true /\ 2 < String.length n) ->
            forall n, Enhanced.userName (Enhanced.memory (Enhanced.steps c es)) = Some n ->
                      sforall isLetter n = true /\ 2 < String.length n).
  { unfold Enhanced.steps. induction es as [|e es IH]; intros c Hc; cbn [fold_left]; [exact Hc|].
    apply IH. intros n.
    destruct (memory_step c e) as [|t n' Hname Hlong|u b];
      cbn [named remembered Enhanced.userName]; [apply Hc| |apply Hc].
    intros [= <-]. split; [exact (nameMatch_word t n' Hname)|exact Hlong]. }
  apply Hsteps. cbn. discriminate.
Qed.

Lemma remembered_name_is_a_word_witness :
  Enhanced.userName
    (Enhanced.memory
       (Enhanced.steps (Enhanced.initial None [])
          [Enhanced.DgOpen;
           Enhanced.Results {| text := "Hello, my name is Priya."; isFinal := true;
                               speechFinal := true; confidence := 19 # 20 |}]))
  = Some "Priya"
  /\ sforall isLetter "Priya" = true.
Proof.
  assert (Hname : Enhanced.userName
    (Enhanced.memory
       (Enhanced.steps (Enhanced.initial None [])
          [Enhanced.DgOpen;
           Enhanced.Results {| text := "Hello, my name is Priya."; isFinal := true;
                               speechFinal := true; confidence := 19 # 20 |}]))
  = Some "Priya") by (vm_compute; reflexivity).
  refine (conj Hname _).
  exact (proj1 (remembered_name_is_a_word None [] _ "Priya" Hname)).
Defined.


(** *** The busy flag *)

Lemma flag_sendAll ms : forall c,
  Enhanced.processingAudio (Enhanced.sendAll ms c) = Enhanced.processingAudio c
  /\ Enhanced.tasks (Enhanced.sendAll ms c) = Enhanced.tasks c.
Proof.
  unfold Enhanced.sendAll. induction ms as [|m ms IH]; intros c; cbn [fold_left]; [auto|].
  destruct (IH (Enhanced.send m c)) as [-> ->]. auto.
Qed.

Lemma suspended_replaceNth i t : forall ts,
  suspended t = true -> i < List.length ts ->
  existsb suspended (Enhanced.replaceNth i t ts) = true.
Proof.
  induction i as [|i IH]; intros [|t0 ts] Ht Hi; cbn in *; try lia.
  - now rewrite Ht.
  - rewrite IH; [apply orb_true_r|exact Ht|lia].
Qed.

(** A turn that parks itself at an [await] is in flight. *)
Lemma park_inFlight slot t c :
  suspended t = true ->
  (forall i, slot = Some i -> i < List.length (Enhanced.tasks c)) ->
  turnInFlight (Enhanced.park slot t c) = true.
Proof.
  intros Ht Hslot. unfold turnInFlight. destruct slot as [i|]; cbn.
  - apply suspended_replaceNth; auto.
  - rewrite existsb_app. cbn. rewrite Ht. now rewrite orb_true_r.
Qed.

Lemma flag_park slot t c :
  Enhanced.processingAudio (Enhanced.park slot t c) = Enhanced.processingAudio c.
Proof. destruct slot; reflexivity. Qed.

Lemma catchBlock_idle slot e c :
  Enhanced.processingAudio (Enhanced.catchBlock slot e c) = false.
Proof. unfold Enhanced.catchBlock. destruct slot; rewrite ?flag_park; reflexivity. Qed.

Lemma afterSpeech_idle slot c :
  Enhanced.processingAudio (Enhanced.afterSpeech slot c) = false.
Proof. unfold Enhanced.afterSpeech. destruct slot; rewrite ?flag_park; reflexivity. Qed.

Lemma speech_flag slot tail out c :
  (forall i, slot = Some i -> i < List.length (Enhanced.tasks c)) ->
  Enhanced.processingAudio (Enhanced.speech slot tail out c) = true ->
  turnInFlight (Enhanced.speech slot tail out c) = true.
Proof.
  intros Hslot. unfold Enhanced.speech. destruct (snd out) as [p|armed].
  - intros _. apply park_inFlight; [reflexivity|].
    now rewrite (proj2 (flag_sendAll (fst out) c)).
  - rewrite afterSpeech_idle. discriminate.
Qed.

Lemma afterRoute_flag slot transcript aiReply c :
  (forall i, slot = Some i -> i < List.length (Enhanced.tasks c)) ->
  Enhanced.processingAudio (Enhanced.afterRoute slot transcript aiReply c) = true ->
  turnInFlight (Enhanced.afterRoute slot transcript aiReply c) = true.
Proof.
  intros Hslot. unfold Enhanced.afterRoute.
  match goal with |- context [match ?x with _ => _ end] => destruct x end.
  - apply speech_flag. exact Hslot.
  - rewrite catchBlock_idle. discriminate.
Qed.

Lemma routed_flag slot transcript sig r c :
  (forall i, slot = Some i -> i < List.length (Enhanced.tasks c)) ->
  Enhanced.processingAudio (Enhanced.routed slot transcript sig r c) = true ->
  turnInFlight (Enhanced.routed slot transcript sig r c) = true.
Proof.
  intros Hslot. unfold Enhanced.routed. destruct r as [reply cache|e cache|cache req k].
  - apply afterRoute_flag. exact Hslot.
  - rewrite catchBlock_idle. discriminate.
  - intros _. apply park_inFlight; [reflexivity|exact Hslot].
Qed.

Lemma detectName_flag t c :
  Enhanced.processingAudio (Enhanced.detectName t c) = Enhanced.processingAudio c
  /\ Enhanced.tasks (Enhanced.detectName t c) = Enhanced.tasks c.
Proof.
  unfold Enhanced.detectName. destruct (Enhanced.nameMatch t) as [n|]; [|auto].
  destruct (2 <? String.length n); auto.
Qed.

Lemma onResults_flag ev c :
  Enhanced.tasks (Enhanced.onResults ev c) = Enhanced.tasks c
  /\ (Enhanced.processingAudio (Enhanced.onResults ev c) = true ->
      Enhanced.processingAudio c = true).
Proof.
  unfold Enhanced.onResults.
  destruct (negb (Enhanced.isOpen c)); [auto|].
  match goal with
  | |- context [if ?b then Enhanced.interrupt c else c] =>
      set (c1 := if b then Enhanced.interrupt c else c);
      assert (Hc1 : Enhanced.tasks c1 = Enhanced.tasks c
                    /\ (Enhanced.processingAudio c1 = true -> Enhanced.processingAudio c = true));
      [subst c1; destruct b; [|auto]|clearbody c1]
  end.
  { unfold Enhanced.interrupt, Enhanced.cancelCurrentTTS.
    destruct (Enhanced.currentTTSController c); cbn; split; auto; discriminate. }
  destruct Hc1 as [Htasks Hflag].
  destruct (qlt (confidence ev) (1 # 2) && (String.length (text ev) <? 3)); [auto|].
  destruct (truthy (trim (text ev))); [|auto].
  destruct (negb (isFinal ev)); [auto|].
  destruct (1 <? String.length (trim (text ev))); [|auto].
  match goal with
  | |- context [Enhanced.detectName ?t ?c2] =>
      destruct (detectName_flag t c2) as [H1 H2]
  end.
  match goal with
  | |- context [if ?b then _ else _] => destruct b
  end; cbn [Enhanced.tasks Enhanced.processingAudio Enhanced.setTimer];
    rewrite H1, H2; auto.
Qed.

Lemma nth_in_range {A} i (xs : list A) d : nth i xs d <> d -> i < List.length xs.
Proof.
  intros Hnth. destruct (Nat.lt_ge_cases i (List.length xs)) as [Hlt|Hge]; [exact Hlt|].
  now rewrite nth_overflow in Hnth.
Qed.

(** Whatever happens, the busy flag is set only while a turn is suspended. *)
Lemma step_flag c e :
  (Enhanced.processingAudio c = true -> turnInFlight c = true) ->
  Enhanced.processingAudio (Enhanced.step c e) = true -> turnInFlight (Enhanced.step c e) = true.
Proof.
  intros Hc. destruct e as [| |ev|now|i message|i o now|i g|i| | |]; cbn [Enhanced.step].
  - exact Hc.
  - exact Hc.
  - destruct (onResults_flag ev c) as [Htasks Hflag]. unfold turnInFlight in *.
    rewrite Htasks. auto.
  - destruct (Enhanced.transcriptTimeout c) as [t|]; [|exact Hc].
    unfold Enhanced.timerCallback.
    match goal with |- context [if ?b then _ else _] => destruct b eqn:Hbusy end; [exact Hc|].
    match goal with |- context [if ?b then _ else _] => destruct b end.
    + intros _. apply park_inFlight; [reflexivity|discriminate].
    + cbn [Abort.create]. apply routed_flag. discriminate.
  - destruct (nth i (Enhanced.tasks c) Enhanced.Done) eqn:Htask; try exact Hc.
    unfold Enhanced.afterAction. cbn [Abort.create]. apply speech_flag.
    intros j [= <-]. cbn. apply (nth_in_range i _ Enhanced.Done). now rewrite Htask.
  - destruct (nth i (Enhanced.tasks c) Enhanced.Done) as [| ? ? [| |? ? k] | |] eqn:Htask;
      try exact Hc.
    apply routed_flag. intros j [= <-]. apply (nth_in_range i _ Enhanced.Done). now rewrite Htask.
  - destruct (nth i (Enhanced.tasks c) Enhanced.Done) as [| |? [st|st]|] eqn:Htask; try exact Hc.
    apply speech_flag. intros j [= <-]. apply (nth_in_range i _ Enhanced.Done). now rewrite Htask.
  - destruct (nth i (Enhanced.tasks c) Enhanced.Done) as [| |? [st|st]|] eqn:Htask; try exact Hc.
    apply speech_flag. intros j [= <-]. apply (nth_in_range i _ Enhanced.Done). now rewrite Htask.
  - destruct (Enhanced.ttsEndArmed c); exact Hc.
  - unfold Enhanced.cancelCurrentTTS. destruct (Enhanced.currentTTSController c); exact Hc.
  - exact Hc.
Qed.

(** X20. Whenever the busy flag is set, a turn of the connection is
    suspended at an await: no turn that has ended leaves the flag set. *)
Theorem busy_flag_means_a_turn_is_suspended :
  forall (session : option Enhanced.Session) (cache : Router.Cache) (events : list Enhanced.Event),
    Enhanced.processingAudio (Enhanced.steps (Enhanced.initial session cache) events) = true ->
    turnInFlight (Enhanced.steps (Enhanced.initial session cache) events) = true.
Proof.
  intros session cache events.
  assert (Hsteps : forall es c,
            (Enhanced.processingAudio c = true -> turnInFlight c = true) ->
            Enhanced.processingAudio (Enhanced.steps c es) = true ->
            turnInFlight (Enhanced.steps c es) = true).
  { unfold Enhanced.steps. induction es as [|e es IH]; intros c Hc; cbn [fold_left]; [exact Hc|].
    apply IH, step_flag, Hc. }
  apply Hsteps. cbn. discriminate.
Qed.

Lemma busy_flag_means_a_turn_is_suspended_witness :
  Enhanced.processingAudio
    (Enhanced.steps (Enhanced.initial None [])
       [Enhanced.DgOpen; Enhanced.Results askTime; Enhanced.TimerFires 0]) = true
  /\ turnInFlight
       (Enhanced.steps (Enhanced.initial None [])
          [Enhanced.DgOpen; Enhanced.Results askTime; Enhanced.TimerFires 0]) = true.
Proof.
  assert (Hbusy : Enhanced.processingAudio
    (Enhanced.steps (Enhanced.initial None [])
       [Enhanced.DgOpen; Enhanced.Results askTime; Enhanced.TimerFires 0]) = true)
    by (vm_compute; reflexivity).
  refine (conj Hbusy _).
  exact (busy_flag_means_a_turn_is_suspended None [] _ Hbusy).
Defined.


(** *** The debounce timer *)

Lemma detectName_timer t c :
  Enhanced.transcriptTimeout (Enhanced.detectName t c) = Enhanced.transcriptTimeout c
  /\ Enhanced.timersSet (Enhanced.detectName t c) = Enhanced.timersSet c
  /\ Enhanced.processingAudio (Enhanced.detectName t c) = Enhanced.processingAudio c.
Proof.
  unfold Enhanced.detectName. destruct (Enhanced.nameMatch t) as [n|]; [|auto].
  destruct (2 <? String.length n); auto.
Qed.

(** X21. In both servers a final transcript of at least two characters that
    passes the noise filter leaves no older timer armed: afterwards either
    the timer is a new one for this transcript, with the short delay exactly
    when the speech is final, or none is armed. *)
Theorem final_transcript_replaces_the_armed_timer :
  forall (ce : Enhanced.Conn) (cl : Legacy.Conn) (ev : Recognition),
    Enhanced.isOpen ce = true ->
    Legacy.isOpen cl = true ->
    isFinal ev = true ->
    1 < String.length (trim (text ev)) ->
    qlt (confidence ev) (1 # 2) && (String.length (text ev) <? 3) = false ->
    Enhanced.transcriptTimeout (Enhanced.onResults ev ce)
    = (if Enhanced.shouldProcess ev && negb (Enhanced.processingAudio ce)
       then Some {| Enhanced.timerId := Enhanced.timersSet ce;
                    Enhanced.transcript := text ev;
                    Enhanced.delay := if speechFinal ev then 100 else 400 |}
       else None)
    /\ Legacy.transcriptTimeout (Legacy.onResults ev cl)
       = (if Legacy.shouldProcess ev && negb (Legacy.processingAudio cl)
          then Some {| Legacy.timerId := Legacy.timersSet cl;
                       Legacy.transcript := text ev;
                       Legacy.delay := if speechFinal ev then 80 else 400 |}
          else None).
Proof.
  intros ce cl ev Hopen Hopen' Hfinal Hlen Hnoise.
  assert (Htrim : truthy (trim (text ev)) = true).
  { destruct (trim (text ev)); [cbn in Hlen; lia|reflexivity]. }
  assert (Htext : truthy (text ev) = true).
  { destruct (text ev); [cbn in Hlen; lia|reflexivity]. }
  apply Nat.ltb_lt in Hlen.
  split.
  - unfold Enhanced.onResults.
    rewrite Hopen, Hfinal. cbn [negb]. rewrite andb_false_r. cbn [andb].
    rewrite Hnoise, Htrim, Hlen.
    match goal with
    | |- context [Enhanced.detectName ?t ?c] =>
        destruct (detectName_timer t c) as (Htimer & Htimers & Hproc); rewrite Hproc, Htimers
    end.
    cbn [Enhanced.processingAudio Enhanced.timersSet Enhanced.send Enhanced.setTimer].
    destruct (Enhanced.shouldProcess ev && negb (Enhanced.processingAudio ce)); [reflexivity|].
    exact Htimer.
  - unfold Legacy.onResults.
    rewrite Hopen', Hfinal. cbn [negb]. rewrite andb_false_r. cbn [andb].
    rewrite Hnoise, Htext, Htrim, Hlen. cbn [andb].
    cbn [Legacy.processingAudio Legacy.timersSet Legacy.send Legacy.setTimer].
    destruct (Legacy.shouldProcess ev && negb (Legacy.processingAudio cl)); reflexivity.
Qed.

Lemma final_transcript_replaces_the_armed_timer_witness :
  Enhanced.isOpen (Enhanced.step enhancedIdle (Enhanced.Results askTime)) = true
  /\ Legacy.isOpen (Legacy.step legacyIdle (Legacy.Results askTime)) = true
  /\ isFinal {| text := "uh"; isFinal := true; speechFinal := false; confidence := 4 # 5 |} = true
  /\ 1 < String.length (trim "uh")
  /\ qlt (4 # 5) (1 # 2) && (String.length "uh" <? 3) = false
  /\ Enhanced.transcriptTimeout (Enhanced.step enhancedIdle (Enhanced.Results askTime))
     = Some {| Enhanced.timerId := 0; Enhanced.transcript := text askTime; Enhanced.delay := 100 |}
  /\ Enhanced.transcriptTimeout
       (Enhanced.onResults
          {| text := "uh"; isFinal := true; speechFinal := false; confidence := 4 # 5 |}
          (Enhanced.step enhancedIdle (Enhanced.Results askTime)))
     = None.
Proof.
  assert (Hlen : 1 < String.length (trim "uh")) by (vm_compute; lia).
  refine (conj eq_refl (conj eq_refl (conj eq_refl (conj Hlen (conj eq_refl (conj eq_refl _)))))).
  exact (proj1 (final_transcript_replaces_the_armed_timer
                  (Enhanced.step enhancedIdle (Enhanced.Results askTime))
                  (Legacy.step legacyIdle (Legacy.Results askTime))
                  {| text := "uh"; isFinal := true; speechFinal := false; confidence := 4 # 5 |}
                  eq_refl eq_refl eq_refl Hlen eq_refl)).
Defined.


(** *** The memory snippet, from the server to the prompt *)

(** Whatever a property of the memory, if no event breaks it, it holds of
    every state the connection reaches. *)
Lemma reachable_memory (P : Enhanced.Memory -> Prop) :
  P (Enhanced.memory (Enhanced.initial None [])) ->
  (forall m m', MemoryStep m m' -> P m -> P m') ->
  forall session cache events,
    P (Enhanced.memory (Enhanced.steps (Enhanced.initial session cache) events)).
Proof.
  intros Hinit Hstep session cache events.
  assert (Hsteps : forall es c, P (Enhanced.memory c) -> P (Enhanced.memory (Enhanced.steps c es))).
  { unfold Enhanced.steps. induction es as [|e es IH]; intros c Hc; cbn [fold_left]; [exact Hc|].
    apply IH, (Hstep _ _ (memory_step c e)), Hc. }
  apply Hsteps. exact Hinit.
Qed.

Lemma forallb_pushCapped x xs :
  truthy x = true -> forallb truthy xs = true -> forallb truthy (Enhanced.pushCapped x xs) = true.
Proof.
  intros Hx Hxs. unfold Enhanced.pushCapped.
  assert (Hall : forallb truthy (xs ++ [x]) = true)
    by (rewrite forallb_app, Hxs; cbn; now rewrite Hx).
  destruct (4 <? List.length (xs ++ [x])); [|exact Hall].
  destruct (xs ++ [x]); [reflexivity|]. cbn in Hall. apply andb_true_iff in Hall. apply Hall.
Qed.

(** The name is a word and the remembered user messages are not empty. *)
Lemma reachable_memory_shape session cache events :
  let m := Enhanced.memory (Enhanced.steps (Enhanced.initial session cache) events) in
  (forall n, Enhanced.userName m = Some n -> sforall isLetter n = true /\ 2 < String.length n)
  /\ forallb truthy (Enhanced.lastUserMessages m) = true.
Proof.
  apply (reachable_memory
           (fun m => (forall n, Enhanced.userName m = Some n ->
                                sforall isLetter n = true /\ 2 < String.length n)
                     /\ forallb truthy (Enhanced.lastUserMessages m) = true)).
  - split; [discriminate|reflexivity].
  - intros m m' [|t n Hname Hlong|u b] [Hword Husers];
      cbn [named remembered Enhanced.userName Enhanced.lastUserMessages]; auto.
    + split; [|exact Husers]. intros n' [= <-].
      split; [exact (nameMatch_word t n Hname)|exact Hlong].
    + split; [exact Hword|]. destruct (truthy u) eqn:Hu; [|exact Husers].
      now apply forallb_pushCapped.
Qed.

Lemma splitGo_prev matchAt s : forall skip prev prev',
  (forall p p' t, matchAt p t = matchAt p' t) ->
  splitGo matchAt skip prev s = splitGo matchAt skip prev' s.
Proof.
  induction s as [|c r IH]; intros skip prev prev' Hm; cbn [splitGo]; [reflexivity|].
  destruct skip as [|k]; [|reflexivity].
  rewrite (Hm prev prev'). reflexivity.
Qed.

Lemma splitChar_line sep pre rest :
  sforall (fun c => negb (Ascii.eqb c sep)) pre = true ->
  splitChar sep (pre +++ String sep rest) = pre :: splitChar sep rest.
Proof.
  unfold splitChar, splitRegex.
  set (m := fun (_ : option ascii) (s : string) =>
              match s with
              | String c _ => if Ascii.eqb c sep then Some 1 else None
              | EmptyString => None
              end).
  assert (Hgen : forall prev,
            sforall (fun c => negb (Ascii.eqb c sep)) pre = true ->
            splitGo m 0 prev (pre +++ String sep rest) = pre :: splitGo m 0 None rest).
  { induction pre as [|c p IH]; intros prev Hpre.
    - cbn [append splitGo]. unfold m at 1. rewrite Ascii.eqb_refl.
      f_equal. apply splitGo_prev. reflexivity.
    - cbn [sforall] in Hpre. apply andb_true_iff in Hpre. destruct Hpre as [Hc Hp].
      cbn [append splitGo]. unfold m at 1. apply negb_true_iff in Hc. rewrite Hc.
      rewrite (IH (Some c) Hp). reflexivity. }
  apply Hgen.
Qed.

Lemma startsWith_sforall q p : forall s,
  startsWith p s = true -> sforall q s = true -> sforall q p = true.
Proof.
  unfold startsWith. induction p as [|a p IH]; intros [|c s]; cbn; try reflexivity; try discriminate.
  rewrite !andb_true_iff. intros [Hac Hps] [Hc Hs].
  apply Ascii.eqb_eq in Hac. subst a. split; [exact Hc|]. now apply (IH s).
Qed.

Lemma includes_sforall q p : forall s,
  includes p s = true -> sforall q s = true -> sforall q p = true.
Proof.
  induction s as [|c s IH]; cbn [includes].
  - rewrite orb_false_r. apply startsWith_sforall.
  - rewrite orb_true_iff. intros [Hstart|Hlater] Hq.
    + exact (startsWith_sforall q p _ Hstart Hq).
    + cbn [sforall] in Hq. apply andb_true_iff in Hq. apply IH; tauto.
Qed.

(** The line that carries the name is none of the lines the router keeps. *)
Lemma memoryLine_name compact n :
  sforall isLetter n = true ->
  includes "Recent" n = false ->
  Router.memoryLine compact ("User: " +++ n) = compact.
Proof.
  intros Hword Hrecent. unfold Router.memoryLine.
  assert (H1 : includes "User's name:" ("User: " +++ n) = false).
  { cbn. destruct (includes "User's name:" n) eqn:Hin; [|reflexivity].
    pose proof (includes_sforall isLetter _ _ Hin Hword) as Habs. discriminate Habs. }
  assert (H2 : includes "Topic:" ("User: " +++ n) = false).
  { cbn. destruct (includes "Topic:" n) eqn:Hin; [|reflexivity].
    pose proof (includes_sforall isLetter _ _ Hin Hword) as Habs. discriminate Habs. }
  assert (H3 : includes "Recent" ("User: " +++ n) = false).
  { cbn. exact Hrecent. }
  rewrite H1, H2, H3. reflexivity.
Qed.


Lemma trim_word_line c r : isSpace c = false -> truthy (trim (String c r)) = true.
Proof.
  intros Hc. unfold trim. cbn [trimStart]. rewrite Hc. cbn [trimEnd].
  destruct (trimEnd r); [rewrite Hc|]; reflexivity.
Qed.

Lemma truthy_join sep x rest : truthy x = true -> truthy (join sep (x :: rest)) = true.
Proof. destruct x; [discriminate|]. destruct rest; reflexivity. Qed.

Lemma lastN_some {A} (xs : list A) k : xs <> [] -> lastN (S k) xs <> [].
Proof.
  intros Hxs Hnone. unfold lastN in Hnone.
  assert (Hlen : List.length (skipn (List.length xs - S k) xs) = 0) by now rewrite Hnone.
  rewrite length_skipn in Hlen. destruct xs; [contradiction|]. cbn [List.length] in Hlen. lia.
Qed.

Lemma forallb_skipn {A} (p : A -> bool) k : forall xs,
  forallb p xs = true -> forallb p (skipn k xs) = true.
Proof.
  induction k as [|k IH]; intros [|x xs]; cbn; auto.
  rewrite andb_true_iff. intros [_ H]. auto.
Qed.

Lemma truthy_take k s : truthy s = true -> truthy (take (S k) s) = true.
Proof. destruct s; [discriminate|reflexivity]. Qed.

(** The recent messages, as the callback of the debounce timer writes them. *)
Lemma recent_line users :
  users <> [] -> forallb truthy users = true ->
  truthy (take 150 (join " | " (lastN 2 users))) = true.
Proof.
  intros Hsome Hall. apply truthy_take.
  pose proof (lastN_some users 1 Hsome) as Hlast.
  assert (Hlast' : forallb truthy (lastN 2 users) = true) by (apply forallb_skipn, Hall).
  destruct (lastN 2 users) as [|x rest]; [contradiction|].
  apply truthy_join. cbn in Hlast'. apply andb_true_iff in Hlast'. apply Hlast'.
Qed.

Lemma context_guard s : 10 <= String.length s -> negb (truthy s) || (String.length s <? 10) = false.
Proof.
  intros Hlen. destruct s; [cbn in Hlen; lia|]. cbn [truthy negb orb].
  apply Nat.ltb_ge. exact Hlen.
Qed.

(** The compact context does not depend on the name. *)
Lemma context_without_name n users bots :
  sforall isLetter n = true ->
  includes "Recent" n = false ->
  forallb truthy users = true ->
  Router.buildMemoryContext
    (Enhanced.buildContext
       {| Enhanced.userName := Some n; Enhanced.lastUserMessages := users;
          Enhanced.lastBotMessages := bots |})
  = Router.buildMemoryContext
      (Enhanced.buildContext
         {| Enhanced.userName := None; Enhanced.lastUserMessages := users;
            Enhanced.lastBotMessages := bots |}).
Proof.
  intros Hword Hrecent Husers. unfold Enhanced.buildContext.
  cbn [Enhanced.userName Enhanced.lastUserMessages].
  destruct (truthy n) eqn:Hn; [|reflexivity].
  assert (Hline : sforall (fun c => negb (Ascii.eqb c "010"%char)) ("User: " +++ n) = true).
  { cbn. eapply sforall_weaken; [|exact Hword].
    intros c Hc. destruct (Ascii.eqb c "010") eqn:Heq; [|reflexivity].
    apply Ascii.eqb_eq in Heq. subst c. discriminate Hc. }
  assert (Hkept : truthy (trim ("User: " +++ n)) = true) by (apply trim_word_line; reflexivity).
  destruct users as [|u us].
  - cbn [List.length Nat.ltb Nat.leb].
    change (Router.buildMemoryContext EmptyString) with EmptyString.
    unfold Router.buildMemoryContext.
    match goal with |- context [if ?b then _ else _] => destruct b end; [reflexivity|].
    replace (EmptyString +++ "User: " +++ n +++ Router.nl)
      with (("User: " +++ n) +++ String "010"%char EmptyString)
      by (unfold Router.nl; cbn [append]; rewrite ?append_assoc; reflexivity).
    rewrite (splitChar_line _ _ _ Hline).
    change (splitChar "010" EmptyString) with [EmptyString].
    cbn [filter]. rewrite Hkept. cbn [fold_left].
    change (truthy (trim EmptyString)) with false. cbn [fold_left].
    now rewrite (memoryLine_name [] n Hword Hrecent).
  - assert (Hsome : u :: us <> []) by discriminate.
    pose proof (recent_line (u :: us) Hsome Husers) as Hrec.
    cbn [List.length Nat.ltb Nat.leb].
    set (recent := take 150 (join " | " (lastN 2 (u :: us)))) in *. clearbody recent.
    assert (Hrecent1 : 1 <= String.length recent) by (destruct recent; [discriminate Hrec|cbn; lia]).
    replace ((EmptyString +++ "User: " +++ n +++ Router.nl) +++ "Recent: " +++ recent +++ Router.nl)
      with (("User: " +++ n) +++ String "010"%char ("Recent: " +++ recent +++ Router.nl))
      by (unfold Router.nl; cbn [append]; rewrite ?append_assoc; reflexivity).
    change (EmptyString +++ "Recent: " +++ recent +++ Router.nl)
      with ("Recent: " +++ recent +++ Router.nl).
    assert (Hlong : 10 <= String.length ("Recent: " +++ recent +++ Router.nl)).
    { rewrite !length_append. unfold Router.nl. cbn [String.length]. lia. }
    unfold Router.buildMemoryContext.
    rewrite (context_guard _ Hlong), context_guard
      by (rewrite length_append; cbn [String.length]; lia).
    rewrite (splitChar_line _ _ _ Hline). cbn [filter]. rewrite Hkept. cbn [fold_left].
    now rewrite (memoryLine_name [] n Hword Hrecent).
Qed.

(** X22. The remembered name has no effect on routing: for a name that does
    not contain [Recent], [routeRequest] with the context built from the
    memory is [routeRequest] with the context built from the same memory
    without the name. *)
Theorem user_name_never_reaches_the_prompt :
  forall (session : option Enhanced.Session) (cache : Router.Cache) (events : list Enhanced.Event)
         (n text : string) (documentContent : option string) (now : Z) (responses : Router.Cache),
    let m := Enhanced.memory (Enhanced.steps (Enhanced.initial session cache) events) in
    Enhanced.userName m = Some n ->
    includes "Recent" n = false ->
    Router.routeRequest text (Enhanced.buildContext m) documentContent now responses
    = Router.routeRequest text (Enhanced.buildContext (unnamed m)) documentContent now responses.
Proof.
  intros session cache events n text doc now responses m Hname Hrecent.
  destruct (reachable_memory_shape session cache events) as [Hword Husers]. fold m in Hword, Husers.
  destruct (Hword n Hname) as [Hletters _].
  assert (Hsame : Router.buildMemoryContext (Enhanced.buildContext m)
                  = Router.buildMemoryContext (Enhanced.buildContext (unnamed m))).
  { unfold unnamed. destruct m as [name users bots]. cbn [Enhanced.userName] in Hname. subst name.
    cbn [Enhanced.lastUserMessages Enhanced.lastBotMessages] in *.
    now apply context_without_name. }
  unfold Router.routeRequest.
  change (Router.getCacheKey text (Enhanced.buildContext (unnamed m)) (Router.hasContent doc))
    with (Router.getCacheKey text (Enhanced.buildContext m) (Router.hasContent doc)).
  now rewrite Hsame.
Qed.

Lemma user_name_never_reaches_the_prompt_witness :
  Enhanced.userName
    (Enhanced.memory
       (Enhanced.steps (Enhanced.initial None [])
          [Enhanced.DgOpen;
           Enhanced.Results {| text := "Hello, my name is Priya."; isFinal := true;
                               speechFinal := true; confidence := 19 # 20 |}]))
  = Some "Priya"
  /\ includes "Recent" "Priya" = false
  /\ Router.buildMemoryContext
       (Enhanced.buildContext
          (Enhanced.memory
             (Enhanced.steps (Enhanced.initial None [])
                [Enhanced.DgOpen;
                 Enhanced.Results {| text := "Hello, my name is Priya."; isFinal := true;
                                     speechFinal := true; confidence := 19 # 20 |}])))
     = EmptyString
  /\ Router.routeRequest "What is my name?"
       (Enhanced.buildContext
          (Enhanced.memory
             (Enhanced.steps (Enhanced.initial None [])
                [Enhanced.DgOpen;
                 Enhanced.Results {| text := "Hello, my name is Priya."; isFinal := true;
                                     speechFinal := true; confidence := 19 # 20 |}])))
       None 0 []
     = Router.routeRequest "What is my name?"
         (Enhanced.buildContext
            (unnamed
               (Enhanced.memory
                  (Enhanced.steps (Enhanced.initial None [])
                     [Enhanced.DgOpen;
                      Enhanced.Results {| text := "Hello, my name is Priya."; isFinal := true;
                                          speechFinal := true; confidence := 19 # 20 |}]))))
         None 0 [].
Proof.
  assert (Hname : Enhanced.userName
    (Enhanced.memory
       (Enhanced.steps (Enhanced.initial None [])
          [Enhanced.DgOpen;
           Enhanced.Results {| text := "Hello, my name is Priya."; isFinal := true;
                               speechFinal := true; confidence := 19 # 20 |}]))
  = Some "Priya") by (vm_compute; reflexivity).
  assert (Hrecent : includes "Recent" "Priya" = false) by (vm_compute; reflexivity).
  assert (Hempty : Router.buildMemoryContext
       (Enhanced.buildContext
          (Enhanced.memory
             (Enhanced.steps (Enhanced.initial None [])
                [Enhanced.DgOpen;
                 Enhanced.Results {| text := "Hello, my name is Priya."; isFinal := true;
                                     speechFinal := true; confidence := 19 # 20 |}])))
     = EmptyString) by (vm_compute; reflexivity).
  refine (conj Hname (conj Hrecent (conj Hempty _))).
  exact (user_name_never_reaches_the_prompt None [] _ "Priya" "What is my name?" None 0%Z []
           Hname Hrecent).
Defined.


(** *** A synthesis that nothing interrupts *)

Lemma nth_parked {A} i (x d : A) xs : nth i xs d <> d -> nth i (Enhanced.replaceNth i x xs) d = x.
Proof.
  intros Hnth. rewrite nth_replaceNth.
  replace (i <? List.length xs) with true; [reflexivity|].
  symmetry. apply Nat.ltb_lt. exact (nth_in_range i xs d Hnth).
Qed.

Lemma length_replaceNth {A} i (x : A) xs :
  List.length (Enhanced.replaceNth i x xs) = List.length xs.
Proof. revert i. induction xs as [|y xs IH]; intros [|i]; cbn; auto. Qed.

(** One generation settles and the loop goes on: the frame is sent, if there
    is one, the gap elapses, and the turn waits for the next generation. *)
Lemma generation_then_next c i tail st g :
  speaking c i tail st ->
  Playback.settled g = true ->
  S (Tts.index st) < List.length (Tts.chunks st) ->
  exists c1 st1,
    Enhanced.steps c (speechEvents i (List.length (Tts.chunks st)) (Tts.index st) [g]) = c1
    /\ speaking c1 i tail st1
    /\ Tts.chunks st1 = Tts.chunks st /\ Tts.index st1 = S (Tts.index st)
    /\ Enhanced.sink c1 = Enhanced.sink c ++ Playback.frames [g]
    /\ Enhanced.ttsEndArmed c1 = Enhanced.ttsEndArmed c
    /\ Enhanced.memory c1 = Enhanced.memory c.
Proof.
  intros (Htask & Hready & Hlive) Hg Hmore.
  assert (Hslot : nth i (Enhanced.tasks c) Enhanced.Done <> Enhanced.Done)
    by (rewrite Htask; discriminate).
  assert (Hgap : (Tts.index st <? List.length (Tts.chunks st) - 1) = true)
    by (apply Nat.ltb_lt; lia).
  assert (Hnext : (S (Tts.index st) <? List.length (Tts.chunks st)) = true)
    by (apply Nat.ltb_lt; lia).
  destruct g as [audio| |message]; [|discriminate Hg|].
  - set (waiting := Enhanced.setTasks
                      (Enhanced.replaceNth i
                         (Enhanced.AwaitSpeech tail (Tts.AwaitGap (Tts.countSent st)))
                         (Enhanced.tasks c))
                      (Enhanced.send (Audio audio) c)).
    assert (Hfirst : Enhanced.step c (Enhanced.GenerationSettles i (Tts.Generated audio)) = waiting).
    { cbn [Enhanced.step]. rewrite Htask. unfold Tts.resumeGenerate. rewrite Hlive, Hready.
      cbn [Tts.countSent Tts.index Tts.chunks]. rewrite Hgap. reflexivity. }
    assert (Hwaiting : nth i (Enhanced.tasks waiting) Enhanced.Done
                       = Enhanced.AwaitSpeech tail (Tts.AwaitGap (Tts.countSent st)))
      by (apply nth_parked, Hslot).
    set (st1 := Tts.nextChunk (Tts.countSent st)).
    set (c1 := Enhanced.setTasks
                 (Enhanced.replaceNth i (Enhanced.AwaitSpeech tail (Tts.AwaitGenerate st1))
                    (Enhanced.tasks waiting)) waiting).
    assert (Hsecond : Enhanced.step waiting (Enhanced.GapElapses i) = c1).
    { cbn [Enhanced.step]. rewrite Hwaiting. unfold Tts.resumeGap, Tts.loopHead.
      fold st1. change (Tts.index st1) with (S (Tts.index st)).
      change (Tts.chunks st1) with (Tts.chunks st). rewrite Hnext.
      change (Tts.signal st1) with (Tts.signal st).
      change (Enhanced.controllers waiting) with (Enhanced.controllers c). rewrite Hlive.
      reflexivity. }
    exists c1, st1. cbn [speechEvents app]. rewrite Hgap. unfold Enhanced.steps.
    cbn [fold_left app]. rewrite Hfirst, Hsecond.
    split; [reflexivity|]. split; [|repeat split].
    split; [|split; [exact Hready|exact Hlive]].
    apply nth_parked. rewrite Hwaiting. discriminate.
  - set (st1 := Tts.nextChunk st).
    set (c1 := Enhanced.setTasks
                 (Enhanced.replaceNth i (Enhanced.AwaitSpeech tail (Tts.AwaitGenerate st1))
                    (Enhanced.tasks c)) c).
    assert (Hfirst : Enhanced.step c (Enhanced.GenerationSettles i (Tts.Failed message)) = c1).
    { cbn [Enhanced.step]. rewrite Htask. unfold Tts.resumeGenerate, Tts.loopHead.
      fold st1. change (Tts.index st1) with (S (Tts.index st)).
      change (Tts.chunks st1) with (Tts.chunks st). rewrite Hnext.
      change (Tts.signal st1) with (Tts.signal st). rewrite Hlive. reflexivity. }
    exists c1, st1. cbn [speechEvents app]. unfold Enhanced.steps.
    cbn [fold_left app]. rewrite Hfirst.
    split; [reflexivity|]. split; [|repeat split; cbn; now rewrite app_nil_r].
    split; [|split; [exact Hready|exact Hlive]].
    apply nth_parked, Hslot.
Qed.

(** The last generation settles: the synthesis is over. *)
Lemma generation_then_end c i tail st g :
  speaking c i tail st ->
  Playback.settled g = true ->
  S (Tts.index st) = List.length (Tts.chunks st) ->
  let c1 := Enhanced.steps c (speechEvents i (List.length (Tts.chunks st)) (Tts.index st) [g]) in
  Enhanced.sink c1 = Enhanced.sink c ++ Playback.frames [g] ++ [Status "Listening..."]
  /\ Enhanced.ttsEndArmed c1 = S (Enhanced.ttsEndArmed c)
  /\ Enhanced.memory c1 = Enhanced.memory c
  /\ Enhanced.processingAudio c1 = false
  /\ Enhanced.currentTTSController c1 = None
  /\ nth i (Enhanced.tasks c1) Enhanced.Done = Enhanced.Done.
Proof.
  intros (Htask & Hready & Hlive) Hg Hlast.
  assert (Hslot : nth i (Enhanced.tasks c) Enhanced.Done <> Enhanced.Done)
    by (rewrite Htask; discriminate).
  assert (Hgap : (Tts.index st <? List.length (Tts.chunks st) - 1) = false)
    by (apply Nat.ltb_ge; lia).
  assert (Hnext : (S (Tts.index st) <? List.length (Tts.chunks st)) = false)
    by (apply Nat.ltb_ge; lia).
  destruct g as [audio| |message]; [|discriminate Hg|].
  - set (sent := Enhanced.send (Audio audio) c).
    assert (Hstep : Enhanced.step c (Enhanced.GenerationSettles i (Tts.Generated audio))
                    = Enhanced.afterSpeech (Some i)
                        (Enhanced.setTtsEndArmed (S (Enhanced.ttsEndArmed sent)) sent)).
    { cbn [Enhanced.step]. rewrite Htask. unfold Tts.resumeGenerate. rewrite Hlive, Hready.
      cbn [Tts.countSent Tts.index Tts.chunks]. rewrite Hgap.
      unfold Tts.loopHead, Tts.nextChunk, Tts.afterLoop.
      cbn [Tts.countSent Tts.index Tts.chunks].
      rewrite Hnext. reflexivity. }
    cbv zeta. cbn [speechEvents app]. rewrite Hgap. unfold Enhanced.steps.
    cbn [fold_left app]. rewrite Hstep. unfold Enhanced.afterSpeech, sent.
    cbn [Enhanced.park Enhanced.tasks Enhanced.setTasks Enhanced.send Enhanced.memory
         Enhanced.sink Enhanced.ttsEndArmed Enhanced.setTtsEndArmed Enhanced.setController
         Enhanced.setProcessing Enhanced.processingAudio Enhanced.currentTTSController
         Playback.frames].
    rewrite (nth_parked i _ _ _ Hslot), <- app_assoc. repeat split.
  - assert (Hstep : Enhanced.step c (Enhanced.GenerationSettles i (Tts.Failed message))
                    = Enhanced.afterSpeech (Some i)
                        (Enhanced.setTtsEndArmed (S (Enhanced.ttsEndArmed c)) c)).
    { cbn [Enhanced.step]. rewrite Htask.
      unfold Tts.resumeGenerate, Tts.loopHead, Tts.nextChunk, Tts.afterLoop.
      cbn [Tts.index Tts.chunks]. rewrite Hnext, Hready. reflexivity. }
    cbv zeta. cbn [speechEvents app]. unfold Enhanced.steps.
    cbn [fold_left app]. rewrite Hstep. unfold Enhanced.afterSpeech.
    cbn [Enhanced.park Enhanced.tasks Enhanced.setTasks Enhanced.send Enhanced.memory
         Enhanced.sink Enhanced.ttsEndArmed Enhanced.setTtsEndArmed Enhanced.setController
         Enhanced.setProcessing Enhanced.processingAudio Enhanced.currentTTSController
         Playback.frames].
    rewrite (nth_parked i _ _ _ Hslot). repeat split.
Qed.

Lemma speechEvents_cons slot count index g gs :
  speechEvents slot count index (g :: gs)
  = speechEvents slot count index [g] ++ speechEvents slot count (S index) gs.
Proof. cbn [speechEvents app]. now rewrite app_nil_r. Qed.

Lemma steps_app c es es' : Enhanced.steps c (es ++ es') = Enhanced.steps (Enhanced.steps c es) es'.
Proof. unfold Enhanced.steps. apply fold_left_app. Qed.

(** X23. A synthesis that nothing interrupts and all of whose calls settle
    sends the audio of the calls that succeeded and then the status
    [Listening...], arms the [tts_end] timer once, leaves the memory as it
    is, clears the busy flag and the controller, and ends the turn. *)
Theorem uninterrupted_speech_returns_to_listening :
  forall (gs : list Tts.Generation) (c : Enhanced.Conn) (i : nat) (tail : Enhanced.Tail)
         (st : Tts.Stream),
    nth i (Enhanced.tasks c) Enhanced.Done = Enhanced.AwaitSpeech tail (Tts.AwaitGenerate st) ->
    Enhanced.clientReady c = true ->
    Abort.signalAborted (Enhanced.controllers c) (Tts.signal st) = false ->
    forallb Playback.settled gs = true ->
    Tts.index st + List.length gs = List.length (Tts.chunks st) ->
    0 < List.length gs ->
    let c' := Enhanced.steps c (speechEvents i (List.length (Tts.chunks st)) (Tts.index st) gs) in
    Enhanced.sink c' = Enhanced.sink c ++ Playback.frames gs ++ [Status "Listening..."]
    /\ Enhanced.ttsEndArmed c' = S (Enhanced.ttsEndArmed c)
    /\ Enhanced.memory c' = Enhanced.memory c
    /\ Enhanced.processingAudio c' = false
    /\ Enhanced.currentTTSController c' = None
    /\ nth i (Enhanced.tasks c') Enhanced.Done = Enhanced.Done.
Proof.
  induction gs as [|g gs IH]; intros c i tail st Htask Hready Hlive Hgs Hcount Hsome;
    [cbn in Hsome; lia|].
  cbn [forallb] in Hgs. apply andb_true_iff in Hgs. destruct Hgs as [Hg Hgs].
  cbn [List.length] in Hcount. cbv zeta.
  assert (Hspeaking : speaking c i tail st) by (repeat split; assumption).
  destruct gs as [|g' gs].
  - apply (generation_then_end c i tail st g Hspeaking Hg). cbn [List.length] in Hcount. lia.
  - destruct (generation_then_next c i tail st g Hspeaking Hg)
      as (c1 & st1 & Hsteps & (Htask1 & Hready1 & Hlive1) & Hchunks & Hindex & Hsink & Harmed & Hmem);
      [cbn [List.length] in Hcount; lia|].
    rewrite speechEvents_cons, steps_app, Hsteps, <- Hchunks, <- Hindex.
    destruct (IH c1 i tail st1 Htask1 Hready1 Hlive1 Hgs) as (H1 & H2 & H3 & H4 & H5 & H6);
      [rewrite Hchunks, Hindex; cbn [List.length] in *; lia|cbn; lia|].
    cbv zeta in H1, H2, H3, H4, H5, H6.
    rewrite H1, H2, H3, Hsink, Harmed, Hmem.
    change (g :: g' :: gs) with ([g] ++ g' :: gs).
    rewrite frames_app, <- !app_assoc. repeat split; assumption.
Qed.

Lemma uninterrupted_speech_returns_to_listening_witness :
  let c := Enhanced.steps enhancedIdle
             [Enhanced.Results askTime; Enhanced.TimerFires 0;
              Enhanced.BackendSettles 0 (Router.Resolved commaReply) 5] in
  let st := {| Tts.chunks := Tts.splitIntoChunks commaReply; Tts.index := 0; Tts.sent := 0;
               Tts.signal := Some 0; Tts.voiceId := Tts.defaultVoice |} in
  nth 0 (Enhanced.tasks c) Enhanced.Done
  = Enhanced.AwaitSpeech Enhanced.ReplyTail (Tts.AwaitGenerate st)
  /\ Enhanced.clientReady c = true
  /\ Abort.signalAborted (Enhanced.controllers c) (Tts.signal st) = false
  /\ forallb Playback.settled [Tts.Generated "one"; Tts.Generated "two"] = true
  /\ Tts.index st + List.length [Tts.Generated "one"; Tts.Generated "two"]
     = List.length (Tts.chunks st)
  /\ 0 < List.length [Tts.Generated "one"; Tts.Generated "two"]
  /\ Enhanced.processingAudio
       (Enhanced.steps c
          (speechEvents 0 (List.length (Tts.chunks st)) (Tts.index st)
             [Tts.Generated "one"; Tts.Generated "two"])) = false.
Proof.
  cbv zeta.
  assert (Htask : nth 0 (Enhanced.tasks (Enhanced.steps enhancedIdle
             [Enhanced.Results askTime; Enhanced.TimerFires 0;
              Enhanced.BackendSettles 0 (Router.Resolved commaReply) 5])) Enhanced.Done
    = Enhanced.AwaitSpeech Enhanced.ReplyTail
        (Tts.AwaitGenerate
           {| Tts.chunks := Tts.splitIntoChunks commaReply; Tts.index := 0; Tts.sent := 0;
              Tts.signal := Some 0; Tts.voiceId := Tts.defaultVoice |}))
    by (vm_compute; reflexivity).
  assert (Hready : Enhanced.clientReady (Enhanced.steps enhancedIdle
             [Enhanced.Results askTime; Enhanced.TimerFires 0;
              Enhanced.BackendSettles 0 (Router.Resolved commaReply) 5]) = true)
    by (vm_compute; reflexivity).
  assert (Hlive : Abort.signalAborted (Enhanced.controllers (Enhanced.steps enhancedIdle
             [Enhanced.Results askTime; Enhanced.TimerFires 0;
              Enhanced.BackendSettles 0 (Router.Resolved commaReply) 5])) (Some 0) = false)
    by (vm_compute; reflexivity).
  assert (Hcount : 0 + List.length [Tts.Generated "one"; Tts.Generated "two"]
                   = List.length (Tts.splitIntoChunks commaReply)) by (vm_compute; reflexivity).
  assert (Hsome : 0 < List.length [Tts.Generated "one"; Tts.Generated "two"]) by (cbn; lia).
  refine (conj Htask (conj Hready (conj Hlive (conj eq_refl (conj Hcount (conj Hsome _)))))).
  exact (proj1 (proj2 (proj2 (proj2
           (uninterrupted_speech_returns_to_listening [Tts.Generated "one"; Tts.Generated "two"]
              _ 0 Enhanced.ReplyTail _ Htask Hready Hlive eq_refl Hcount Hsome))))).
Defined.

End TurnFacts.

(** ** The voice of the session *)

Section VoiceChangeFacts.
Import Js Ws Dg Vocabulary Sessions Voices Turns.

(** *** The voice of a synthesis *)

Lemma tuned_same c0 c : Enhanced.tasks c = Enhanced.tasks c0 -> Tuned c0 c.
Proof. intros Htasks i st Hnone. rewrite Htasks, Hnone. discriminate. Qed.

Lemma nth_replaceNth_other {A} (x d : A) : forall i j xs,
  i <> j -> nth i (Enhanced.replaceNth j x xs) d = nth i xs d.
Proof.
  induction i as [|i IH]; intros [|j] [|y xs] Hne; cbn; try reflexivity; try congruence.
  apply IH. congruence.
Qed.

Lemma tuned_park slot t c0 c :
  Enhanced.tasks c = Enhanced.tasks c0 ->
  (forall st, speechOf t = Some st -> Tts.voiceId st = Enhanced.voiceOf c0) ->
  Tuned c0 (Enhanced.park slot t c).
Proof.
  intros Htasks Ht i st Hnone. destruct slot as [j|]; cbn [Enhanced.park Enhanced.tasks Enhanced.setTasks];
    rewrite Htasks.
  - destruct (Nat.eq_dec i j) as [->|Hne].
    + rewrite nth_replaceNth. destruct (j <? List.length (Enhanced.tasks c0)); [apply Ht|discriminate].
    + rewrite (nth_replaceNth_other _ _ i j _ Hne), Hnone. discriminate.
  - destruct (Nat.lt_ge_cases i (List.length (Enhanced.tasks c0))) as [Hlt|Hge].
    + rewrite app_nth1 by exact Hlt. rewrite Hnone. discriminate.
    + rewrite app_nth2 by exact Hge.
      destruct (i - List.length (Enhanced.tasks c0)) as [|[|k]]; cbn; [apply Ht|discriminate|discriminate].
Qed.

Lemma tuned_catchBlock slot e c0 c :
  Enhanced.tasks c = Enhanced.tasks c0 -> Tuned c0 (Enhanced.catchBlock slot e c).
Proof.
  intros Htasks. unfold Enhanced.catchBlock. destruct slot as [j|].
  - apply tuned_park; [destruct (Router.isAbort e); exact Htasks|discriminate].
  - apply tuned_same. destruct (Router.isAbort e); exact Htasks.
Qed.

Lemma tuned_afterSpeech slot c0 c :
  Enhanced.tasks c = Enhanced.tasks c0 -> Tuned c0 (Enhanced.afterSpeech slot c).
Proof.
  intros Htasks. unfold Enhanced.afterSpeech. destruct slot as [j|].
  - apply tuned_park; [exact Htasks|discriminate].
  - apply tuned_same. exact Htasks.
Qed.

Lemma tuned_speech slot tail out c0 c :
  Enhanced.tasks c = Enhanced.tasks c0 ->
  (forall p, snd out = Tts.Suspend p -> Tts.voiceId (streamOf p) = Enhanced.voiceOf c0) ->
  Tuned c0 (Enhanced.speech slot tail out c).
Proof.
  intros Htasks Hout. unfold Enhanced.speech.
  pose proof (proj2 (flag_sendAll (fst out) c)) as Hsent. rewrite Htasks in Hsent.
  destruct (snd out) as [p|armed].
  - apply tuned_park; [exact Hsent|]. cbn [speechOf]. intros st [= <-]. now apply Hout.
  - apply tuned_afterSpeech. destruct armed; exact Hsent.
Qed.

Lemma voiceOf_truthy c : truthy (Enhanced.voiceOf c) = true.
Proof.
  unfold Enhanced.voiceOf. destruct (Enhanced.session c) as [s|]; [|reflexivity].
  destruct (truthy (Enhanced.voiceId s)) eqn:Hv; [exact Hv|reflexivity].
Qed.

Lemma murf_voice text sig v cs ready p :
  snd (Tts.murfStreamSentences text sig v cs ready) = Tts.Suspend p ->
  Tts.voiceId (streamOf p) = (if truthy v then v else Tts.defaultVoice).
Proof.
  unfold Tts.murfStreamSentences.
  destruct (negb (truthy text) || negb (truthy (trim text))); [discriminate|].
  destruct (List.length (Tts.splitIntoChunks (Tts.sanitizeForTTS text)) =? 0); [discriminate|].
  cbn [snd]. unfold Tts.loopHead, Tts.afterLoop. cbn [Tts.index Tts.chunks Tts.signal].
  destruct (0 <? _); [|discriminate].
  destruct (Abort.signalAborted cs sig); [discriminate|].
  intros [= <-]. reflexivity.
Qed.

Lemma sendAll_session ms : forall c,
  Enhanced.session (Enhanced.sendAll ms c) = Enhanced.session c.
Proof.
  unfold Enhanced.sendAll. induction ms as [|m ms IH]; intros c; cbn [fold_left]; [reflexivity|].
  now rewrite IH.
Qed.

Lemma tuned_afterRoute slot transcript aiReply c0 c :
  Enhanced.tasks c = Enhanced.tasks c0 ->
  Enhanced.session c = Enhanced.session c0 ->
  Tuned c0 (Enhanced.afterRoute slot transcript aiReply c).
Proof.
  intros Htasks Hsession. unfold Enhanced.afterRoute.
  match goal with |- context [match ?k with Some _ => _ | None => _ end] => destruct k as [id|] end.
  - apply tuned_speech; [exact Htasks|]. intros p Hp. apply murf_voice in Hp.
    rewrite voiceOf_truthy in Hp. rewrite Hp. unfold Enhanced.voiceOf.
    cbn [Enhanced.session Enhanced.send Enhanced.updateMemory Enhanced.setMemory].
    now rewrite Hsession.
  - apply tuned_catchBlock. exact Htasks.
Qed.

Lemma tuned_routed slot transcript sig r c0 c :
  Enhanced.tasks c = Enhanced.tasks c0 ->
  Enhanced.session c = Enhanced.session c0 ->
  Tuned c0 (Enhanced.routed slot transcript sig r c).
Proof.
  intros Htasks Hsession. unfold Enhanced.routed. destruct r as [reply cache|e cache|cache req k].
  - apply tuned_afterRoute; assumption.
  - apply tuned_catchBlock. exact Htasks.
  - apply tuned_park; [exact Htasks|discriminate].
Qed.

Lemma tuned_afterAction slot transcript message c :
  Tuned c (Enhanced.afterAction slot transcript message c).
Proof.
  unfold Enhanced.afterAction. cbn [Abort.create].
  apply tuned_speech; [reflexivity|]. intros p Hp. apply murf_voice in Hp.
  rewrite voiceOf_truthy in Hp. rewrite Hp. reflexivity.
Qed.

Lemma tuned_onResults ev c : Tuned c (Enhanced.onResults ev c).
Proof.
  apply tuned_same. unfold Enhanced.onResults.
  destruct (negb (Enhanced.isOpen c)); [reflexivity|].
  match goal with
  | |- context [if ?b then Enhanced.interrupt c else c] =>
      set (c1 := if b then Enhanced.interrupt c else c);
      assert (Hc1 : Enhanced.tasks c1 = Enhanced.tasks c)
        by (subst c1; destruct b; [|reflexivity];
            unfold Enhanced.interrupt, Enhanced.cancelCurrentTTS;
            destruct (Enhanced.currentTTSController c); reflexivity);
      clearbody c1
  end.
  rewrite <- Hc1.
  destruct (qlt (confidence ev) (1 # 2) && (String.length (text ev) <? 3)); [reflexivity|].
  destruct (truthy (trim (text ev))); [|reflexivity].
  destruct (negb (isFinal ev)); [reflexivity|].
  destruct (1 <? String.length (trim (text ev))); [|reflexivity].
  match goal with
  | |- context [Enhanced.detectName ?t ?c2] =>
      pose proof (proj2 (detectName_flag t c2)) as Hname;
      change (Enhanced.tasks c2) with (Enhanced.tasks c1) in Hname
  end.
  match goal with
  | |- Enhanced.tasks (if ?b then _ else _) = _ => destruct b
  end; exact Hname.
Qed.

Lemma speech_other j tail out c i :
  i <> j ->
  nth i (Enhanced.tasks (Enhanced.speech (Some j) tail out c)) Enhanced.Done
  = nth i (Enhanced.tasks c) Enhanced.Done.
Proof.
  intros Hne. unfold Enhanced.speech, Enhanced.afterSpeech.
  pose proof (proj2 (flag_sendAll (fst out) c)) as Hsent.
  destruct (snd out) as [p|armed];
    cbn [Enhanced.park Enhanced.tasks Enhanced.setTasks Enhanced.setProcessing Enhanced.send
         Enhanced.setController];
    rewrite (nth_replaceNth_other _ _ i j _ Hne); [now rewrite Hsent|].
  destruct armed; cbn [Enhanced.tasks Enhanced.setTtsEndArmed]; now rewrite Hsent.
Qed.

(** A synthesis that goes on is none that begins. *)
Lemma tuned_resumed c j tail out :
  speechOf (nth j (Enhanced.tasks c) Enhanced.Done) <> None ->
  Tuned c (Enhanced.speech (Some j) tail out c).
Proof.
  intros Hrunning i st Hnone. destruct (Nat.eq_dec i j) as [->|Hne]; [contradiction|].
  rewrite (speech_other j tail out c i Hne), Hnone. discriminate.
Qed.

(** Whatever happens, a synthesis that begins runs with the voice that the
    session has at that moment. *)
Lemma step_tuned c e : Tuned c (Enhanced.step c e).
Proof.
  destruct e as [| |ev|now|j message|j o now|j g|j| | |]; cbn [Enhanced.step];
    try (apply tuned_same; reflexivity).
  - apply tuned_onResults.
  - destruct (Enhanced.transcriptTimeout c) as [t|]; [|apply tuned_same; reflexivity].
    unfold Enhanced.timerCallback.
    match goal with |- context [if ?b then _ else _] => destruct b end;
      [apply tuned_same; reflexivity|].
    match goal with |- context [if ?b then _ else _] => destruct b end.
    + apply tuned_park; [reflexivity|discriminate].
    + cbn [Abort.create]. apply tuned_routed; reflexivity.
  - destruct (nth j (Enhanced.tasks c) Enhanced.Done); try (apply tuned_same; reflexivity).
    apply tuned_afterAction.
  - destruct (nth j (Enhanced.tasks c) Enhanced.Done) as [| ? ? [| |? ? k] | |];
      try (apply tuned_same; reflexivity).
    apply tuned_routed; reflexivity.
  - destruct (nth j (Enhanced.tasks c) Enhanced.Done) as [| |tail [st0|st0]|] eqn:Htask;
      try (apply tuned_same; reflexivity).
    apply (tuned_resumed c j tail). now rewrite Htask.
  - destruct (nth j (Enhanced.tasks c) Enhanced.Done) as [| |tail [st0|st0]|] eqn:Htask;
      try (apply tuned_same; reflexivity).
    apply (tuned_resumed c j tail). now rewrite Htask.
  - destruct (Enhanced.ttsEndArmed c); apply tuned_same; reflexivity.
  - apply tuned_same. unfold Enhanced.cancelCurrentTTS.
    destruct (Enhanced.currentTTSController c); reflexivity.
Qed.

(** X17. A voice change for a known session is acknowledged with the new
    voice, keeps the document of the session and leaves the other sessions
    as they are.  Every synthesis that an event of the connection starts
    afterwards runs with the new voice, or with the default one when the new
    value is empty, and its requests name the new voice when the voice table
    has it, and the default voice when the table has nothing under the new
    value. *)
Theorem voice_change_is_heard_in_the_next_turn :
  forall (sid other voice : string) (session : Enhanced.Session) (m : Store)
         (c : Enhanced.Conn) (e : Enhanced.Event) (i : nat) (st : Tts.Stream),
    get sid m = Some session ->
    String.eqb other sid = false ->
    speechOf (nth i (Enhanced.tasks c) Enhanced.Done) = None ->
    speechOf (nth i (Enhanced.tasks (serve sid (snd (voiceChange sid voice m)) e c))
                Enhanced.Done) = Some st ->
    fst (voiceChange sid voice m) = Some voice
    /\ get sid (snd (voiceChange sid voice m))
       = Some {| Enhanced.document := Enhanced.document session; Enhanced.voiceId := voice |}
    /\ get other (snd (voiceChange sid voice m)) = get other m
    /\ Tts.voiceId st = (if truthy voice then voice else "en-US-terrell")
    /\ forall chunk,
         (In voice (map fst VOICE_CONFIGS) ->
          Request.voice_id (payload chunk (Tts.voiceId st)) = Some voice)
         /\ (lookup voice = Undefined ->
             Request.voice_id (payload chunk (Tts.voiceId st)) = Some "en-US-terrell").
Proof.
  intros sid other voice session m c e i st Hget Hother Hnone Hsome.
  assert (Hstore : get sid (snd (voiceChange sid voice m))
                   = Some {| Enhanced.document := Enhanced.document session;
                             Enhanced.voiceId := voice |}).
  { unfold voiceChange. rewrite Hget. cbn [snd]. apply get_set. }
  assert (Hvoice : Tts.voiceId st = (if truthy voice then voice else "en-US-terrell")).
  { rewrite (step_tuned (attach sid (snd (voiceChange sid voice m)) c) e i st Hnone Hsome).
    unfold Enhanced.voiceOf. cbn [attach Enhanced.session]. rewrite Hstore. reflexivity. }
  split; [unfold voiceChange; now rewrite Hget|].
  split; [exact Hstore|].
  split; [unfold voiceChange; rewrite Hget; apply get_set_other, Hother|].
  split; [exact Hvoice|].
  intros chunk. rewrite Hvoice. split.
  - intros Hin. cbn in Hin.
    repeat (destruct Hin as [<-|Hin]; [reflexivity|]). contradiction.
  - intros Hnothing. destruct voice as [|a voice]; [reflexivity|]. cbn [truthy].
    unfold payload, configOf. rewrite Hnothing. reflexivity.
Qed.

Lemma voice_change_is_heard_in_the_next_turn_witness :
  get "abc12" [("abc12", {| Enhanced.document := None; Enhanced.voiceId := "en-US-terrell" |})]
  = Some {| Enhanced.document := None; Enhanced.voiceId := "en-US-terrell" |}
  /\ String.eqb "xyz89" "abc12" = false
  /\ speechOf (nth 0 (Enhanced.tasks enhancedThinking) Enhanced.Done) = None
  /\ speechOf
       (nth 0
          (Enhanced.tasks
             (serve "abc12"
                (snd (voiceChange "abc12" "en-GB-emma"
                        [("abc12", {| Enhanced.document := None;
                                      Enhanced.voiceId := "en-US-terrell" |})]))
                (Enhanced.BackendSettles 0 (Router.Resolved "It is noon.") 5) enhancedThinking))
          Enhanced.Done)
     = Some {| Tts.chunks := ["It is noon."]; Tts.index := 0; Tts.sent := 0;
               Tts.signal := Some 0; Tts.voiceId := "en-GB-emma" |}
  /\ Request.voice_id (payload "It is noon." "en-GB-emma") = Some "en-GB-emma".
Proof.
  assert (Hstarts :
    speechOf
       (nth 0
          (Enhanced.tasks
             (serve "abc12"
                (snd (voiceChange "abc12" "en-GB-emma"
                        [("abc12", {| Enhanced.document := None;
                                      Enhanced.voiceId := "en-US-terrell" |})]))
                (Enhanced.BackendSettles 0 (Router.Resolved "It is noon.") 5) enhancedThinking))
          Enhanced.Done)
     = Some {| Tts.chunks := ["It is noon."]; Tts.index := 0; Tts.sent := 0;
               Tts.signal := Some 0; Tts.voiceId := "en-GB-emma" |})
    by (vm_compute; reflexivity).
  refine (conj eq_refl (conj eq_refl (conj eq_refl (conj Hstarts _)))).
  refine (proj1 (proj2 (proj2 (proj2 (proj2
            (voice_change_is_heard_in_the_next_turn "abc12" "xyz89" "en-GB-emma"
               {| Enhanced.document := None; Enhanced.voiceId := "en-US-terrell" |}
               [("abc12", {| Enhanced.document := None; Enhanced.voiceId := "en-US-terrell" |})]
               enhancedThinking (Enhanced.BackendSettles 0 (Router.Resolved "It is noon.") 5) 0
               _ eq_refl eq_refl eq_refl Hstarts)))) "It is noon.") _).
  vm_compute. auto 12.
Defined.

End VoiceChangeFacts.

(** ** Smoothing of the reply *)

Section VoiceFacts.
Import Js VoiceStyle.

Lemma ellipsis_cons a s :
  ellipsis (String a s) = (isPeriod a && headIsPeriod s) || ellipsis s.
Proof. destruct s as [|b r]; cbn; [now rewrite andb_false_r|reflexivity]. Qed.

Lemma squeezeDots_cons a s :
  squeezeDots (String a s)
  = if isPeriod a && headIsPeriod s then squeezeDots s else String a (squeezeDots s).
Proof. destruct s as [|b r]; cbn; [now rewrite andb_false_r|reflexivity]. Qed.

Lemma squeezeDots_head s : headIsPeriod (squeezeDots s) = headIsPeriod s.
Proof.
  induction s as [|a s IH]; [reflexivity|]. rewrite squeezeDots_cons.
  cbn [headIsPeriod].
  destruct (isPeriod a) eqn:Ha; cbn [andb]; [|cbn [headIsPeriod]; exact Ha].
  destruct (headIsPeriod s) eqn:Hs; [exact IH|cbn [headIsPeriod]; exact Ha].
Qed.

Lemma squeezeDots_plain s : ellipsis (squeezeDots s) = false.
Proof.
  induction s as [|a s IH]; [reflexivity|]. rewrite squeezeDots_cons.
  destruct (isPeriod a && headIsPeriod s) eqn:Hrun; [exact IH|].
  rewrite ellipsis_cons, squeezeDots_head, Hrun, IH. reflexivity.
Qed.

Lemma normalizeQuotes_period c :
  isPeriod (if (code c =? 171) || (code c =? 187) then Tts.dquote else c) = isPeriod c.
Proof.
  destruct ((code c =? 171) || (code c =? 187)) eqn:Hq; [|reflexivity].
  unfold isPeriod. destruct (Ascii.eqb c ".") eqn:Hc; [|reflexivity].
  apply Ascii.eqb_eq in Hc. subst c. discriminate Hq.
Qed.

Lemma normalizeQuotes_head s : headIsPeriod (normalizeQuotes s) = headIsPeriod s.
Proof. destruct s as [|c r]; [reflexivity|]. cbn. apply normalizeQuotes_period. Qed.

Lemma normalizeQuotes_plain s : ellipsis (normalizeQuotes s) = ellipsis s.
Proof.
  induction s as [|a s IH]; [reflexivity|].
  change (normalizeQuotes (String a s))
    with (String (if (code a =? 171) || (code a =? 187) then Tts.dquote else a) (normalizeQuotes s)).
  now rewrite !ellipsis_cons, normalizeQuotes_period, normalizeQuotes_head, IH.
Qed.

Lemma endsWithPeriod_cons a s :
  endsWithPeriod (String a s) = if truthy s then endsWithPeriod s else isPeriod a.
Proof. destruct s; reflexivity. Qed.

Lemma truthy_append a b : truthy (a +++ b) = truthy a || truthy b.
Proof. destruct a; [reflexivity|reflexivity]. Qed.

Lemma endsWithPeriod_append a b :
  truthy b = true -> endsWithPeriod (a +++ b) = endsWithPeriod b.
Proof.
  intros Hb. induction a as [|c a IH]; [reflexivity|].
  cbn [append]. rewrite endsWithPeriod_cons, truthy_append, Hb, orb_true_r. exact IH.
Qed.

Lemma head_append a b : headIsPeriod (a +++ b) = if truthy a then headIsPeriod a else headIsPeriod b.
Proof. destruct a; reflexivity. Qed.

(** Appending leaves no ellipsis unless one straddles the seam. *)
Lemma ellipsis_append a b :
  ellipsis a = false -> ellipsis b = false ->
  endsWithPeriod a && headIsPeriod b = false ->
  ellipsis (a +++ b) = false.
Proof.
  induction a as [|c a IH]; intros Ha Hb Hseam; [exact Hb|].
  cbn [append]. rewrite ellipsis_cons in *. apply orb_false_iff in Ha. destruct Ha as [Hc Ha].
  rewrite endsWithPeriod_cons in Hseam. rewrite head_append.
  destruct (truthy a) eqn:Hsome.
  - rewrite Hc. cbn [orb]. now apply IH.
  - destruct a; [|discriminate]. cbn [append]. rewrite Hb, orb_false_r. exact Hseam.
Qed.

Lemma pace_cons a s :
  pace (String a s)
  = match s with
    | String b r =>
        if isPeriod a && Ascii.eqb b " "
        then String "." (String " " (String " " (pace r)))
        else String a (pace s)
    | EmptyString => String a EmptyString
    end.
Proof. destruct s; reflexivity. Qed.

Lemma pace_facts n : forall s,
  String.length s <= n ->
  headIsPeriod (pace s) = headIsPeriod s
  /\ ellipsis (pace s) = ellipsis s
  /\ endsWithPeriod (pace s) = endsWithPeriod s
  /\ truthy (pace s) = truthy s.
Proof.
  induction n as [|n IH]; intros [|a s] Hlen; cbn [String.length] in Hlen; try lia;
    try (repeat split; reflexivity).
  rewrite pace_cons. destruct s as [|b r]; [repeat split; reflexivity|].
  destruct (IH (String b r)) as (Hh & He & Hw & Ht); [cbn [String.length] in *; lia|].
  destruct (IH r) as (Hh' & He' & Hw' & Ht'); [cbn [String.length] in *; lia|].
  destruct (isPeriod a && Ascii.eqb b " ") eqn:Hpause.
  - apply andb_true_iff in Hpause. destruct Hpause as [Ha Hb].
    apply Ascii.eqb_eq in Hb. subst b. unfold isPeriod in Ha. apply Ascii.eqb_eq in Ha. subst a.
    repeat split.
    + rewrite (ellipsis_cons "." (String " " (String " " (pace r)))),
        (ellipsis_cons " " (String " " (pace r))), (ellipsis_cons " " (pace r)),
        (ellipsis_cons "." (String " " r)), (ellipsis_cons " " r).
      cbn. exact He'.
    + rewrite (endsWithPeriod_cons "." (String " " (String " " (pace r)))),
        (endsWithPeriod_cons " " (String " " (pace r))), (endsWithPeriod_cons " " (pace r)),
        (endsWithPeriod_cons "." (String " " r)), (endsWithPeriod_cons " " r).
      cbn [truthy]. rewrite Ht', Hw'. destruct (truthy r); reflexivity.
  - repeat split.
    + rewrite (ellipsis_cons a (pace (String b r))), (ellipsis_cons a (String b r)), Hh, He.
      reflexivity.
    + rewrite (endsWithPeriod_cons a (pace (String b r))), (endsWithPeriod_cons a (String b r)),
        Ht, Hw. reflexivity.
Qed.

(** X24. The smoothed text ends with a period and never has two periods in a
    row. *)
Theorem smoothed_text_ends_with_one_period :
  forall (text : string) (warm : bool) (pick : nat),
    endsWithPeriod (conversationalize text warm pick) = true
    /\ ellipsis (conversationalize text warm pick) = false.
Proof.
  intros text warm pick. unfold conversationalize.
  destruct (negb (truthy text) || negb (truthy (trim text))); [split; reflexivity|].
  set (t := normalizeQuotes (squeezeDots (Tts.collapseSpaces (trim text)))).
  assert (Hplain : ellipsis t = false)
    by (subst t; rewrite normalizeQuotes_plain; apply squeezeDots_plain).
  set (closed := if endsWithPeriod t then t else t +++ ".").
  assert (Hclosed : endsWithPeriod closed = true /\ ellipsis closed = false).
  { subst closed. destruct (endsWithPeriod t) eqn:Hend; [auto|]. split.
    - now rewrite endsWithPeriod_append.
    - apply ellipsis_append; [exact Hplain|reflexivity|]. now rewrite Hend. }
  destruct Hclosed as [Hend Hone].
  set (warmed := if warm then nth pick warmeners "undefined" +++ closed else closed).
  assert (Hwarmed : endsWithPeriod warmed = true /\ ellipsis warmed = false).
  { subst warmed. destruct warm; [|auto]. split.
    - rewrite endsWithPeriod_append; [exact Hend|]. destruct closed; [discriminate Hend|reflexivity].
    - apply ellipsis_append; [|exact Hone|].
      + destruct pick as [|[|[|[|pick]]]]; reflexivity.
      + destruct pick as [|[|[|[|pick]]]]; reflexivity. }
  destruct Hwarmed as [Hend' Hone'].
  destruct (pace_facts (String.length warmed) warmed (Nat.le_refl _)) as (_ & He & Hw & _).
  now rewrite He, Hw.
Qed.


(** *** The opening sentence that server.js removes *)

Lemma trimEnd_word c r : isSpace c = false -> trimEnd (String c r) = String c (trimEnd r).
Proof. intros Hc. cbn [trimEnd]. destruct (trimEnd r); [now rewrite Hc|reflexivity]. Qed.

Lemma sforall_squeezeDots p s : sforall p s = true -> sforall p (squeezeDots s) = true.
Proof.
  induction s as [|a s IH]; [reflexivity|]. cbn [sforall]. rewrite andb_true_iff.
  intros [Ha Hs]. rewrite squeezeDots_cons.
  destruct (isPeriod a && headIsPeriod s); [auto|]. cbn [sforall]. rewrite Ha. auto.
Qed.

Lemma collapse_oneLine s : forall inRun,
  sforall (fun c => negb (isLineTerminator c)) (Tts.collapseGo inRun s) = true.
Proof.
  induction s as [|c r IH]; intros inRun; cbn [Tts.collapseGo]; [reflexivity|].
  destruct (isSpace c) eqn:Hc; [destruct inRun; [apply IH|cbn [sforall]; rewrite IH; reflexivity]|].
  cbn [sforall]. rewrite IH, andb_true_r.
  destruct (isLineTerminator c) eqn:Hlt; [|reflexivity].
  unfold isLineTerminator, isSpace in *. apply orb_true_iff in Hlt.
  destruct Hlt as [Hlt|Hlt]; apply Nat.eqb_eq in Hlt; rewrite Hlt in Hc; discriminate Hc.
Qed.

(** The body of the opening sentence, as [conversationalize] leaves it. *)
Lemma body_smoothed body :
  sforall (fun c => negb (isPeriod c)) body = true ->
  let b := normalizeQuotes (squeezeDots (Tts.collapseGo false (trimEnd body))) in
  sforall (fun c => negb (isPeriod c)) b = true
  /\ sforall (fun c => negb (isLineTerminator c)) b = true.
Proof.
  intros Hbody b. subst b. split.
  - unfold normalizeQuotes. apply sforall_smap.
    + intros c Hc. now rewrite normalizeQuotes_period.
    + apply sforall_squeezeDots, sforall_collapse; [reflexivity|]. apply sforall_trimEnd, Hbody.
  - unfold normalizeQuotes. apply sforall_smap.
    + intros c Hc. destruct ((code c =? 171) || (code c =? 187)); [reflexivity|exact Hc].
    + apply sforall_squeezeDots, collapse_oneLine.
Qed.

Lemma endsWithPeriod_plain s :
  sforall (fun c => negb (isPeriod c)) s = true -> endsWithPeriod s = false.
Proof.
  induction s as [|a s IH]; [reflexivity|]. cbn [sforall]. rewrite andb_true_iff.
  intros [Ha Hs]. rewrite endsWithPeriod_cons. destruct (truthy s); [auto|].
  now apply negb_true_iff.
Qed.

Lemma pace_sentence s :
  sforall (fun c => negb (isPeriod c)) s = true -> pace (s +++ ".") = s +++ ".".
Proof.
  induction s as [|a s IH]; [reflexivity|]. cbn [sforall]. rewrite andb_true_iff.
  intros [Ha Hs]. cbn [append]. rewrite pace_cons. apply negb_true_iff in Ha.
  destruct (s +++ ".") eqn:Hrest; [destruct s; discriminate Hrest|].
  rewrite Ha. cbn [andb]. now rewrite IH.
Qed.

Lemma upToPeriod_sentence s :
  sforall (fun c => negb (isPeriod c)) s = true ->
  sforall (fun c => negb (isLineTerminator c)) s = true ->
  upToPeriod (s +++ ".") = Some EmptyString.
Proof.
  induction s as [|a s IH]; [reflexivity|]. cbn [sforall]. rewrite !andb_true_iff.
  intros [Ha Hs] [Hl Hls]. cbn [append upToPeriod].
  unfold isPeriod in Ha. apply negb_true_iff in Ha, Hl. rewrite Ha, Hl. auto.
Qed.

Lemma squeezeDots_word c s :
  isPeriod c = false -> squeezeDots (String c s) = String c (squeezeDots s).
Proof. intros Hc. now rewrite squeezeDots_cons, Hc. Qed.

Lemma collapse_word c s inRun :
  isSpace c = false -> Tts.collapseGo inRun (String c s) = String c (Tts.collapseGo false s).
Proof. intros Hc. cbn [Tts.collapseGo]. now rewrite Hc. Qed.

(** A word at the head of the reply goes through the smoothing as it is. *)
Lemma smoothing_keeps_word p : forall body,
  sforall (fun c => negb (isSpace c) && negb (isPeriod c)
                    && negb ((code c =? 171) || (code c =? 187))) p = true ->
  normalizeQuotes (squeezeDots (Tts.collapseSpaces (trimEnd (p +++ body))))
  = p +++ normalizeQuotes (squeezeDots (Tts.collapseSpaces (trimEnd body))).
Proof.
  unfold Tts.collapseSpaces.
  induction p as [|c p IH]; intros body; [reflexivity|]. cbn [sforall append].
  rewrite !andb_true_iff, !negb_true_iff. intros [[[Hspace Hperiod] Hquote] Hp].
  rewrite trimEnd_word, collapse_word, squeezeDots_word by assumption.
  change (normalizeQuotes (String c ?s))
    with (String (if (code c =? 171) || (code c =? 187) then Tts.dquote else c) (normalizeQuotes s)).
  now rewrite Hquote, IH.
Qed.

Lemma pace_append n : forall a b,
  String.length a <= n ->
  endsWithPeriod a = false ->
  pace (a +++ b) = pace a +++ pace b.
Proof.
  induction n as [|n IH]; intros [|x a] b Hlen Hend; cbn [String.length] in Hlen; try lia;
    try reflexivity.
  destruct a as [|y a].
  - cbn [append]. cbn [endsWithPeriod] in Hend. rewrite pace_cons.
    change (isPeriod x) with (Ascii.eqb x ".") . rewrite Hend.
    destruct b; reflexivity.
  - cbn [append]. rewrite (pace_cons x (String y (a +++ b))), (pace_cons x (String y a)).
    destruct (isPeriod x && Ascii.eqb y " ") eqn:Hpause.
    + cbn [append]. do 3 f_equal. apply IH; [cbn [String.length] in Hlen; lia|].
      rewrite !endsWithPeriod_cons in Hend. cbn [truthy] in Hend.
      destruct a; [reflexivity|exact Hend].
    + cbn [append]. f_equal. apply (IH (String y a)); [cbn [String.length] in *; lia|].
      now rewrite endsWithPeriod_cons in Hend.
Qed.

Lemma dropSentence_skip first intro w : forall s,
  sforall (fun c => negb (Ascii.eqb first c)) w = true ->
  dropSentence (String first intro) (w +++ s) = w +++ dropSentence (String first intro) s.
Proof.
  induction w as [|c w IH]; intros s; [reflexivity|]. cbn [sforall]. rewrite andb_true_iff.
  intros [Hc Hw]. apply negb_true_iff in Hc.
  cbn [append dropSentence startsWith startsWithBy]. rewrite Hc. cbn [andb].
  now rewrite IH.
Qed.

(** X25. The older server erases a reply that opens with [Sure,] and has no
    period: what it sends is empty, or the warmener alone when one was
    drawn. *)
Theorem reply_opening_with_sure_is_erased :
  forall (body : string) (warm : bool) (pick : nat),
    sforall (fun c => negb (isPeriod c)) body = true ->
    smooth ("Sure," +++ body) warm pick
    = if warm then trim (nth pick warmeners "undefined") else EmptyString.
Proof.
  intros body warm pick Hbody. unfold smooth, conversationalize.
  assert (Htrim : trim ("Sure," +++ body) = trimEnd ("Sure," +++ body)) by reflexivity.
  assert (Hsome : truthy (trimEnd ("Sure," +++ body)) = true).
  { cbn [append]. now rewrite trimEnd_word. }
  rewrite Htrim, Hsome. cbn [append truthy negb orb].
  change (String "S" (String "u" (String "r" (String "e" (String "," body)))))
    with ("Sure," +++ body).
  rewrite (smoothing_keeps_word "Sure," body) by reflexivity.
  destruct (body_smoothed body Hbody) as [Hplain Hline].
  change (Tts.collapseGo false) with Tts.collapseSpaces in Hplain, Hline.
  set (b := normalizeQuotes (squeezeDots (Tts.collapseSpaces (trimEnd body)))) in *.
  clearbody b.
  assert (Hopen : sforall (fun c => negb (isPeriod c)) ("Sure," +++ b) = true)
    by (cbn [append sforall]; rewrite Hplain; reflexivity).
  rewrite (endsWithPeriod_plain _ Hopen).
  assert (Hpace : pace (("Sure," +++ b) +++ ".") = ("Sure," +++ b) +++ ".")
    by (apply pace_sentence, Hopen).
  assert (Hdrop : dropSentence "Sure," (("Sure," +++ b) +++ ".") = EmptyString).
  { cbn [append dropSentence startsWith startsWithBy String.length drop].
    rewrite !Ascii.eqb_refl. cbn [andb]. now rewrite (upToPeriod_sentence b Hplain Hline). }
  set (sentence := ("Sure," +++ b) +++ ".") in *. clearbody sentence.
  destruct warm; [|now rewrite Hpace, Hdrop].
  set (w := nth pick warmeners "undefined").
  assert (Hw : endsWithPeriod w = false
               /\ sforall (fun c => negb (Ascii.eqb "S" c)) (pace w) = true
               /\ dropSentence "Alright," (pace w) = pace w
               /\ trim (pace w) = trim w).
  { subst w. destruct pick as [|[|[|[|pick]]]]; cbn [nth warmeners]; repeat split; vm_compute;
      reflexivity. }
  destruct Hw as (Hend & Hskip & Hkeep & Hsame).
  rewrite (pace_append _ w sentence (Nat.le_refl _) Hend), Hpace.
  rewrite (dropSentence_skip "S" "ure," (pace w) sentence Hskip), Hdrop, append_nil_r.
  now rewrite Hkeep, Hsame.
Qed.

Lemma reply_opening_with_sure_is_erased_witness :
  sforall (fun c => negb (isPeriod c)) " I can help you with that" = true
  /\ smooth ("Sure," +++ " I can help you with that") false 0 = EmptyString.
Proof.
  refine (conj eq_refl _).
  exact (reply_opening_with_sure_is_erased " I can help you with that" false 0 eq_refl).
Defined.

End VoiceFacts.

(** ** Patterns: the classifier and the action test *)

Section PatternFacts.
Import Js Re Language.

Lemma append_empty a b : a +++ b = EmptyString -> a = EmptyString /\ b = EmptyString.
Proof. destruct a; [auto|discriminate]. Qed.

Lemma nullable_spec r : nullable r = true <-> Matches r EmptyString.
Proof.
  split.
  - induction r as [| |p|a IHa b IHb|a IHa b IHb|a IHa]; cbn [nullable]; try discriminate.
    + intros _. constructor.
    + rewrite andb_true_iff. intros [Ha Hb].
      change EmptyString with (EmptyString +++ EmptyString). constructor; auto.
    + rewrite orb_true_iff. intros [Ha|Hb]; [apply MAltL|apply MAltR]; auto.
    + intros _. constructor.
  - remember EmptyString as w eqn:Hw. intros Hm.
    induction Hm as [|p c Hc|a b u v Hu IHu Hv IHv|a b u Hu IHu|a b u Hu IHu|a|a u v Hu IHu Hv IHv];
      cbn [nullable]; try reflexivity; try discriminate.
    + apply append_empty in Hw. destruct Hw as [-> ->]. now rewrite IHu, IHv.
    + now rewrite IHu.
    + rewrite IHu by exact Hw. apply orb_true_r.
Qed.

Lemma no_match_void w : ~ Matches Void w.
Proof. intros Hm. inversion Hm. Qed.

Lemma cat_inv a b w :
  Matches (Cat a b) w -> exists u v, w = u +++ v /\ Matches a u /\ Matches b v.
Proof. intros Hm. inversion Hm; subst. eauto. Qed.

Lemma alt_inv a b w : Matches (Alt a b) w -> Matches a w \/ Matches b w.
Proof. intros Hm. inversion Hm; subst; auto. Qed.

Lemma eps_inv w : Matches Eps w -> w = EmptyString.
Proof. intros Hm. now inversion Hm. Qed.

Lemma chr_inv p w : Matches (Chr p) w -> exists c, w = String c EmptyString /\ p c = true.
Proof. intros Hm. inversion Hm; subst. eauto. Qed.

Lemma cat_spec a b w : Matches (cat a b) w <-> Matches (Cat a b) w.
Proof.
  split.
  - intros Hm. destruct a, b; cbn [cat] in Hm; try exact Hm;
      try (exfalso; exact (no_match_void _ Hm));
      try (change w with (EmptyString +++ w); constructor; [constructor|exact Hm]);
      try (rewrite <- (append_nil_r w); constructor; [exact Hm|constructor]).
  - intros Hm. apply cat_inv in Hm. destruct Hm as (u & v & -> & Hu & Hv).
    destruct a, b; cbn [cat]; try (constructor; assumption);
      try (exfalso; eapply no_match_void; eassumption);
      try (apply eps_inv in Hu; subst u; exact Hv);
      try (apply eps_inv in Hv; subst v; rewrite append_nil_r; exact Hu).
Qed.

Lemma alt_spec a b w : Matches (alt a b) w <-> Matches (Alt a b) w.
Proof.
  split.
  - intros Hm. destruct a, b; cbn [alt] in Hm; try exact Hm;
      try (apply MAltR; exact Hm); try (apply MAltL; exact Hm).
  - intros Hm. apply alt_inv in Hm.
    destruct Hm as [Hm|Hm]; destruct a, b; cbn [alt]; try assumption;
      try (exfalso; eapply no_match_void; eassumption);
      try (apply MAltL; assumption); try (apply MAltR; assumption).
Qed.

(** A non-empty word of a star begins with a non-empty word of its body. *)
Lemma star_cons a c w :
  Matches (Star a) (String c w) ->
  exists u v, w = u +++ v /\ Matches a (String c u) /\ Matches (Star a) v.
Proof.
  remember (Star a) as r eqn:Hr. remember (String c w) as s eqn:Hs. intros Hm.
  revert c w Hs.
  induction Hm as [|p c0 Hc|a0 b u v Hu IHu Hv IHv|a0 b u Hu IHu|a0 b u Hu IHu|a0|a0 u v Hu IHu Hv IHv];
    try discriminate; intros c w Hs.
  injection Hr as ->. destruct u as [|d u].
  - cbn [append] in Hs. apply (IHv eq_refl c w Hs).
  - cbn [append] in Hs. injection Hs as -> <-. exists u, v. auto.
Qed.

Lemma deriv_spec r : forall c w, Matches (deriv c r) w <-> Matches r (String c w).
Proof.
  induction r as [| |p|a IHa b IHb|a IHa b IHb|a IHa]; intros c w; cbn [deriv].
  - split; intros Hm; inversion Hm.
  - split; intros Hm; inversion Hm.
  - destruct (p c) eqn:Hp; split; intros Hm.
    + apply eps_inv in Hm. subst w. now constructor.
    + apply chr_inv in Hm. destruct Hm as (d & [= -> ->] & _). constructor.
    + inversion Hm.
    + apply chr_inv in Hm. destruct Hm as (d & [= -> ->] & Hd). congruence.
  - rewrite alt_spec. split.
    + intros Hm. apply alt_inv in Hm. destruct Hm as [Hm|Hm].
      * apply cat_spec, cat_inv in Hm. destruct Hm as (u & v & -> & Hu & Hv).
        apply IHa in Hu. change (String c (u +++ v)) with (String c u +++ v).
        now constructor.
      * destruct (nullable a) eqn:Hnull; [|inversion Hm].
        apply IHb in Hm. change (String c w) with (EmptyString +++ String c w).
        constructor; [now apply nullable_spec|exact Hm].
    + intros Hm. apply cat_inv in Hm. destruct Hm as (u & v & Heq & Hu & Hv).
      destruct u as [|d u].
      * cbn [append] in Heq. subst v. apply MAltR.
        apply nullable_spec in Hu. rewrite Hu. now apply IHb.
      * cbn [append] in Heq. injection Heq as <- ->. apply MAltL, cat_spec.
        constructor; [now apply IHa|exact Hv].
  - rewrite alt_spec. split.
    + intros Hm. apply alt_inv in Hm.
      destruct Hm as [Hm|Hm]; [apply MAltL; now apply IHa|apply MAltR; now apply IHb].
    + intros Hm. apply alt_inv in Hm.
      destruct Hm as [Hm|Hm]; [apply MAltL; now apply IHa|apply MAltR; now apply IHb].
  - rewrite cat_spec. split.
    + intros Hm. apply cat_inv in Hm. destruct Hm as (u & v & -> & Hu & Hv).
      apply IHa in Hu. change (String c (u +++ v)) with (String c u +++ v). now constructor.
    + intros Hm. apply star_cons in Hm. destruct Hm as (u & v & -> & Hu & Hv).
      constructor; [now apply IHa|exact Hv].
Qed.

Lemma isVoid_spec r : isVoid r = true -> r = Void.
Proof. destruct r; cbn; congruence. Qed.

Lemma testAtStart_spec s : forall r,
  testAtStart r s = true <-> exists w rest, s = w +++ rest /\ Matches r w.
Proof.
  induction s as [|c s IH]; intros r; cbn [testAtStart].
  - rewrite orb_false_r, nullable_spec. split.
    + intros Hm. exists EmptyString, EmptyString. auto.
    + intros (w & rest & Heq & Hm). symmetry in Heq. apply append_empty in Heq.
      destruct Heq as [-> _]. exact Hm.
  - rewrite orb_true_iff, nullable_spec. split.
    + intros [Hm|Hm].
      * exists EmptyString, (String c s). auto.
      * destruct (isVoid (deriv c r)); [discriminate|].
        apply IH in Hm. destruct Hm as (w & rest & -> & Hm).
        exists (String c w), rest. split; [reflexivity|]. now apply deriv_spec.
    + intros (w & rest & Heq & Hm). destruct w as [|d w]; [left; exact Hm|right].
      cbn [append] in Heq. injection Heq as <- ->. apply deriv_spec in Hm.
      destruct (isVoid (deriv c r)) eqn:Hvoid.
      * apply isVoid_spec in Hvoid. rewrite Hvoid in Hm. inversion Hm.
      * apply IH. eauto.
Qed.

(** [test] decides whether the text holds a match. *)
Lemma test_spec r : forall s, test r s = true <-> Holds r s.
Proof.
  unfold Holds. induction s as [|c s IH]; cbn [test].
  - rewrite orb_false_r, testAtStart_spec. split.
    + intros (w & rest & Heq & Hm). exists EmptyString, w, rest. split; [exact Heq|exact Hm].
    + intros (pre & w & post & Heq & Hm). symmetry in Heq. apply append_empty in Heq.
      destruct Heq as [-> Heq]. exists w, post. split; [now rewrite Heq|exact Hm].
  - rewrite orb_true_iff, testAtStart_spec, IH. split.
    + intros [(w & rest & Heq & Hm)|(pre & w & post & Heq & Hm)].
      * exists EmptyString, w, rest. split; [exact Heq|exact Hm].
      * exists (String c pre), w, post. subst s. split; [reflexivity|exact Hm].
    + intros (pre & w & post & Heq & Hm). destruct pre as [|d pre].
      * left. exists w, post. split; [exact Heq|exact Hm].
      * right. cbn [append] in Heq. injection Heq as <- ->.
        exists pre, w, post. split; [reflexivity|exact Hm].
Qed.


Lemma holds_inside r pre w post : Holds r w -> Holds r (pre +++ w +++ post).
Proof.
  intros (p & u & q & -> & Hm). exists (pre +++ p), u, (q +++ post).
  split; [now rewrite !append_assoc|exact Hm].
Qed.

Lemma holds_match r w : Matches r w -> Holds r w.
Proof.
  intros Hm. exists EmptyString, w, EmptyString. split; [now rewrite append_nil_r|exact Hm].
Qed.

Lemma holds_head r u v : Matches r u -> Holds r (u +++ v).
Proof. intros Hm. exists EmptyString, u, v. auto. Qed.

Lemma holds_tail r u v : Matches r v -> Holds r (u +++ v).
Proof.
  intros Hm. exists u, v, EmptyString. split; [now rewrite append_nil_r|exact Hm].
Qed.

Lemma smap_append f a b : smap f (a +++ b) = smap f a +++ smap f b.
Proof. induction a as [|c a IH]; cbn; [reflexivity|now rewrite IH]. Qed.

(** Lower-casing a code unit does not change how it folds onto a small letter. *)
Lemma fold_lower c : isLower (foldChar c) = true -> foldChar (lowerChar c) = foldChar c.
Proof.
  destruct c as [[] [] [] [] [] [] [] []]; vm_compute; intros H; try discriminate H; reflexivity.
Qed.

Lemma liti_lower p : forall u,
  sforall isLower p = true -> Matches (liti p) u -> Matches (liti p) (toLowerCase u).
Proof.
  induction p as [|a p IH]; intros u; cbn [liti sforall].
  - intros _ Hm. apply eps_inv in Hm. subst u. constructor.
  - rewrite andb_true_iff. intros [Ha Hp] Hm.
    apply cat_inv in Hm. destruct Hm as (u1 & v & -> & Hc & Hv).
    apply chr_inv in Hc. destruct Hc as (c & -> & Hc).
    unfold toLowerCase. rewrite smap_append. cbn [smap]. constructor.
    + constructor. apply Ascii.eqb_eq in Hc. rewrite fold_lower; [now apply Ascii.eqb_eq|].
      now rewrite Hc.
    + apply IH; assumption.
Qed.

(** Every match of the classifier's pattern for mail holds one of the words
    that [handleAction] looks for. *)
Lemma mail_words w : Matches Router.reEmail w -> Holds Action.reMail (toLowerCase w).
Proof.
  unfold Router.reEmail, Action.reMail. cbn [alts seqs]. intros Hm.
  assert (Hsend : forall u, Matches (liti "send") u ->
            Matches (Alt (liti "send") (Alt (liti "email") (liti "mail"))) (toLowerCase u))
    by (intros u Hu; apply MAltL, liti_lower; [reflexivity|exact Hu]).
  assert (Hemail : forall u, Matches (liti "email") u ->
            Matches (Alt (liti "send") (Alt (liti "email") (liti "mail"))) (toLowerCase u))
    by (intros u Hu; apply MAltR, MAltL, liti_lower; [reflexivity|exact Hu]).
  assert (Hmail : forall u, Matches (liti "mail") u ->
            Matches (Alt (liti "send") (Alt (liti "email") (liti "mail"))) (toLowerCase u))
    by (intros u Hu; apply MAltR, MAltR, liti_lower; [reflexivity|exact Hu]).
  unfold toLowerCase in *.
  apply alt_inv in Hm. destruct Hm as [Hm|Hm]; [|apply alt_inv in Hm; destruct Hm as [Hm|Hm];
    [|apply alt_inv in Hm; destruct Hm as [Hm|Hm]]].
  - apply cat_inv in Hm. destruct Hm as (u & v & -> & Hu & _).
    rewrite smap_append. apply holds_head, Hsend, Hu.
  - apply cat_inv in Hm. destruct Hm as (u & v & -> & Hu & _).
    rewrite smap_append. apply holds_head, Hemail, Hu.
  - apply cat_inv in Hm. destruct Hm as (u & v & -> & _ & Hv).
    apply cat_inv in Hv. destruct Hv as (v1 & v2 & -> & _ & Hv2).
    rewrite <- append_assoc, smap_append. apply holds_tail, Hemail, Hv2.
  - apply cat_inv in Hm. destruct Hm as (u & v & -> & Hu & _).
    rewrite smap_append. apply holds_head, Hmail, Hu.
Qed.

(** X26. A transcript that the classifier takes for an email request passes
    the action test as well, so the enhanced server hands it to
    [handleAction] and the turn does not call the router. *)
Theorem mail_requests_never_reach_the_router :
  forall (text : string) (now : Z) (c : Enhanced.Conn),
    Router.type (Router.classifyIntent text) = Router.email ->
    Enhanced.processingAudio c = false ->
    Action.isActionRequest text = true
    /\ Enhanced.timerCallback text now c
       = Enhanced.park None (Enhanced.AwaitAction text)
           (Enhanced.send (Ws.Status "Thinking...") (Enhanced.setProcessing true c)).
Proof.
  intros text now c Hmail Hidle.
  assert (Haction : Action.isActionRequest text = true).
  { assert (Htest : test Router.reEmail text = true).
    { revert Hmail. unfold Router.classifyIntent.
      destruct (test Router.reEmail text); [reflexivity|].
      repeat match goal with
             | |- context [if ?b then _ else _] => destruct b
             end; discriminate. }
    apply test_spec in Htest. destruct Htest as (pre & w & post & -> & Hm).
    unfold Action.isActionRequest. apply orb_true_iff. left. apply test_spec.
    unfold toLowerCase. rewrite !smap_append. apply holds_inside, mail_words, Hm. }
  split; [exact Haction|].
  unfold Enhanced.timerCallback. now rewrite Hidle, Haction.
Qed.

Lemma mail_requests_never_reach_the_router_witness :
  Router.type (Router.classifyIntent "Please compose email for Bob") = Router.email
  /\ Enhanced.processingAudio Vocabulary.enhancedIdle = false
  /\ Action.isActionRequest "Please compose email for Bob" = true.
Proof.
  assert (Hmail : Router.type (Router.classifyIntent "Please compose email for Bob") = Router.email)
    by (vm_compute; reflexivity).
  refine (conj Hmail (conj eq_refl _)).
  exact (proj1 (mail_requests_never_reach_the_router "Please compose email for Bob" 0%Z
                  Vocabulary.enhancedIdle Hmail eq_refl)).
Defined.

(** *** Greetings *)

Lemma liti_prefix p : forall s,
  startsWithBy foldChar p s = true -> exists w rest, s = w +++ rest /\ Matches (liti p) w.
Proof.
  induction p as [|a p IH]; intros s; cbn [startsWithBy liti].
  - intros _. exists EmptyString, s. split; [reflexivity|constructor].
  - destruct s as [|c s]; [discriminate|]. rewrite andb_true_iff. intros [Hc Hs].
    destruct (IH s Hs) as (w & rest & -> & Hw).
    exists (String c w), rest. split; [reflexivity|].
    change (String c w) with (String c EmptyString +++ w). constructor; [|exact Hw].
    constructor. apply Ascii.eqb_eq in Hc. subst a. apply Ascii.eqb_refl.
Qed.

Lemma greeting_word p w : In p greetings -> Matches (liti p) w -> Matches Router.reGreeting w.
Proof.
  unfold greetings, Router.reGreeting. cbn [alts In]. intros Hin Hm.
  repeat (destruct Hin as [<- | Hin];
          [repeat first [exact Hm | apply MAltL; exact Hm | apply MAltR]|]).
  contradiction.
Qed.

(** X27. A text that opens with one of the greeting phrases, in any letter
    case, is never classed general, however it goes on. *)
Theorem text_opening_like_a_greeting_is_never_general :
  forall (p text : string),
    In p greetings ->
    startsWithBy foldChar p text = true ->
    Router.type (Router.classifyIntent text) <> Router.general.
Proof.
  intros p text Hin Hstart.
  assert (Hgreet : testAtStart Router.reGreeting text = true).
  { apply testAtStart_spec. destruct (liti_prefix p text Hstart) as (w & rest & -> & Hw).
    exists w, rest. split; [reflexivity|exact (greeting_word p w Hin Hw)]. }
  unfold Router.classifyIntent. rewrite Hgreet.
  repeat match goal with
         | |- context [if ?b then _ else _] => destruct b
         end; discriminate.
Qed.

Lemma text_opening_like_a_greeting_is_never_general_witness :
  In "hi" greetings
  /\ startsWithBy foldChar "hi" "History of the Roman roads, with dates" = true
  /\ Router.classifyIntent "History of the Roman roads, with dates"
     = {| Router.type := Router.greeting; Router.complexity := Router.simple |}
  /\ Router.type (Router.classifyIntent "History of the Roman roads, with dates") <> Router.general.
Proof.
  assert (Hin : In "hi" greetings) by (left; reflexivity).
  assert (Hclass : Router.classifyIntent "History of the Roman roads, with dates"
     = {| Router.type := Router.greeting; Router.complexity := Router.simple |})
    by (vm_compute; reflexivity).
  refine (conj Hin (conj eq_refl (conj Hclass _))).
  exact (text_opening_like_a_greeting_is_never_general "hi"
           "History of the Roman roads, with dates" Hin eq_refl).
Defined.

End PatternFacts.
